(** * Arcaea chart files (.aff): lowering of the parse tree and the checkers

    A shallow embedding of the language server's AST pass ([ToASTVisitor],
    [eventTransformer], [parseValue]), of its data types, of the checker
    driver [processCheckers] and of [floatDigitChecker], followed by the
    properties of the written specification that concern them.

    Conventions of the embedding:
    - the [errors] array that every function of the pass receives and pushes to
      is threaded as state; a JavaScript [throw] ends the computation
      (type [Visitor] below);
    - a JavaScript [Map] or [Set] is the list of its entries in insertion
      order, which is also its iteration order;
    - the result of [parseInt] is a [number] that is an integer, [NaN] or an
      infinity; the result of [parseFloat] is kept symbolic, as no function of
      the pass or of the checkers modelled here computes with it. *)

From Stdlib Require Import ZArith List String Ascii Bool Lia DecimalString.
Import ListNotations.

Local Open Scope string_scope.
Local Open Scope Z_scope.

Set Implicit Arguments.

(** ** JavaScript values used by the pass *)

(** The double-quote character of the message templates. *)
Definition dquote : string := String (ascii_of_nat 34) EmptyString.

(** [`${n}`] for an array length. *)
Definition length_toString (n : nat) : string :=
  NilZero.string_of_uint (Nat.to_uint n).

(** [Array.prototype.join()], with its default separator. *)
Fixpoint join (l : list string) : string :=
  match l with
  | [] => ""
  | [s] => s
  | s :: rest => s ++ "," ++ join rest
  end.

(** [String.prototype.indexOf]: the index of the first occurrence, or -1. *)
Definition indexOf (s searchString : string) : Z :=
  match String.index 0 searchString s with
  | Some n => Z.of_nat n
  | None => -1
  end.

(** The numbers [parseInt] can return. *)
Inductive number : Type :=
| Integer (z : Z)
| NaN
| Infinity
| NegInfinity.

Definition Number_isInteger (n : number) : bool :=
  match n with
  | Integer _ => true
  | _ => false
  end.

(** [a < b] on numbers; every comparison with [NaN] is false. *)
Definition Number_lt (a b : number) : bool :=
  match a, b with
  | NaN, _ | _, NaN => false
  | Integer x, Integer y => x <? y
  | NegInfinity, NegInfinity => false
  | NegInfinity, _ => true
  | _, Infinity => match a with Infinity => false | _ => true end
  | _, _ => false
  end.

Definition Number_gt (a b : number) : bool := Number_lt b a.

(** [`${n}`]; integers are printed in decimal, which is what JavaScript does
    below 10^21. *)
Definition Number_toString (n : number) : string :=
  match n with
  | Integer z => NilZero.string_of_int (Z.to_int z)
  | NaN => "NaN"
  | Infinity => "Infinity"
  | NegInfinity => "-Infinity"
  end.

(** Rounding of a natural number to the nearest double, ties to even. *)
Definition roundToDouble (m : Z) : option Z :=
  let bits := Z.log2 m + 1 in
  if bits <=? 53 then Some m
  else
    let e := bits - 53 in
    let q := Z.shiftr m e in
    let r := Z.land m (Z.ones e) in
    let half := Z.shiftl 1 (e - 1) in
    let q' := if (half <? r) || ((r =? half) && Z.odd q) then q + 1 else q in
    let v := Z.shiftl q' e in
    if Z.shiftl 1 1024 <=? v then None else Some v.

Definition isWhiteSpace (c : ascii) : bool :=
  let n := nat_of_ascii c in
  ((9 <=? n) && (n <=? 13))%nat || (n =? 32)%nat.

Fixpoint trimStart (s : string) : string :=
  match s with
  | String c rest => if isWhiteSpace c then trimStart rest else s
  | EmptyString => s
  end.

Definition digitValue (c : ascii) : option Z :=
  let n := Z.of_nat (nat_of_ascii c) in
  if (48 <=? n) && (n <=? 57) then Some (n - 48)
  else if (97 <=? n) && (n <=? 122) then Some (n - 87)
  else if (65 <=? n) && (n <=? 90) then Some (n - 55)
  else None.

(** The value of the longest prefix of radix-[R] digits; [None] when that
    prefix is empty. *)
Fixpoint digitsPrefix (R : Z) (s : string) (acc : option Z) : option Z :=
  match s with
  | String c rest =>
      match digitValue c with
      | Some d =>
          if d <? R
          then digitsPrefix R rest (Some (R * match acc with Some a => a | None => 0 end + d))
          else acc
      | None => acc
      end
  | EmptyString => acc
  end.

(** [parseInt(string)] with no radix argument. *)
Definition parseInt (image : string) : number :=
  let S0 := trimStart image in
  let '(negative, S1) :=
    match S0 with
    | String "-" rest => (true, rest)
    | String "+" rest => (false, rest)
    | _ => (false, S0)
    end in
  let '(R, S2) :=
    match S1 with
    | String "0" (String "x" rest) => (16, rest)
    | String "0" (String "X" rest) => (16, rest)
    | _ => (10, S1)
    end in
  match digitsPrefix R S2 None with
  | None => NaN
  | Some mathInt =>
      match roundToDouble mathInt with
      | Some v => Integer (if negative then - v else v)
      | None => if negative then NegInfinity else Infinity
      end
  end.

(** The double that [parseFloat] reads from a literal, kept as the
    application itself. *)
Inductive float64 : Type :=
| parseFloat (image : string).

(** ** Locations and diagnostics (types.ts, chevrotain, vscode-languageserver) *)

Record CstNodeLocation : Type := {
  startOffset : Z;
  startLine : Z;
  startColumn : Z;
  endOffset : Z;
  endLine : Z;
  endColumn : Z
}.

Record WithLocation (T : Type) : Type := {
  data : T;
  location : CstNodeLocation
}.

Module DiagnosticSeverity.
Inductive t : Type := Error | Warning | Information | Hint.
End DiagnosticSeverity.

Record AFFErrorRelatedInfo : Type := {
  related_message : string;
  related_location : CstNodeLocation
}.

Record AFFError : Type := {
  message : string;
  error_location : CstNodeLocation;
  severity : DiagnosticSeverity.t;
  relatedInfo : option (list AFFErrorRelatedInfo)
}.

(** ** Values and events of the AST (types.ts) *)

Record AFFInt : Type := { int_value : number }.
Record AFFFloat : Type := { float_value : float64; digit : Z }.
Record AFFWord : Type := { word_value : string }.

Inductive AFFValue : Type :=
| VInt (i : AFFInt)
| VFloat (f : AFFFloat)
| VWord (w : AFFWord).

(** [keyof AFFValues], and [AFFValues[T]]. *)
Inductive ValueKind : Type := kind_int | kind_float | kind_word.

Definition AFFValues (T : ValueKind) : Type :=
  match T with
  | kind_int => AFFInt
  | kind_float => AFFFloat
  | kind_word => AFFWord
  end.

Definition ValueKind_toString (T : ValueKind) : string :=
  match T with
  | kind_int => "int"
  | kind_float => "float"
  | kind_word => "word"
  end.

Definition value_kind (v : AFFValue) : ValueKind :=
  match v with
  | VInt _ => kind_int
  | VFloat _ => kind_float
  | VWord _ => kind_word
  end.

Record AFFTrackId : Type := { trackId_value : number }.
Definition affTrackIds : list number := [Integer 1; Integer 2; Integer 3; Integer 4].

Record AFFColorId : Type := { colorId_value : number }.
Definition affColorIds : list number := [Integer 0; Integer 1; Integer 2].

Record AFFEffect : Type := { effect_value : string }.
Definition affEffects : list string := ["none"; "full"; "incremental"].

Record AFFArcKind : Type := { arcKind_value : string }.
Definition affArcKinds : list string :=
  ["b"; "s"; "si"; "so"; "sisi"; "siso"; "soso"; "sosi"].

Record AFFBool : Type := { bool_value : bool }.
Definition affBools : list string := ["true"; "false"].

(** [Set.prototype.has] on a set of strings. *)
Definition Set_has (s : list string) (x : string) : bool :=
  existsb (String.eqb x) s.

Record AFFTimingEvent : Type := {
  timing_tagLocation : CstNodeLocation;
  timing_time : WithLocation AFFInt;
  bpm : WithLocation AFFFloat;
  segment : WithLocation AFFFloat
}.

Record AFFTapEvent : Type := {
  tap_time : WithLocation AFFInt;
  tap_trackId : WithLocation AFFTrackId
}.

Record AFFHoldEvent : Type := {
  hold_tagLocation : CstNodeLocation;
  hold_start : WithLocation AFFInt;
  hold_end : WithLocation AFFInt;
  hold_trackId : WithLocation AFFTrackId
}.

Record AFFArctapEvent : Type := {
  arctap_tagLocation : CstNodeLocation;
  arctap_time : WithLocation AFFInt
}.

Record AFFArcEvent : Type := {
  arc_tagLocation : CstNodeLocation;
  arc_start : WithLocation AFFInt;
  arc_end : WithLocation AFFInt;
  xStart : WithLocation AFFFloat;
  xEnd : WithLocation AFFFloat;
  arcKind : WithLocation AFFArcKind;
  yStart : WithLocation AFFFloat;
  yEnd : WithLocation AFFFloat;
  colorId : WithLocation AFFColorId;
  effect : WithLocation AFFEffect;
  isLine : WithLocation AFFBool;
  arctaps : option (WithLocation (list (WithLocation AFFArctapEvent)))
}.

(** [AFFItem = AFFTimingEvent | AFFTapEvent | AFFHoldEvent | AFFArcEvent] and
    [AFFEvent = AFFItem | AFFArctapEvent]. *)
Inductive AFFItem : Type :=
| Timing (e : AFFTimingEvent)
| Tap (e : AFFTapEvent)
| Hold (e : AFFHoldEvent)
| Arc (e : AFFArcEvent).

Inductive AFFEvent : Type :=
| Item (i : AFFItem)
| Arctap (e : AFFArctapEvent).

Definition item_kind (i : AFFItem) : string :=
  match i with
  | Timing _ => "timing"
  | Tap _ => "tap"
  | Hold _ => "hold"
  | Arc _ => "arc"
  end.

Definition kind (e : AFFEvent) : string :=
  match e with
  | Item i => item_kind i
  | Arctap _ => "arctap"
  end.

Record AFFMetadataEntry : Type := {
  key : WithLocation string;
  value : WithLocation string
}.

(** A [Map] with string keys: its entries in insertion order. *)
Definition Map (V : Type) : Type := list (string * V).

Definition Map_get {V} (m : Map V) (k : string) : option V :=
  option_map snd (find (fun kv => String.eqb (fst kv) k) m).

Definition Map_has {V} (m : Map V) (k : string) : bool :=
  existsb (fun kv => String.eqb (fst kv) k) m.

Fixpoint Map_set {V} (m : Map V) (k : string) (v : V) : Map V :=
  match m with
  | [] => [(k, v)]
  | (k', v') :: rest =>
      if String.eqb k' k then (k', v) :: rest else (k', v') :: Map_set rest k v
  end.

Record AFFMetadata : Type := {
  metadata_data : Map (WithLocation AFFMetadataEntry);
  metaEndLocation : CstNodeLocation
}.

Record AFFFile : Type := {
  file_metadata : WithLocation AFFMetadata;
  file_items : list (WithLocation AFFItem)
}.

(** ** The parse tree (chevrotain's [IToken] and [CstNode])

    A [CstNode] is the dictionary [ctx] of its children, one array per name,
    and its location.  Each production of the grammar gets the record of the
    children its visitor method reads; an array that a method tests for
    presence and then maps is the list of its elements (an absent array is the
    empty list), one that it tests and then reads at index 0 is an option. *)

Module tokenTypes.
Inductive TokenType : Type :=
| word
| int
| float
| other (name : string).
End tokenTypes.

Record IToken : Type := {
  image : string;
  tokenType : tokenTypes.TokenType;
  token_startOffset : Z;
  token_startLine : Z;
  token_startColumn : Z;
  token_endOffset : Z;
  token_endLine : Z;
  token_endColumn : Z
}.

Record MetadataEntryNode : Type := {
  ctx_key : IToken;
  ctx_data : IToken;
  metadataEntry_location : CstNodeLocation
}.

Record MetadataNode : Type := {
  ctx_metadataEntry : list MetadataEntryNode;
  ctx_metaEnd : IToken;
  metadata_location : CstNodeLocation
}.

Record ValuesNode : Type := {
  ctx_value : list IToken;
  values_location : CstNodeLocation
}.

Inductive EventNode : Type :=
| mkEventNode (ctx_values : ValuesNode) (ctx_subevents : option SubeventsNode)
    (ctx_word : option IToken) (event_location : CstNodeLocation)
with SubeventsNode : Type :=
| mkSubeventsNode (ctx_event : list EventNode) (subevents_location : CstNodeLocation).

Definition event_location (node : EventNode) : CstNodeLocation :=
  match node with mkEventNode _ _ _ l => l end.

Record ItemNode : Type := {
  ctx_item_event : EventNode;
  item_location : CstNodeLocation
}.

Record ItemsNode : Type := {
  ctx_item : list ItemNode;
  items_location : CstNodeLocation
}.

Record AffNode : Type := {
  ctx_metadata : MetadataNode;
  ctx_items : ItemsNode;
  aff_location : CstNodeLocation
}.

(** ** Computations that push diagnostics and may throw *)

Inductive Completion (A : Type) : Type :=
| Normal (result : A) (errors : list AFFError)
| Throw (reason : string).

Arguments Throw {A} reason.

(** A function of the pass, applied to all its arguments but [errors]. *)
Definition Visitor (A : Type) : Type := list AFFError -> Completion A.

Definition ret {A} (a : A) : Visitor A := fun errors => Normal a errors.

Definition bind {A B} (m : Visitor A) (k : A -> Visitor B) : Visitor B :=
  fun errors =>
    match m errors with
    | Normal a errors' => k a errors'
    | Throw reason => Throw reason
    end.

(** [errors.push(e)] *)
Definition push (e : AFFError) : Visitor unit :=
  fun errors => Normal tt (errors ++ [e])%list.

(** [throw new Error(reason)] *)
Definition throw {A} (reason : string) : Visitor A :=
  fun _ => Throw reason.

Declare Scope visitor_scope.
Delimit Scope visitor_scope with visitor.
Notation "x <- m ;; k" := (bind m (fun x => k))
  (at level 61, m at next level, right associativity) : visitor_scope.
Notation "m ;; k" := (bind m (fun _ => k))
  (at level 61, right associativity) : visitor_scope.
Local Open Scope visitor_scope.

(** [array.map(f)] for an [f] that pushes diagnostics or throws: the elements
    are visited from left to right. *)
Definition mapM {A B} (f : A -> Visitor B) : list A -> Visitor (list B) :=
  fix go (l : list A) : Visitor (list B) :=
    match l with
    | [] => ret []
    | a :: rest => b <- f a ;; bs <- go rest ;; ret (b :: bs)
    end.

(** [for (const a of array) body], with the variables the body assigns to as
    the loop state [s]. *)
Definition for_of {A S} (body : A -> S -> Visitor S) : list A -> S -> Visitor S :=
  fix go (l : list A) (s : S) : Visitor S :=
    match l with
    | [] => ret s
    | a :: rest => s' <- body a s ;; go rest s'
    end.

(** [array.filter(e => e !== null)] *)
Fixpoint filter_not_null {A} (l : list (option A)) : list A :=
  match l with
  | [] => []
  | Some a :: rest => a :: filter_not_null rest
  | None :: rest => filter_not_null rest
  end.

(** [array.filter(e => e.data !== null)] *)
Fixpoint filter_data_not_null {A} (l : list (WithLocation (option A)))
  : list (WithLocation A) :=
  match l with
  | [] => []
  | e :: rest =>
      match data e with
      | Some a => {| data := a; location := location e |} :: filter_data_not_null rest
      | None => filter_data_not_null rest
      end
  end.

(** ** Helpers of the pass *)

Definition locationFromToken (token : IToken) : CstNodeLocation :=
  {| startOffset := token_startOffset token;
     startLine := token_startLine token;
     startColumn := token_startColumn token;
     endOffset := token_endOffset token;
     endLine := token_endLine token;
     endColumn := token_endColumn token |}.

(** The arguments [subevents] and [subeventsLocation] of the transformers are
    both read off [ctx.subevents] by [event], and are null together: they are
    passed as one optional located list. *)
Definition Subevents : Type := option (WithLocation (list (WithLocation AFFEvent))).

Definition rejectSubevent (kind : string) (subevents : Subevents) : Visitor unit :=
  match subevents with
  | Some s =>
      push {| message := "Event with type " ++ dquote ++ kind ++ dquote
                         ++ " should not have subevents.";
              error_location := location s;
              severity := DiagnosticSeverity.Error;
              relatedInfo := None |}
  | None => ret tt
  end.

Definition checkValuesCount (kind : string) (count : nat)
    (values : list (WithLocation AFFValue)) (valuesLocation : CstNodeLocation)
  : Visitor bool :=
  if negb (Nat.eqb (List.length values) count) then
    push {| message := "Event with type " ++ dquote ++ kind ++ dquote
                       ++ " should have " ++ length_toString count
                       ++ " field(s) instead of " ++ length_toString (List.length values)
                       ++ " field(s).";
            error_location := valuesLocation;
            severity := DiagnosticSeverity.Error;
            relatedInfo := None |} ;;
    ret false
  else ret true.

(** The narrowing [value as WithLocation<AFFValues[T]>], which the test on
    [value.data.kind] justifies. *)
Definition narrow (T : ValueKind) (v : AFFValue) : option (AFFValues T) :=
  match T return option (AFFValues T) with
  | kind_int => match v with VInt i => Some i | _ => None end
  | kind_float => match v with VFloat f => Some f | _ => None end
  | kind_word => match v with VWord w => Some w | _ => None end
  end.

Definition checkValueType (eventKind fieldname : string) (T : ValueKind)
    (values : list (WithLocation AFFValue)) (id : nat)
  : Visitor (option (WithLocation (AFFValues T))) :=
  match nth_error values id with
  | None => throw "TypeError: Cannot read properties of undefined (reading 'data')"
  | Some value =>
      match narrow T (data value) with
      | None =>
          push {| message := "The value in the " ++ dquote ++ fieldname ++ dquote
                             ++ " field of event with type " ++ dquote ++ eventKind
                             ++ dquote ++ " should be " ++ dquote
                             ++ ValueKind_toString T ++ dquote ++ " instead of "
                             ++ dquote ++ ValueKind_toString (value_kind (data value))
                             ++ dquote;
                  error_location := location value;
                  severity := DiagnosticSeverity.Error;
                  relatedInfo := None |} ;;
          ret None
      | Some d => ret (Some {| data := d; location := location value |})
      end
  end.

(** The message of the five value parsers. *)
Definition should_be_one_of (fieldname eventKind : string) (allowed : list string)
  : string :=
  "The value in the " ++ dquote ++ fieldname ++ dquote
  ++ " field of event with type " ++ dquote ++ eventKind ++ dquote
  ++ " should be one of " ++ join allowed.

Module parseValue.

Definition trackId (eventKind fieldname : string) (int : option (WithLocation AFFInt))
  : Visitor (option (WithLocation AFFTrackId)) :=
  match int with
  | Some i =>
      let intValue := int_value (data i) in
      if negb (Number_isInteger intValue) then
        throw ("value in AFFInt(" ++ Number_toString intValue ++ ") is not int")
      else if Number_lt intValue (Integer 1) || Number_gt intValue (Integer 4) then
        push {| message := should_be_one_of fieldname eventKind
                             (map Number_toString affTrackIds);
                error_location := location i;
                severity := DiagnosticSeverity.Error;
                relatedInfo := None |} ;;
        ret None
      else ret (Some {| data := {| trackId_value := intValue |};
                        location := location i |})
  | None => ret None
  end.

Definition colorId (eventKind fieldname : string) (int : option (WithLocation AFFInt))
  : Visitor (option (WithLocation AFFColorId)) :=
  match int with
  | Some i =>
      let intValue := int_value (data i) in
      if negb (Number_isInteger intValue) then
        throw ("value in AFFInt(" ++ Number_toString intValue ++ ") is not int")
      else if Number_lt intValue (Integer 0) || Number_gt intValue (Integer 2) then
        push {| message := should_be_one_of fieldname eventKind
                             (map Number_toString affColorIds);
                error_location := location i;
                severity := DiagnosticSeverity.Error;
                relatedInfo := None |} ;;
        ret None
      else ret (Some {| data := {| colorId_value := intValue |};
                        location := location i |})
  | None => ret None
  end.

Definition arcKind (eventKind fieldname : string) (word : option (WithLocation AFFWord))
  : Visitor (option (WithLocation AFFArcKind)) :=
  match word with
  | Some w =>
      let wordValue := word_value (data w) in
      if negb (Set_has affArcKinds wordValue) then
        push {| message := should_be_one_of fieldname eventKind affArcKinds;
                error_location := location w;
                severity := DiagnosticSeverity.Error;
                relatedInfo := None |} ;;
        ret None
      else ret (Some {| data := {| arcKind_value := wordValue |};
                        location := location w |})
  | None => ret None
  end.

Definition effect (eventKind fieldname : string) (word : option (WithLocation AFFWord))
  : Visitor (option (WithLocation AFFEffect)) :=
  match word with
  | Some w =>
      let wordValue := word_value (data w) in
      if negb (Set_has affEffects wordValue) then
        push {| message := should_be_one_of fieldname eventKind affEffects;
                error_location := location w;
                severity := DiagnosticSeverity.Error;
                relatedInfo := None |} ;;
        ret None
      else ret (Some {| data := {| effect_value := wordValue |};
                        location := location w |})
  | None => ret None
  end.

Definition bool (eventKind fieldname : string) (word : option (WithLocation AFFWord))
  : Visitor (option (WithLocation AFFBool)) :=
  match word with
  | Some w =>
      let wordValue := word_value (data w) in
      if negb (Set_has affBools wordValue) then
        push {| message := should_be_one_of fieldname eventKind affBools;
                error_location := location w;
                severity := DiagnosticSeverity.Error;
                relatedInfo := None |} ;;
        ret None
      else ret (Some {| data := {| bool_value := String.eqb wordValue "true" |};
                        location := location w |})
  | None => ret None
  end.

End parseValue.

Definition transformArcSubevents (subevents : list (WithLocation AFFEvent))
    (subeventsLocation : CstNodeLocation)
  : Visitor (WithLocation (list (WithLocation AFFArctapEvent))) :=
  arctaps <- for_of
    (fun (s : WithLocation AFFEvent) (arctaps : list (WithLocation AFFArctapEvent)) =>
       match data s with
       | Arctap event => ret (arctaps ++ [{| data := event; location := location s |}])%list
       | Item i =>
           push {| message := "Type of subevent of event with type " ++ dquote ++ "arc"
                              ++ dquote ++ " should be " ++ dquote ++ "arctap" ++ dquote
                              ++ " instead of " ++ dquote ++ kind (data s) ++ dquote;
                   error_location := location s;
                   severity := DiagnosticSeverity.Error;
                   relatedInfo := None |} ;;
           ret arctaps
       end)
    subevents [] ;;
  ret {| data := arctaps; location := subeventsLocation |}.

Module eventTransformer.

Definition tap (values : list (WithLocation AFFValue)) (valuesLocation : CstNodeLocation)
    (subevents : Subevents)
  : Visitor (option AFFTapEvent) :=
  rejectSubevent "tap" subevents ;;
  ok <- checkValuesCount "tap" 2 values valuesLocation ;;
  if negb ok then ret None else
  time <- checkValueType "tap" "time" kind_int values 0 ;;
  rawTrackId <- checkValueType "tap" "track-id" kind_int values 1 ;;
  trackId <- parseValue.trackId "tap" "track-id" rawTrackId ;;
  match time, trackId with
  | Some time, Some trackId =>
      ret (Some {| tap_time := time; tap_trackId := trackId |})
  | _, _ => ret None
  end.

Definition hold (values : list (WithLocation AFFValue)) (valuesLocation : CstNodeLocation)
    (subevents : Subevents) (tagLocation : CstNodeLocation)
  : Visitor (option AFFHoldEvent) :=
  rejectSubevent "hold" subevents ;;
  ok <- checkValuesCount "hold" 3 values valuesLocation ;;
  if negb ok then ret None else
  start <- checkValueType "hold" "start" kind_int values 0 ;;
  end_ <- checkValueType "hold" "end" kind_int values 1 ;;
  rawTrackId <- checkValueType "hold" "track-id" kind_int values 2 ;;
  trackId <- parseValue.trackId "hold" "track-id" rawTrackId ;;
  match start, end_, trackId with
  | Some start, Some end_, Some trackId =>
      ret (Some {| hold_tagLocation := tagLocation; hold_start := start;
                   hold_end := end_; hold_trackId := trackId |})
  | _, _, _ => ret None
  end.

Definition arctap (values : list (WithLocation AFFValue)) (valuesLocation : CstNodeLocation)
    (subevents : Subevents) (tagLocation : CstNodeLocation)
  : Visitor (option AFFArctapEvent) :=
  rejectSubevent "arctap" subevents ;;
  ok <- checkValuesCount "arctap" 1 values valuesLocation ;;
  if negb ok then ret None else
  time <- checkValueType "arctap" "time" kind_int values 0 ;;
  match time with
  | Some time =>
      ret (Some {| arctap_tagLocation := tagLocation; arctap_time := time |})
  | None => ret None
  end.

Definition timing (values : list (WithLocation AFFValue)) (valuesLocation : CstNodeLocation)
    (subevents : Subevents) (tagLocation : CstNodeLocation)
  : Visitor (option AFFTimingEvent) :=
  rejectSubevent "timing" subevents ;;
  ok <- checkValuesCount "timing" 3 values valuesLocation ;;
  if negb ok then ret None else
  time <- checkValueType "timing" "time" kind_int values 0 ;;
  bpm <- checkValueType "timing" "bpm" kind_float values 1 ;;
  segment <- checkValueType "timing" "segment" kind_float values 2 ;;
  match time, bpm, segment with
  | Some time, Some bpm, Some segment =>
      ret (Some {| timing_tagLocation := tagLocation; timing_time := time;
                   bpm := bpm; segment := segment |})
  | _, _, _ => ret None
  end.

Definition arc (values : list (WithLocation AFFValue)) (valuesLocation : CstNodeLocation)
    (subevents : Subevents) (tagLocation : CstNodeLocation)
  : Visitor (option AFFArcEvent) :=
  ok <- checkValuesCount "arc" 10 values valuesLocation ;;
  if negb ok then ret None else
  start <- checkValueType "arc" "start" kind_int values 0 ;;
  end_ <- checkValueType "arc" "end" kind_int values 1 ;;
  xStart <- checkValueType "arc" "x-start" kind_float values 2 ;;
  xEnd <- checkValueType "arc" "x-end" kind_float values 3 ;;
  rawArcKind <- checkValueType "arc" "arc-kind" kind_word values 4 ;;
  arcKind <- parseValue.arcKind "arc" "arc-kind" rawArcKind ;;
  yStart <- checkValueType "arc" "y-start" kind_float values 5 ;;
  yEnd <- checkValueType "arc" "y-end" kind_float values 6 ;;
  rawColorId <- checkValueType "arc" "color-id" kind_int values 7 ;;
  colorId <- parseValue.colorId "arc" "color-id" rawColorId ;;
  rawEffect <- checkValueType "arc" "effect" kind_word values 8 ;;
  effect <- parseValue.effect "arc" "effect" rawEffect ;;
  rawIsLine <- checkValueType "arc" "is-line" kind_word values 9 ;;
  isLine <- parseValue.bool "arc" "is-line" rawIsLine ;;
  match start, end_, xStart, xEnd, arcKind, yStart, yEnd, colorId, effect, isLine with
  | Some start, Some end_, Some xStart, Some xEnd, Some arcKind,
    Some yStart, Some yEnd, Some colorId, Some effect, Some isLine =>
      arctaps <- match subevents with
                 | Some s =>
                     a <- transformArcSubevents (data s) (location s) ;;
                     ret (Some a)
                 | None => ret None
                 end ;;
      ret (Some {| arc_tagLocation := tagLocation; arc_start := start; arc_end := end_;
                   xStart := xStart; xEnd := xEnd; arcKind := arcKind;
                   yStart := yStart; yEnd := yEnd; colorId := colorId;
                   effect := effect; isLine := isLine; arctaps := arctaps |})
  | _, _, _, _, _, _, _, _, _, _ => ret None
  end.

End eventTransformer.

(** ** The pass from the parse tree to the AST *)

Module ToASTVisitor.

Definition metadataEntry (ctx : MetadataEntryNode) : Visitor AFFMetadataEntry :=
  let key_ := ctx_key ctx in
  let data_ := ctx_data ctx in
  ret {| key := {| data := image key_; location := locationFromToken key_ |};
         value := {| data := image data_; location := locationFromToken data_ |} |}.

Definition metadata (ctx : MetadataNode) : Visitor AFFMetadata :=
  entries <- mapM (fun node => entry <- metadataEntry node ;; ret (node, entry))
               (ctx_metadataEntry ctx) ;;
  metadata <- for_of
    (fun (ne : MetadataEntryNode * AFFMetadataEntry)
         (metadata : Map (WithLocation AFFMetadataEntry)) =>
       let '(node, entry) := ne in
       let key_ := data (key entry) in
       if Map_has metadata key_ then
         match Map_get metadata key_ with
         | None => throw "TypeError: Cannot read properties of undefined (reading 'data')"
         | Some previous =>
             let location_ := location (key (data previous)) in
             push {| message := dquote ++ key_ ++ dquote
                                ++ " is defined twice in the metadata section.";
                     error_location := location (key entry);
                     severity := DiagnosticSeverity.Error;
                     relatedInfo := Some [{| related_message := "Previous defination";
                                             related_location := location_ |}] |} ;;
             ret metadata
         end
       else
         ret (Map_set metadata key_
                {| data := entry; location := metadataEntry_location node |}))
    entries [] ;;
  ret {| metadata_data := metadata;
         metaEndLocation := locationFromToken (ctx_metaEnd ctx) |}.

Definition values (ctx : ValuesNode) : Visitor (list (WithLocation AFFValue)) :=
  mapM (fun token =>
          data_ <- match tokenType token with
                   | tokenTypes.word => ret (VWord {| word_value := image token |})
                   | tokenTypes.int => ret (VInt {| int_value := parseInt (image token) |})
                   | tokenTypes.float =>
                       ret (VFloat {| float_value := parseFloat (image token);
                                      digit := Z.of_nat (String.length (image token))
                                               - indexOf (image token) "." - 1 |})
                   | tokenTypes.other _ => throw "unknown token type [object Object]"
                   end ;;
          ret {| data := data_; location := locationFromToken token |})
       (ctx_value ctx).

Fixpoint event (ctx : EventNode) : Visitor (option AFFEvent) :=
  match ctx with
  | mkEventNode ctx_values ctx_subevents ctx_word _ =>
      values_ <- values ctx_values ;;
      let valuesLocation := values_location ctx_values in
      subevents_ <- match ctx_subevents with
                    | Some node =>
                        s <- subevents node ;;
                        ret (Some {| data := s;
                                     location := match node with
                                                 | mkSubeventsNode _ l => l
                                                 end |})
                    | None => ret None
                    end ;;
      match ctx_word with
      | Some tag =>
          let tagLocation := locationFromToken tag in
          if String.eqb (image tag) "timing" then
            e <- eventTransformer.timing values_ valuesLocation subevents_ tagLocation ;;
            ret (option_map (fun e => Item (Timing e)) e)
          else if String.eqb (image tag) "hold" then
            e <- eventTransformer.hold values_ valuesLocation subevents_ tagLocation ;;
            ret (option_map (fun e => Item (Hold e)) e)
          else if String.eqb (image tag) "arc" then
            e <- eventTransformer.arc values_ valuesLocation subevents_ tagLocation ;;
            ret (option_map (fun e => Item (Arc e)) e)
          else if String.eqb (image tag) "arctap" then
            e <- eventTransformer.arctap values_ valuesLocation subevents_ tagLocation ;;
            ret (option_map Arctap e)
          else
            push {| message := "Unknown event type " ++ dquote ++ image tag ++ dquote ++ ".";
                    error_location := locationFromToken tag;
                    severity := DiagnosticSeverity.Error;
                    relatedInfo := None |} ;;
            ret None
      | None =>
          e <- eventTransformer.tap values_ valuesLocation subevents_ ;;
          ret (option_map (fun e => Item (Tap e)) e)
      end
  end
with subevents (ctx : SubeventsNode) : Visitor (list (WithLocation AFFEvent)) :=
  match ctx with
  | mkSubeventsNode ctx_event _ =>
      l <- mapM (fun node =>
                   e <- event node ;;
                   ret {| data := e; location := event_location node |})
             ctx_event ;;
      ret (filter_data_not_null l)
  end.

Definition item (ctx : ItemNode) : Visitor (option (WithLocation AFFItem)) :=
  let node := ctx_item_event ctx in
  event_ <- event node ;;
  match event_ with
  | Some (Arctap a) =>
      push {| message := "Event with type " ++ dquote ++ kind (Arctap a) ++ dquote
                         ++ " should not be used as an item.";
              error_location := arctap_tagLocation a;
              severity := DiagnosticSeverity.Error;
              relatedInfo := None |} ;;
      ret None
  | Some (Item i) => ret (Some {| data := i; location := event_location node |})
  | None => ret None
  end.

Definition items (ctx : ItemsNode) : Visitor (list (WithLocation AFFItem)) :=
  l <- mapM item (ctx_item ctx) ;;
  ret (filter_not_null l).

Definition aff (ctx : AffNode) : Visitor AFFFile :=
  let metadataNode := ctx_metadata ctx in
  metadata_ <- metadata metadataNode ;;
  items_ <- items (ctx_items ctx) ;;
  ret {| file_metadata := {| data := metadata_; location := metadata_location metadataNode |};
         file_items := items_ |}.

End ToASTVisitor.

(** [affToAST]: the pair [{ ast, errors }], or the exception. *)
Definition affToAST (aff : AffNode) : Completion AFFFile :=
  ToASTVisitor.aff aff [].

(** ** The checkers *)

(** [AFFChecker = (file, errors) => void] *)
Definition AFFChecker : Type := AFFFile -> Visitor unit.

Definition checkFloat (float : WithLocation AFFFloat) : Visitor unit :=
  if negb (digit (data float) =? 2) then
    push {| message := "Float values should have exact 2 digits in its fractional part.";
            error_location := location float;
            severity := DiagnosticSeverity.Warning;
            relatedInfo := None |}
  else ret tt.

Definition floatDigitChecker : AFFChecker := fun file =>
  for_of (fun (i : WithLocation AFFItem) (_ : unit) =>
            match data i with
            | Timing e =>
                checkFloat (bpm e) ;;
                checkFloat (segment e)
            | Arc e =>
                checkFloat (xStart e) ;;
                checkFloat (xEnd e) ;;
                checkFloat (yStart e) ;;
                checkFloat (yEnd e)
            | _ => ret tt
            end)
    (file_items file) tt.

(** The driver of the checkers.  Three of the four checkers are defined in
    files that are not part of this development; the driver is modelled for
    any three functions of the checker type in their place. *)
Section ProcessCheckers.

Variables metadataChecker valueRangeChecker timingChecker : AFFChecker.

Definition checkers : list AFFChecker :=
  [metadataChecker; valueRangeChecker; floatDigitChecker; timingChecker].

Definition processCheckers (file : AFFFile) : Completion unit :=
  for_of (fun (checker : AFFChecker) (_ : unit) => checker file) checkers tt [].

End ProcessCheckers.

(** * Vocabulary of the specification *)

(** ** Diagnostics, as the specification describes them *)

Definition error_at (msg : string) (l : CstNodeLocation) : AFFError :=
  {| message := msg; error_location := l;
     severity := DiagnosticSeverity.Error; relatedInfo := None |}.

(** "should not have subevents", at the location of the subevents clause. *)
Definition subevents_error (kind : string) (l : CstNodeLocation) : AFFError :=
  error_at ("Event with type " ++ dquote ++ kind ++ dquote
            ++ " should not have subevents.") l.

(** The error of a value count mismatch, which names both counts. *)
Definition count_error (kind : string) (expected actual : nat) (l : CstNodeLocation)
  : AFFError :=
  error_at ("Event with type " ++ dquote ++ kind ++ dquote ++ " should have "
            ++ length_toString expected ++ " field(s) instead of "
            ++ length_toString actual ++ " field(s).") l.

(** The error of a value parser, which names the allowed values. *)
Definition range_error (eventKind fieldname : string) (allowed : list string)
    (l : CstNodeLocation) : AFFError :=
  error_at ("The value in the " ++ dquote ++ fieldname ++ dquote
            ++ " field of event with type " ++ dquote ++ eventKind ++ dquote
            ++ " should be one of " ++ join allowed) l.

(** The error for a sub-event of an arc that is not an arctap. *)
Definition not_arctap_error (s : WithLocation AFFItem) : AFFError :=
  error_at ("Type of subevent of event with type " ++ dquote ++ "arc" ++ dquote
            ++ " should be " ++ dquote ++ "arctap" ++ dquote ++ " instead of "
            ++ dquote ++ item_kind (data s) ++ dquote) (location s).

(** The error for an arctap used as an item. *)
Definition arctap_item_error (l : CstNodeLocation) : AFFError :=
  error_at ("Event with type " ++ dquote ++ "arctap" ++ dquote
            ++ " should not be used as an item.") l.

(** The warning of the float-digit checker. *)
Definition float_digit_warning (l : CstNodeLocation) : AFFError :=
  {| message := "Float values should have exact 2 digits in its fractional part.";
     error_location := l;
     severity := DiagnosticSeverity.Warning;
     relatedInfo := None |}.

(** ** Computations that only append to the diagnostics *)

Definition prepend {A} (errors : list AFFError) (c : Completion A) : Completion A :=
  match c with
  | Normal a errors' => Normal a (errors ++ errors')%list
  | Throw reason => Throw reason
  end.

(** [m] never reads the diagnostics it is given and never removes one: run
    after [errors], it does what it does from the empty list, after [errors]. *)
Definition appends {A} (m : Visitor A) : Prop :=
  forall errors, m errors = prepend errors (m []).

(** ** The five event kinds and their fields *)

Inductive EventKind : Type := KTap | KHold | KArctap | KTiming | KArc.

Definition kind_name (k : EventKind) : string :=
  match k with
  | KTap => "tap"
  | KHold => "hold"
  | KArctap => "arctap"
  | KTiming => "timing"
  | KArc => "arc"
  end.

(** What a field of an event must hold. *)
Inductive Field : Type :=
| F_int | F_float | F_trackId | F_colorId | F_arcKind | F_effect | F_bool.

Definition fields (k : EventKind) : list Field :=
  match k with
  | KTap => [F_int; F_trackId]
  | KHold => [F_int; F_int; F_trackId]
  | KArctap => [F_int]
  | KTiming => [F_int; F_float; F_float]
  | KArc => [F_int; F_int; F_float; F_float; F_arcKind;
             F_float; F_float; F_colorId; F_effect; F_bool]
  end.

(** Tap=2, Hold=3, Arctap=1, Timing=3, Arc=10. *)
Definition value_count (k : EventKind) : nat :=
  match k with
  | KTap => 2
  | KHold => 3
  | KArctap => 1
  | KTiming => 3
  | KArc => 10
  end.

(** The field has a literal of the expected kind and, for a field with a
    declared set, a value of that set. *)
Definition field_ok (f : Field) (v : WithLocation AFFValue) : Prop :=
  match f, data v with
  | F_int, VInt _ => True
  | F_float, VFloat _ => True
  | F_trackId, VInt i => In (int_value i) affTrackIds
  | F_colorId, VInt i => In (int_value i) affColorIds
  | F_arcKind, VWord w => In (word_value w) affArcKinds
  | F_effect, VWord w => In (word_value w) affEffects
  | F_bool, VWord w => In (word_value w) affBools
  | _, _ => False
  end.

(** The transformer of each kind, with the event it builds seen as an
    [AFFEvent]; [tap] takes no tag location. *)
Definition transformer (k : EventKind) (values : list (WithLocation AFFValue))
    (valuesLocation : CstNodeLocation) (subevents : Subevents)
    (tagLocation : CstNodeLocation) : Visitor (option AFFEvent) :=
  match k with
  | KTap =>
      e <- eventTransformer.tap values valuesLocation subevents ;;
      ret (option_map (fun e => Item (Tap e)) e)
  | KHold =>
      e <- eventTransformer.hold values valuesLocation subevents tagLocation ;;
      ret (option_map (fun e => Item (Hold e)) e)
  | KArctap =>
      e <- eventTransformer.arctap values valuesLocation subevents tagLocation ;;
      ret (option_map Arctap e)
  | KTiming =>
      e <- eventTransformer.timing values valuesLocation subevents tagLocation ;;
      ret (option_map (fun e => Item (Timing e)) e)
  | KArc =>
      e <- eventTransformer.arc values valuesLocation subevents tagLocation ;;
      ret (option_map (fun e => Item (Arc e)) e)
  end.

(** The diagnostics for a subevents clause on an event that is not an arc. *)
Definition subevents_rejection (k : EventKind) (subevents : Subevents) : list AFFError :=
  match k, subevents with
  | KArc, _ => []
  | _, Some s => [subevents_error (kind_name k) (location s)]
  | _, None => []
  end.

(** ** Sub-events of an arc *)

(** The arctaps among the sub-events, in their order. *)
Fixpoint arctaps_of (subevents : list (WithLocation AFFEvent))
  : list (WithLocation AFFArctapEvent) :=
  match subevents with
  | [] => []
  | s :: rest =>
      match data s with
      | Arctap a => {| data := a; location := location s |} :: arctaps_of rest
      | Item _ => arctaps_of rest
      end
  end.

(** The other sub-events, in their order. *)
Fixpoint non_arctaps (subevents : list (WithLocation AFFEvent))
  : list (WithLocation AFFItem) :=
  match subevents with
  | [] => []
  | s :: rest =>
      match data s with
      | Arctap _ => non_arctaps rest
      | Item i => {| data := i; location := location s |} :: non_arctaps rest
      end
  end.

(** ** Values of the declared sets *)

Definition item_in_range (i : AFFItem) : Prop :=
  match i with
  | Timing _ => True
  | Tap e => In (trackId_value (data (tap_trackId e))) affTrackIds
  | Hold e => In (trackId_value (data (hold_trackId e))) affTrackIds
  | Arc e =>
      In (colorId_value (data (colorId e))) affColorIds
      /\ In (arcKind_value (data (arcKind e))) affArcKinds
      /\ In (effect_value (data (effect e))) affEffects
      /\ (bool_value (data (isLine e)) = true \/ bool_value (data (isLine e)) = false)
  end.

Definition event_in_range (e : AFFEvent) : Prop :=
  match e with
  | Item i => item_in_range i
  | Arctap _ => True
  end.

(** The located value [d] that [checkValueType] returns is the literal [v],
    seen at the kind [T]. *)
Definition holds (T : ValueKind) (d : WithLocation (AFFValues T))
    (v : WithLocation AFFValue) : Prop :=
  narrow T (data v) = Some (data d) /\ location d = location v.

(** The located track id, color id, arc kind, effect or boolean [t] reads the
    literal [v], whose value is in the declared set. *)
Definition holds_trackId (t : WithLocation AFFTrackId) (v : WithLocation AFFValue) : Prop :=
  exists i, holds kind_int i v /\ In (int_value (data i)) affTrackIds
            /\ t = {| data := {| trackId_value := int_value (data i) |};
                      location := location i |}.

Definition holds_colorId (t : WithLocation AFFColorId) (v : WithLocation AFFValue) : Prop :=
  exists i, holds kind_int i v /\ In (int_value (data i)) affColorIds
            /\ t = {| data := {| colorId_value := int_value (data i) |};
                      location := location i |}.

Definition holds_arcKind (t : WithLocation AFFArcKind) (v : WithLocation AFFValue) : Prop :=
  exists w, holds kind_word w v /\ In (word_value (data w)) affArcKinds
            /\ t = {| data := {| arcKind_value := word_value (data w) |};
                      location := location w |}.

Definition holds_effect (t : WithLocation AFFEffect) (v : WithLocation AFFValue) : Prop :=
  exists w, holds kind_word w v /\ In (word_value (data w)) affEffects
            /\ t = {| data := {| effect_value := word_value (data w) |};
                      location := location w |}.

Definition holds_bool (t : WithLocation AFFBool) (v : WithLocation AFFValue) : Prop :=
  exists w, holds kind_word w v /\ In (word_value (data w)) affBools
            /\ t = {| data := {| bool_value := String.eqb (word_value (data w)) "true" |};
                      location := location w |}.

Definition is_arctap (s : WithLocation AFFEvent) : bool :=
  match data s with
  | Arctap _ => true
  | Item _ => false
  end.

Definition arctap_as_event (a : WithLocation AFFArctapEvent) : WithLocation AFFEvent :=
  {| data := Arctap (data a); location := location a |}.

Definition item_as_event (i : WithLocation AFFItem) : WithLocation AFFEvent :=
  {| data := Item (data i); location := location i |}.

(** ** Sample inputs *)

Module Sample.

Definition loc (a b : Z) : CstNodeLocation :=
  {| startOffset := a; startLine := 1; startColumn := a + 1;
     endOffset := b; endLine := 1; endColumn := b + 1 |}.

Definition token (ty : tokenTypes.TokenType) (img : string) (a : Z) : IToken :=
  {| image := img; tokenType := ty;
     token_startOffset := a; token_startLine := 1; token_startColumn := a + 1;
     token_endOffset := a + Z.of_nat (String.length img) - 1; token_endLine := 1;
     token_endColumn := a + Z.of_nat (String.length img) |}.

Definition int (z : Z) (a : Z) : WithLocation AFFValue :=
  {| data := VInt {| int_value := Integer z |}; location := loc a a |}.

Definition float (img : string) (a : Z) : WithLocation AFFValue :=
  {| data := VFloat {| float_value := parseFloat img;
                       digit := Z.of_nat (String.length img) - indexOf img "." - 1 |};
     location := loc a a |}.

Definition word (w : string) (a : Z) : WithLocation AFFValue :=
  {| data := VWord {| word_value := w |}; location := loc a a |}.

(** The values of [(100,2)], of [hold(100,200,3)], of [arctap(150)], of
    [timing(0,120.00,4.00)] and of [arc(100,200,0.00,1.00,s,1.00,1.00,0,none,true)]. *)
Definition values (k : EventKind) : list (WithLocation AFFValue) :=
  match k with
  | KTap => [int 100 1; int 2 5]
  | KHold => [int 100 5; int 200 9; int 3 13]
  | KArctap => [int 150 7]
  | KTiming => [int 0 7; float "120.00" 9; float "4.00" 16]
  | KArc => [int 100 4; int 200 8; float "0.00" 12; float "1.00" 17; word "s" 22;
             float "1.00" 24; float "1.00" 29; int 0 34; word "none" 36; word "true" 41]
  end.

(** The arctap [arctap(150)] and a tap on track 2, as sub-events. *)
Definition arctap_event : AFFArctapEvent :=
  {| arctap_tagLocation := loc 0 5;
     arctap_time := {| data := {| int_value := Integer 150 |}; location := loc 7 9 |} |}.

Definition arctap_150 : WithLocation AFFEvent :=
  {| data := Arctap arctap_event; location := loc 0 10 |}.

Definition tap_item : WithLocation AFFItem :=
  {| data := Tap {| tap_time := {| data := {| int_value := Integer 160 |};
                                   location := loc 63 65 |};
                    tap_trackId := {| data := {| trackId_value := Integer 2 |};
                                      location := loc 67 67 |} |};
     location := loc 62 68 |}.

Definition tap_2 : WithLocation AFFEvent :=
  {| data := Item (data tap_item); location := location tap_item |}.

Definition subevents : WithLocation (list (WithLocation AFFEvent)) :=
  {| data := [tap_2; arctap_150]; location := loc 48 70 |}.

End Sample.

(** Scalars given to the value parsers. *)
Definition located_int (z : Z) (l : CstNodeLocation) : WithLocation AFFInt :=
  {| data := {| int_value := Integer z |}; location := l |}.

Definition located_word (w : string) (l : CstNodeLocation) : WithLocation AFFWord :=
  {| data := {| word_value := w |}; location := l |}.

Module SampleCst.

(** [arctap(150)] *)
Definition arctap_node : EventNode :=
  mkEventNode {| ctx_value := [Sample.token tokenTypes.int "150" 7];
                 values_location := Sample.loc 7 9 |}
    None (Some (Sample.token tokenTypes.word "arctap" 0)) (Sample.loc 0 10).

Definition arctap_item : ItemNode :=
  {| ctx_item_event := arctap_node; item_location := Sample.loc 0 11 |}.

(** [(100,2)] and [(100,7)] *)
Definition tap_node (track : string) : EventNode :=
  mkEventNode {| ctx_value := [Sample.token tokenTypes.int "100" 1;
                               Sample.token tokenTypes.int track 5];
                 values_location := Sample.loc 1 5 |}
    None None (Sample.loc 0 6).

(** [timing(0,120.5,4.00)] *)
Definition timing_node : EventNode :=
  mkEventNode {| ctx_value := [Sample.token tokenTypes.int "0" 7;
                               Sample.token tokenTypes.float "120.5" 9;
                               Sample.token tokenTypes.float "4.00" 15];
                 values_location := Sample.loc 7 18 |}
    None (Some (Sample.token tokenTypes.word "timing" 0)) (Sample.loc 0 19).

Definition entry (k v : string) (a : Z) : MetadataEntryNode :=
  {| ctx_key := Sample.token tokenTypes.word k a;
     ctx_data := Sample.token tokenTypes.word v (a + 20);
     metadataEntry_location := Sample.loc a (a + 39) |}.

(** A metadata section with three definitions of [AudioOffset]. *)
Definition metadata_node : MetadataNode :=
  {| ctx_metadataEntry := [entry "AudioOffset" "0" 0; entry "AudioOffset" "10" 40;
                           entry "AudioOffset" "20" 80];
     ctx_metaEnd := Sample.token tokenTypes.word "-" 120;
     metadata_location := Sample.loc 0 120 |}.

(** A literal of 310 digits, beyond the largest double. *)
Definition overlong : string :=
  String "1" (string_of_list_ascii (repeat "0"%char 309)).

(** [(100,1000...0)], with the overlong literal as track. *)
Definition overlong_item : ItemNode :=
  {| ctx_item_event := tap_node overlong; item_location := Sample.loc 0 316 |}.

Definition aff_node : AffNode :=
  {| ctx_metadata := metadata_node;
     ctx_items := {| ctx_item := [ {| ctx_item_event := timing_node;
                                      item_location := Sample.loc 0 20 |};
                                   {| ctx_item_event := tap_node "2";
                                      item_location := Sample.loc 0 7 |};
                                   arctap_item;
                                   {| ctx_item_event := tap_node "7";
                                      item_location := Sample.loc 0 7 |} ];
                     items_location := Sample.loc 0 60 |};
     aff_location := Sample.loc 0 180 |}.

End SampleCst.

(** ** Metadata sections *)

(** The key of an entry of the parse tree, and the entry of the AST that
    [metadataEntry] builds from it. *)
Definition key_of (node : MetadataEntryNode) : string := image (ctx_key node).

Definition entry_of (node : MetadataEntryNode) : AFFMetadataEntry :=
  {| key := {| data := image (ctx_key node); location := locationFromToken (ctx_key node) |};
     value := {| data := image (ctx_data node);
                 location := locationFromToken (ctx_data node) |} |}.

Definition located_entry (node : MetadataEntryNode) : WithLocation AFFMetadataEntry :=
  {| data := entry_of node; location := metadataEntry_location node |}.

Definition has_key (k : string) (node : MetadataEntryNode) : bool :=
  String.eqb (key_of node) k.

(** The first entry with key [k] among [nodes], which are in source order. *)
Definition first_occurrence (nodes : list MetadataEntryNode) (k : string)
  : option MetadataEntryNode :=
  find (has_key k) nodes.

(** The last entry with key [k] among [nodes]. *)
Definition last_occurrence (nodes : list MetadataEntryNode) (k : string)
  : option MetadataEntryNode :=
  find (has_key k) (rev nodes).

(** The error on entry [node], a duplicate, that cites entry [previous]. *)
Definition duplicate_key_error (node previous : MetadataEntryNode) : AFFError :=
  {| message := dquote ++ key_of node ++ dquote
                ++ " is defined twice in the metadata section.";
     error_location := locationFromToken (ctx_key node);
     severity := DiagnosticSeverity.Error;
     relatedInfo := Some [{| related_message := "Previous defination";
                             related_location := locationFromToken (ctx_key previous) |}] |}.

(** One error for each entry of [rest] whose key is the key of an entry before
    it, in source order; [seen] are the entries before [rest], and [cited]
    chooses, among the entries before a duplicate, the one its error cites. *)
Fixpoint duplicate_errors
    (cited : list MetadataEntryNode -> string -> option MetadataEntryNode)
    (seen rest : list MetadataEntryNode) : list AFFError :=
  match rest with
  | [] => []
  | node :: rest' =>
      match cited seen (key_of node) with
      | Some previous => [duplicate_key_error node previous]
      | None => []
      end ++ duplicate_errors cited (seen ++ [node]) rest'
  end%list.

(** The errors of the section when each cites the first occurrence of the
    key. *)
Definition errors_citing_first (nodes : list MetadataEntryNode) : list AFFError :=
  duplicate_errors first_occurrence [] nodes.

(** The errors of the section when each cites the occurrence of the key just
    before the duplicate. *)
Definition errors_citing_preceding (nodes : list MetadataEntryNode) : list AFFError :=
  duplicate_errors last_occurrence [] nodes.

(** The number of entries of [nodes] with key [k]. *)
Definition occurrences (nodes : list MetadataEntryNode) (k : string) : nat :=
  List.length (filter (has_key k) nodes).

(** What the loop of [metadata] keeps after the entries [seen]: the map [m]
    holds, for each key, its first entry, and holds no key twice. *)
Definition metadata_invariant (seen : list MetadataEntryNode)
    (m : Map (WithLocation AFFMetadataEntry)) : Prop :=
  (forall k, Map_get m k = option_map located_entry (first_occurrence seen k))
  /\ NoDup (map fst m).

(** The error [err] is on the entry at some index [i] of [nodes] and cites the
    entry at index [j], which is the first entry of [nodes] with that key and
    comes before [i]. *)
Definition cites_first_occurrence (nodes : list MetadataEntryNode) (err : AFFError) : Prop :=
  exists i j node first,
    (j < i)%nat
    /\ nth_error nodes i = Some node
    /\ nth_error nodes j = Some first
    /\ key_of first = key_of node
    /\ (forall j' n', (j' < j)%nat -> nth_error nodes j' = Some n' -> key_of n' <> key_of node)
    /\ error_location err = locationFromToken (ctx_key node)
    /\ severity err = DiagnosticSeverity.Error
    /\ relatedInfo err = Some [{| related_message := "Previous defination";
                                  related_location := locationFromToken (ctx_key first) |}].

(** ** Float literals *)

(** The fractional-digit count of a literal: the length of its text, minus the
    index of its decimal point, minus one. *)
Definition fraction_digits (text : string) : Z :=
  Z.of_nat (String.length text) - indexOf text "." - 1.

(** The float fields of an item that the float-digit checker looks at. *)
Definition float_fields (i : AFFItem) : list (WithLocation AFFFloat) :=
  match i with
  | Timing e => [bpm e; segment e]
  | Arc e => [xStart e; xEnd e; yStart e; yEnd e]
  | _ => []
  end.

(** One warning if the count is not 2, none otherwise. *)
Definition float_warnings (f : WithLocation AFFFloat) : list AFFError :=
  if digit (data f) =? 2 then [] else [float_digit_warning (location f)].

Definition event_values (node : EventNode) : ValuesNode :=
  match node with mkEventNode v _ _ _ => v end.

(** The counts recorded in the float fields of [item] are those of the
    literals at the positions of these fields among [tokens]. *)
Definition digits_recorded (tokens : list IToken) (item : AFFItem) : Prop :=
  match item with
  | Timing e =>
      exists t0 t1 t2,
        tokens = [t0; t1; t2]
        /\ digit (data (bpm e)) = fraction_digits (image t1)
        /\ digit (data (segment e)) = fraction_digits (image t2)
  | Arc e =>
      exists t0 t1 t2 t3 t4 t5 t6 t7 t8 t9,
        tokens = [t0; t1; t2; t3; t4; t5; t6; t7; t8; t9]
        /\ digit (data (xStart e)) = fraction_digits (image t2)
        /\ digit (data (xEnd e)) = fraction_digits (image t3)
        /\ digit (data (yStart e)) = fraction_digits (image t5)
        /\ digit (data (yEnd e)) = fraction_digits (image t6)
  | _ => True
  end.

(** The value that [values] builds from a token. *)
Definition value_of_token (token : IToken) (v : WithLocation AFFValue) : Prop :=
  location v = locationFromToken token
  /\ match tokenType token with
     | tokenTypes.word => data v = VWord {| word_value := image token |}
     | tokenTypes.int => data v = VInt {| int_value := parseInt (image token) |}
     | tokenTypes.float =>
         data v = VFloat {| float_value := parseFloat (image token);
                            digit := fraction_digits (image token) |}
     | tokenTypes.other _ => False
     end.

(** ** Checkers run one after the other *)

(** A checker for the sample runs: one Error at the end of the metadata when
    the file has no item. *)
Definition sample_checker : AFFChecker := fun file =>
  match file_items file with
  | [] => push (error_at "The file has no item." (metaEndLocation (data (file_metadata file))))
  | _ :: _ => ret tt
  end.

(** * Further vocabulary: the diagnostics of a transformer, field by field *)

(** The error of [checkValueType] on literal [v], expected of kind [T]. *)
Definition type_error (eventKind fieldname : string) (T : ValueKind)
    (v : WithLocation AFFValue) : AFFError :=
  error_at ("The value in the " ++ dquote ++ fieldname ++ dquote
            ++ " field of event with type " ++ dquote ++ eventKind ++ dquote
            ++ " should be " ++ dquote ++ ValueKind_toString T ++ dquote
            ++ " instead of " ++ dquote ++ ValueKind_toString (value_kind (data v))
            ++ dquote) (location v).

(** The literal [v] seen at kind [T], when it is of that kind. *)
Definition located (T : ValueKind) (v : WithLocation AFFValue)
  : option (WithLocation (AFFValues T)) :=
  option_map (fun d => {| data := d; location := location v |}) (narrow T (data v)).

Definition type_diagnostics (eventKind fieldname : string) (T : ValueKind)
    (v : WithLocation AFFValue) : list AFFError :=
  match narrow T (data v) with
  | Some _ => []
  | None => [type_error eventKind fieldname T v]
  end.

Definition number_eqb (a b : number) : bool :=
  match a, b with
  | Integer x, Integer y => x =? y
  | NaN, NaN | Infinity, Infinity | NegInfinity, NegInfinity => true
  | _, _ => false
  end.

(** The value and the diagnostics of each value parser, by membership in the
    declared set. *)
Definition trackId_of (r : option (WithLocation AFFInt)) : option (WithLocation AFFTrackId) :=
  match r with
  | Some i =>
      if existsb (number_eqb (int_value (data i))) affTrackIds
      then Some {| data := {| trackId_value := int_value (data i) |}; location := location i |}
      else None
  | None => None
  end.

Definition colorId_of (r : option (WithLocation AFFInt)) : option (WithLocation AFFColorId) :=
  match r with
  | Some i =>
      if existsb (number_eqb (int_value (data i))) affColorIds
      then Some {| data := {| colorId_value := int_value (data i) |}; location := location i |}
      else None
  | None => None
  end.

Definition arcKind_of (r : option (WithLocation AFFWord)) : option (WithLocation AFFArcKind) :=
  match r with
  | Some w =>
      if Set_has affArcKinds (word_value (data w))
      then Some {| data := {| arcKind_value := word_value (data w) |}; location := location w |}
      else None
  | None => None
  end.

Definition effect_of (r : option (WithLocation AFFWord)) : option (WithLocation AFFEffect) :=
  match r with
  | Some w =>
      if Set_has affEffects (word_value (data w))
      then Some {| data := {| effect_value := word_value (data w) |}; location := location w |}
      else None
  | None => None
  end.

Definition bool_of (r : option (WithLocation AFFWord)) : option (WithLocation AFFBool) :=
  match r with
  | Some w =>
      if Set_has affBools (word_value (data w))
      then Some {| data := {| bool_value := String.eqb (word_value (data w)) "true" |};
                   location := location w |}
      else None
  | None => None
  end.

(** The diagnostics of a value parser on [r]: none on no value, none on a
    value of the set, one range error otherwise. *)
Definition int_range_diagnostics (eventKind fieldname : string) (set : list number)
    (r : option (WithLocation AFFInt)) : list AFFError :=
  match r with
  | Some i =>
      if existsb (number_eqb (int_value (data i))) set then []
      else [range_error eventKind fieldname (map Number_toString set) (location i)]
  | None => []
  end.

Definition word_range_diagnostics (eventKind fieldname : string) (set : list string)
    (r : option (WithLocation AFFWord)) : list AFFError :=
  match r with
  | Some w =>
      if Set_has set (word_value (data w)) then []
      else [range_error eventKind fieldname set (location w)]
  | None => []
  end.

Definition field_kind (f : Field) : ValueKind :=
  match f with
  | F_int | F_trackId | F_colorId => kind_int
  | F_float => kind_float
  | F_arcKind | F_effect | F_bool => kind_word
  end.

(** The diagnostics of one field: those of the type check, then those of the
    value parser if the field has one. *)
Definition field_diagnostics (eventKind fieldname : string) (f : Field)
    (v : WithLocation AFFValue) : list AFFError :=
  (type_diagnostics eventKind fieldname (field_kind f) v
   ++ match f with
      | F_int | F_float => []
      | F_trackId => int_range_diagnostics eventKind fieldname affTrackIds (located kind_int v)
      | F_colorId => int_range_diagnostics eventKind fieldname affColorIds (located kind_int v)
      | F_arcKind => word_range_diagnostics eventKind fieldname affArcKinds (located kind_word v)
      | F_effect => word_range_diagnostics eventKind fieldname affEffects (located kind_word v)
      | F_bool => word_range_diagnostics eventKind fieldname affBools (located kind_word v)
      end)%list.

(** The names of the fields in the messages. *)
Definition field_names (k : EventKind) : list string :=
  match k with
  | KTap => ["time"; "track-id"]
  | KHold => ["start"; "end"; "track-id"]
  | KArctap => ["time"]
  | KTiming => ["time"; "bpm"; "segment"]
  | KArc => ["start"; "end"; "x-start"; "x-end"; "arc-kind";
             "y-start"; "y-end"; "color-id"; "effect"; "is-line"]
  end.

(** The diagnostics of the fields, in the order of the fields. *)
Fixpoint fields_diagnostics (eventKind : string) (names : list string) (fs : list Field)
    (vs : list (WithLocation AFFValue)) : list AFFError :=
  match names, fs, vs with
  | n :: names', f :: fs', v :: vs' =>
      (field_diagnostics eventKind n f v ++ fields_diagnostics eventKind names' fs' vs')%list
  | _, _, _ => []
  end.

(** The integer given to [trackId] or [colorId] is an integer. *)
Definition integral (f : Field) (v : WithLocation AFFValue) : Prop :=
  match f, data v with
  | F_trackId, VInt i | F_colorId, VInt i => Number_isInteger (int_value i) = true
  | _, _ => True
  end.

(** The diagnostics on the kinds of the sub-events of an arc, which are
    checked when the arc is built only. *)
Definition arc_tail {A} (built : option A) (subevents : Subevents) : list AFFError :=
  match built, subevents with
  | Some _, Some s => map not_arctap_error (non_arctaps (data s))
  | _, _ => []
  end.

Definition arc_subevents_diagnostics (k : EventKind) (subevents : Subevents)
    (r : option AFFEvent) : list AFFError :=
  match k with
  | KArc => arc_tail r subevents
  | _ => []
  end.

(** The set that the error of a field lists. *)
Definition allowed (f : Field) : list string :=
  match f with
  | F_int | F_float => []
  | F_trackId => map Number_toString affTrackIds
  | F_colorId => map Number_toString affColorIds
  | F_arcKind => affArcKinds
  | F_effect => affEffects
  | F_bool => affBools
  end.

(** The three cases of a field: valid, of the wrong kind, of the right kind
    but outside the set. *)
Definition field_case (eventKind fieldname : string) (f : Field)
    (v : WithLocation AFFValue) : Prop :=
  (field_ok f v /\ field_diagnostics eventKind fieldname f v = [])
  \/ (value_kind (data v) <> field_kind f
      /\ field_diagnostics eventKind fieldname f v
         = [type_error eventKind fieldname (field_kind f) v])
  \/ (value_kind (data v) = field_kind f /\ ~ field_ok f v
      /\ field_diagnostics eventKind fieldname f v
         = [range_error eventKind fieldname (allowed f) (location v)]).

(** Values for the sample runs: a tap whose time is a float and whose track is
    9, and an arc whose kind is not a word and whose color is 5. *)
Definition bad_tap_values : list (WithLocation AFFValue) :=
  [Sample.float "1.50" 1; Sample.int 9 6].

Definition bad_arc_values : list (WithLocation AFFValue) :=
  [Sample.int 100 4; Sample.int 200 8; Sample.float "0.00" 12; Sample.float "1.00" 17;
   Sample.int 3 22; Sample.float "1.00" 24; Sample.float "1.00" 29; Sample.int 5 34;
   Sample.word "none" 36; Sample.word "true" 41].

(** ** What the lexer is assumed to guarantee *)

(** The token is a word, an integer or a float, and the text of an integer
    is read by [parseInt] as an integer. *)
Definition token_lexed (token : IToken) : Prop :=
  match tokenType token with
  | tokenTypes.word | tokenTypes.float => True
  | tokenTypes.int => Number_isInteger (parseInt (image token)) = true
  | tokenTypes.other _ => False
  end.

Definition token_unknown (token : IToken) : Prop :=
  exists name, tokenType token = tokenTypes.other name.

(** The value tokens of an event node and of the event nodes under it. *)
Fixpoint event_tokens (node : EventNode) : list IToken :=
  match node with
  | mkEventNode v sub _ _ =>
      (ctx_value v
       ++ match sub with
          | Some (mkSubeventsNode events _) => flat_map event_tokens events
          | None => []
          end)%list
  end.

Definition aff_tokens (aff : AffNode) : list IToken :=
  flat_map (fun i => event_tokens (ctx_item_event i)) (ctx_item (ctx_items aff)).

(** An integer literal holds an integer. *)
Definition int_integral (v : WithLocation AFFValue) : Prop :=
  match data v with
  | VInt i => Number_isInteger (int_value i) = true
  | _ => True
  end.

(** An event node with an unknown token under an arc: [arc(...)[arctap(?)]]. *)
Definition unknown_token_node : EventNode :=
  mkEventNode {| ctx_value := [Sample.token tokenTypes.int "1" 4];
                 values_location := Sample.loc 4 4 |}
    (Some (mkSubeventsNode
             [mkEventNode {| ctx_value := [Sample.token (tokenTypes.other "lparen") "(" 14];
                             values_location := Sample.loc 14 14 |}
                None (Some (Sample.token tokenTypes.word "arctap" 7)) (Sample.loc 7 15)]
             (Sample.loc 6 16)))
    (Some (Sample.token tokenTypes.word "arc" 0)) (Sample.loc 0 16).

Definition unknown_token_aff : AffNode :=
  {| ctx_metadata := SampleCst.metadata_node;
     ctx_items := {| ctx_item := [ {| ctx_item_event := SampleCst.tap_node "7";
                                      item_location := Sample.loc 0 7 |};
                                   {| ctx_item_event := unknown_token_node;
                                      item_location := Sample.loc 0 17 |} ];
                     items_location := Sample.loc 0 60 |};
     aff_location := Sample.loc 0 180 |}.

(** ** Order *)

(** [kept] is [l] with some elements left out, the others in their order. *)
Inductive Subsequence {A : Type} : list A -> list A -> Prop :=
| Subsequence_nil : Subsequence [] []
| Subsequence_keep a kept l : Subsequence kept l -> Subsequence (a :: kept) (a :: l)
| Subsequence_drop a kept l : Subsequence kept l -> Subsequence kept (a :: l).

(** ** The entries that a metadata section keeps *)

(** The entries of [rest] whose key is the key of no entry before them;
    [seen] are the entries before [rest]. *)
Fixpoint first_entries (seen rest : list MetadataEntryNode) : list MetadataEntryNode :=
  match rest with
  | [] => []
  | node :: rest' =>
      match first_occurrence seen (key_of node) with
      | Some _ => []
      | None => [node]
      end ++ first_entries (seen ++ [node]) rest'
  end%list.

(** The entry of the map for an entry of the section. *)
Definition map_entry (node : MetadataEntryNode) : string * WithLocation AFFMetadataEntry :=
  (key_of node, located_entry node).

(** A section with two keys, each once. *)
Definition clean_metadata_node : MetadataNode :=
  {| ctx_metadataEntry := [SampleCst.entry "AudioOffset" "0" 0;
                           SampleCst.entry "TimingPointDensityFactor" "1" 40];
     ctx_metaEnd := Sample.token tokenTypes.word "-" 80;
     metadata_location := Sample.loc 0 80 |}.

(** ** Tags *)

(** The location of the tag of an event; a tap has none. *)
Definition event_tagLocation (e : AFFEvent) : option CstNodeLocation :=
  match e with
  | Item (Timing t) => Some (timing_tagLocation t)
  | Item (Tap _) => None
  | Item (Hold h) => Some (hold_tagLocation h)
  | Item (Arc a) => Some (arc_tagLocation a)
  | Arctap a => Some (arctap_tagLocation a)
  end.

Definition unknown_tag_error (tag : IToken) : AFFError :=
  error_at ("Unknown event type " ++ dquote ++ image tag ++ dquote ++ ".")
    (locationFromToken tag).

(** [tap(100,2)]: a tap written with a tag. *)
Definition tagged_tap_node : EventNode :=
  mkEventNode {| ctx_value := [Sample.token tokenTypes.int "100" 4;
                               Sample.token tokenTypes.int "2" 8];
                 values_location := Sample.loc 4 8 |}
    None (Some (Sample.token tokenTypes.word "tap" 0)) (Sample.loc 0 9).

(** ** Severities *)

(** Every diagnostic that [m] adds satisfies [P]. *)
Definition emits (P : AFFError -> Prop) {A} (m : Visitor A) : Prop :=
  forall errors r errors',
    m errors = Normal r errors' -> Forall P errors -> Forall P errors'.

Definition is_Error (e : AFFError) : Prop := severity e = DiagnosticSeverity.Error.

Definition is_Warning (e : AFFError) : Prop := severity e = DiagnosticSeverity.Warning.

(** Sub-event nodes for the sample runs: [arctap(150)], then a tap with a
    missing value, then [arctap(150)] again. *)
Definition sample_subevents_node : SubeventsNode :=
  mkSubeventsNode
    [SampleCst.arctap_node;
     mkEventNode {| ctx_value := [Sample.token tokenTypes.int "100" 21];
                    values_location := Sample.loc 21 23 |}
       None None (Sample.loc 20 24);
     SampleCst.arctap_node]
    (Sample.loc 10 40).

(** * Runs that share the state of the modules

    [affToAST] and [processCheckers] are functions of modules that are loaded
    once: what a run leaves in the objects of these modules is what the next
    run finds.  The passes are embedded here a second time with these objects
    as an explicit store, which every step receives and hands on, so that what
    two runs in a row return can be compared. *)

Module Shared.

(** The objects that outlive a run of the pass: the five sets exported by the
    module of the types.  Their bindings are constant, the sets are not: [add],
    [delete] and [clear] are open to every module that imports them.  A set is
    the list of its members in insertion order.  The instance [toASTVisitor]
    outlives a run as well; its class declares no field and none of its
    methods assigns to [this], the array [errors] being an argument of every
    method, so that the instance has no component here.  The functions bound
    at module level are the code itself. *)
Record Store : Type := {
  affTrackIds : list number;
  affColorIds : list number;
  affEffects : list string;
  affArcKinds : list string;
  affBools : list string
}.

(** A function of the pass, applied to all its arguments but [errors]: from
    the store and the diagnostics pushed so far, the completion and the store
    it leaves, also when it throws. *)
Definition Run (A : Type) : Type := Store -> list AFFError -> Completion A * Store.

Definition ret {A} (a : A) : Run A := fun store errors => (Normal a errors, store).

Definition bind {A B} (m : Run A) (k : A -> Run B) : Run B :=
  fun store errors =>
    match m store errors with
    | (Normal a errors', store') => k a store' errors'
    | (Throw reason, store') => (Throw reason, store')
    end.

(** A function that names no object of the store. *)
Definition lift {A} (m : Visitor A) : Run A := fun store errors => (m errors, store).

(** A method of a set that returns without assigning: [has], [values]. *)
Definition read {A} (f : Store -> A) : Run A :=
  fun store errors => (Normal (f store) errors, store).

Declare Scope run_scope.
Delimit Scope run_scope with run.
Notation "x <- m ;; k" := (bind m (fun x => k))
  (at level 61, m at next level, right associativity) : run_scope.
Notation "m ;; k" := (bind m (fun _ => k))
  (at level 61, right associativity) : run_scope.
Local Open Scope run_scope.

Definition mapM {A B} (f : A -> Run B) : list A -> Run (list B) :=
  fix go (l : list A) : Run (list B) :=
    match l with
    | [] => ret []
    | a :: rest => b <- f a ;; bs <- go rest ;; ret (b :: bs)
    end.

Module parseValue.

Definition trackId (eventKind fieldname : string) (int : option (WithLocation AFFInt))
  : Run (option (WithLocation AFFTrackId)) :=
  match int with
  | Some i =>
      let intValue := int_value (data i) in
      if negb (Number_isInteger intValue) then
        lift (throw ("value in AFFInt(" ++ Number_toString intValue ++ ") is not int"))
      else if Number_lt intValue (Integer 1) || Number_gt intValue (Integer 4) then
        members <- read affTrackIds ;;
        lift (push {| message := should_be_one_of fieldname eventKind
                                   (map Number_toString members);
                      error_location := location i;
                      severity := DiagnosticSeverity.Error;
                      relatedInfo := None |}) ;;
        ret None
      else ret (Some {| data := {| trackId_value := intValue |};
                        location := location i |})
  | None => ret None
  end.

Definition colorId (eventKind fieldname : string) (int : option (WithLocation AFFInt))
  : Run (option (WithLocation AFFColorId)) :=
  match int with
  | Some i =>
      let intValue := int_value (data i) in
      if negb (Number_isInteger intValue) then
        lift (throw ("value in AFFInt(" ++ Number_toString intValue ++ ") is not int"))
      else if Number_lt intValue (Integer 0) || Number_gt intValue (Integer 2) then
        members <- read affColorIds ;;
        lift (push {| message := should_be_one_of fieldname eventKind
                                   (map Number_toString members);
                      error_location := location i;
                      severity := DiagnosticSeverity.Error;
                      relatedInfo := None |}) ;;
        ret None
      else ret (Some {| data := {| colorId_value := intValue |};
                        location := location i |})
  | None => ret None
  end.

Definition arcKind (eventKind fieldname : string) (word : option (WithLocation AFFWord))
  : Run (option (WithLocation AFFArcKind)) :=
  match word with
  | Some w =>
      let wordValue := word_value (data w) in
      has <- read (fun store => Set_has (affArcKinds store) wordValue) ;;
      if negb has then
        members <- read affArcKinds ;;
        lift (push {| message := should_be_one_of fieldname eventKind members;
                      error_location := location w;
                      severity := DiagnosticSeverity.Error;
                      relatedInfo := None |}) ;;
        ret None
      else ret (Some {| data := {| arcKind_value := wordValue |};
                        location := location w |})
  | None => ret None
  end.

Definition effect (eventKind fieldname : string) (word : option (WithLocation AFFWord))
  : Run (option (WithLocation AFFEffect)) :=
  match word with
  | Some w =>
      let wordValue := word_value (data w) in
      has <- read (fun store => Set_has (affEffects store) wordValue) ;;
      if negb has then
        members <- read affEffects ;;
        lift (push {| message := should_be_one_of fieldname eventKind members;
                      error_location := location w;
                      severity := DiagnosticSeverity.Error;
                      relatedInfo := None |}) ;;
        ret None
      else ret (Some {| data := {| effect_value := wordValue |};
                        location := location w |})
  | None => ret None
  end.

Definition bool (eventKind fieldname : string) (word : option (WithLocation AFFWord))
  : Run (option (WithLocation AFFBool)) :=
  match word with
  | Some w =>
      let wordValue := word_value (data w) in
      has <- read (fun store => Set_has (affBools store) wordValue) ;;
      if negb has then
        members <- read affBools ;;
        lift (push {| message := should_be_one_of fieldname eventKind members;
                      error_location := location w;
                      severity := DiagnosticSeverity.Error;
                      relatedInfo := None |}) ;;
        ret None
      else ret (Some {| data := {| bool_value := String.eqb wordValue "true" |};
                        location := location w |})
  | None => ret None
  end.

End parseValue.

Module eventTransformer.

Definition tap (values : list (WithLocation AFFValue)) (valuesLocation : CstNodeLocation)
    (subevents : Subevents)
  : Run (option AFFTapEvent) :=
  lift (rejectSubevent "tap" subevents) ;;
  ok <- lift (checkValuesCount "tap" 2 values valuesLocation) ;;
  if negb ok then ret None else
  time <- lift (checkValueType "tap" "time" kind_int values 0) ;;
  rawTrackId <- lift (checkValueType "tap" "track-id" kind_int values 1) ;;
  trackId <- parseValue.trackId "tap" "track-id" rawTrackId ;;
  match time, trackId with
  | Some time, Some trackId =>
      ret (Some {| tap_time := time; tap_trackId := trackId |})
  | _, _ => ret None
  end.

Definition hold (values : list (WithLocation AFFValue)) (valuesLocation : CstNodeLocation)
    (subevents : Subevents) (tagLocation : CstNodeLocation)
  : Run (option AFFHoldEvent) :=
  lift (rejectSubevent "hold" subevents) ;;
  ok <- lift (checkValuesCount "hold" 3 values valuesLocation) ;;
  if negb ok then ret None else
  start <- lift (checkValueType "hold" "start" kind_int values 0) ;;
  end_ <- lift (checkValueType "hold" "end" kind_int values 1) ;;
  rawTrackId <- lift (checkValueType "hold" "track-id" kind_int values 2) ;;
  trackId <- parseValue.trackId "hold" "track-id" rawTrackId ;;
  match start, end_, trackId with
  | Some start, Some end_, Some trackId =>
      ret (Some {| hold_tagLocation := tagLocation; hold_start := start;
                   hold_end := end_; hold_trackId := trackId |})
  | _, _, _ => ret None
  end.

Definition arctap (values : list (WithLocation AFFValue)) (valuesLocation : CstNodeLocation)
    (subevents : Subevents) (tagLocation : CstNodeLocation)
  : Run (option AFFArctapEvent) :=
  lift (rejectSubevent "arctap" subevents) ;;
  ok <- lift (checkValuesCount "arctap" 1 values valuesLocation) ;;
  if negb ok then ret None else
  time <- lift (checkValueType "arctap" "time" kind_int values 0) ;;
  match time with
  | Some time =>
      ret (Some {| arctap_tagLocation := tagLocation; arctap_time := time |})
  | None => ret None
  end.

Definition timing (values : list (WithLocation AFFValue)) (valuesLocation : CstNodeLocation)
    (subevents : Subevents) (tagLocation : CstNodeLocation)
  : Run (option AFFTimingEvent) :=
  lift (rejectSubevent "timing" subevents) ;;
  ok <- lift (checkValuesCount "timing" 3 values valuesLocation) ;;
  if negb ok then ret None else
  time <- lift (checkValueType "timing" "time" kind_int values 0) ;;
  bpm <- lift (checkValueType "timing" "bpm" kind_float values 1) ;;
  segment <- lift (checkValueType "timing" "segment" kind_float values 2) ;;
  match time, bpm, segment with
  | Some time, Some bpm, Some segment =>
      ret (Some {| timing_tagLocation := tagLocation; timing_time := time;
                   bpm := bpm; segment := segment |})
  | _, _, _ => ret None
  end.

Definition arc (values : list (WithLocation AFFValue)) (valuesLocation : CstNodeLocation)
    (subevents : Subevents) (tagLocation : CstNodeLocation)
  : Run (option AFFArcEvent) :=
  ok <- lift (checkValuesCount "arc" 10 values valuesLocation) ;;
  if negb ok then ret None else
  start <- lift (checkValueType "arc" "start" kind_int values 0) ;;
  end_ <- lift (checkValueType "arc" "end" kind_int values 1) ;;
  xStart <- lift (checkValueType "arc" "x-start" kind_float values 2) ;;
  xEnd <- lift (checkValueType "arc" "x-end" kind_float values 3) ;;
  rawArcKind <- lift (checkValueType "arc" "arc-kind" kind_word values 4) ;;
  arcKind <- parseValue.arcKind "arc" "arc-kind" rawArcKind ;;
  yStart <- lift (checkValueType "arc" "y-start" kind_float values 5) ;;
  yEnd <- lift (checkValueType "arc" "y-end" kind_float values 6) ;;
  rawColorId <- lift (checkValueType "arc" "color-id" kind_int values 7) ;;
  colorId <- parseValue.colorId "arc" "color-id" rawColorId ;;
  rawEffect <- lift (checkValueType "arc" "effect" kind_word values 8) ;;
  effect <- parseValue.effect "arc" "effect" rawEffect ;;
  rawIsLine <- lift (checkValueType "arc" "is-line" kind_word values 9) ;;
  isLine <- parseValue.bool "arc" "is-line" rawIsLine ;;
  match start, end_, xStart, xEnd, arcKind, yStart, yEnd, colorId, effect, isLine with
  | Some start, Some end_, Some xStart, Some xEnd, Some arcKind,
    Some yStart, Some yEnd, Some colorId, Some effect, Some isLine =>
      arctaps <- match subevents with
                 | Some s =>
                     a <- lift (transformArcSubevents (data s) (location s)) ;;
                     ret (Some a)
                 | None => ret None
                 end ;;
      ret (Some {| arc_tagLocation := tagLocation; arc_start := start; arc_end := end_;
                   xStart := xStart; xEnd := xEnd; arcKind := arcKind;
                   yStart := yStart; yEnd := yEnd; colorId := colorId;
                   effect := effect; isLine := isLine; arctaps := arctaps |})
  | _, _, _, _, _, _, _, _, _, _ => ret None
  end.

End eventTransformer.

(** The methods [metadata] and [values] of the visitor name no object of the
    store. *)
Definition visit_metadata (ctx : MetadataNode) : Run AFFMetadata :=
  lift (ToASTVisitor.metadata ctx).

Definition visit_values (ctx : ValuesNode) : Run (list (WithLocation AFFValue)) :=
  lift (ToASTVisitor.values ctx).

Module ToASTVisitor.

Fixpoint event (ctx : EventNode) : Run (option AFFEvent) :=
  match ctx with
  | mkEventNode ctx_values ctx_subevents ctx_word _ =>
      values_ <- visit_values ctx_values ;;
      let valuesLocation := values_location ctx_values in
      subevents_ <- match ctx_subevents with
                    | Some node =>
                        s <- subevents node ;;
                        ret (Some {| data := s;
                                     location := match node with
                                                 | mkSubeventsNode _ l => l
                                                 end |})
                    | None => ret None
                    end ;;
      match ctx_word with
      | Some tag =>
          let tagLocation := locationFromToken tag in
          if String.eqb (image tag) "timing" then
            e <- eventTransformer.timing values_ valuesLocation subevents_ tagLocation ;;
            ret (option_map (fun e => Item (Timing e)) e)
          else if String.eqb (image tag) "hold" then
            e <- eventTransformer.hold values_ valuesLocation subevents_ tagLocation ;;
            ret (option_map (fun e => Item (Hold e)) e)
          else if String.eqb (image tag) "arc" then
            e <- eventTransformer.arc values_ valuesLocation subevents_ tagLocation ;;
            ret (option_map (fun e => Item (Arc e)) e)
          else if String.eqb (image tag) "arctap" then
            e <- eventTransformer.arctap values_ valuesLocation subevents_ tagLocation ;;
            ret (option_map Arctap e)
          else
            lift (push {| message := "Unknown event type " ++ dquote ++ image tag
                                     ++ dquote ++ ".";
                          error_location := locationFromToken tag;
                          severity := DiagnosticSeverity.Error;
                          relatedInfo := None |}) ;;
            ret None
      | None =>
          e <- eventTransformer.tap values_ valuesLocation subevents_ ;;
          ret (option_map (fun e => Item (Tap e)) e)
      end
  end
with subevents (ctx : SubeventsNode) : Run (list (WithLocation AFFEvent)) :=
  match ctx with
  | mkSubeventsNode ctx_event _ =>
      l <- mapM (fun node =>
                   e <- event node ;;
                   ret {| data := e; location := event_location node |})
             ctx_event ;;
      ret (filter_data_not_null l)
  end.

Definition item (ctx : ItemNode) : Run (option (WithLocation AFFItem)) :=
  let node := ctx_item_event ctx in
  event_ <- event node ;;
  match event_ with
  | Some (Arctap a) =>
      lift (push {| message := "Event with type " ++ dquote ++ kind (Arctap a) ++ dquote
                               ++ " should not be used as an item.";
                    error_location := arctap_tagLocation a;
                    severity := DiagnosticSeverity.Error;
                    relatedInfo := None |}) ;;
      ret None
  | Some (Item i) => ret (Some {| data := i; location := event_location node |})
  | None => ret None
  end.

Definition items (ctx : ItemsNode) : Run (list (WithLocation AFFItem)) :=
  l <- mapM item (ctx_item ctx) ;;
  ret (filter_not_null l).

Definition aff (ctx : AffNode) : Run AFFFile :=
  let metadataNode := ctx_metadata ctx in
  metadata_ <- visit_metadata metadataNode ;;
  items_ <- items (ctx_items ctx) ;;
  ret {| file_metadata := {| data := metadata_; location := metadata_location metadataNode |};
         file_items := items_ |}.

End ToASTVisitor.

(** [affToAST], run in a store: the array [errors] is new at every call. *)
Definition affToAST (aff : AffNode) (store : Store) : Completion AFFFile * Store :=
  ToASTVisitor.aff aff store [].

(** ** The checkers

    A checker receives the object [file] and the array [errors], and runs in
    the store; a checker of a module that is not part of the sources may hold
    objects of its own, of any type [Hidden].  It is taken here as any code of
    its signature: it may assign to [file], to the store and to its own
    objects, and leave in [errors] what it likes. *)
Section Checkers.

Variable Hidden : Type.

(** What a call of a checker leaves: its completion, with the content of
    [errors] when it returns, and the contents of the object [file], of the
    store and of the checkers' own objects. *)
Record Effect : Type := {
  completion : Completion unit;
  file_after : AFFFile;
  store_after : Store;
  hidden_after : Hidden
}.

Definition AFFChecker : Type := AFFFile -> Store -> Hidden -> list AFFError -> Effect.

(** The float-digit checker reads [file.items] and pushes to [errors]. *)
Definition floatDigitChecker : AFFChecker := fun file store hidden errors =>
  {| completion := floatDigitChecker file errors;
     file_after := file;
     store_after := store;
     hidden_after := hidden |}.

Variables metadataChecker valueRangeChecker timingChecker : AFFChecker.

Definition checkers : list AFFChecker :=
  [metadataChecker; valueRangeChecker; floatDigitChecker; timingChecker].

(** [for (const checker of checkers) checker(file, errors)]: each checker is
    called on the same object [file] and the same array [errors], as the
    checkers before it left them. *)
Definition for_checkers : list AFFChecker -> AFFFile -> Store -> Hidden -> list AFFError
                          -> Effect :=
  fix go (l : list AFFChecker) file store hidden errors : Effect :=
    match l with
    | [] => {| completion := Normal tt errors;
               file_after := file;
               store_after := store;
               hidden_after := hidden |}
    | checker :: rest =>
        let after := checker file store hidden errors in
        match completion after with
        | Normal _ errors' =>
            go rest (file_after after) (store_after after) (hidden_after after) errors'
        | Throw _ => after
        end
    end.

Definition processCheckers (file : AFFFile) (store : Store) (hidden : Hidden) : Effect :=
  for_checkers checkers file store hidden [].

End Checkers.

(** Modelled from the spec: the metadata, value-range and timing checkers,
    whose modules are not part of the sources.  The spec gives every checker
    one contract: a pure function of the file that only appends to the output
    list, never mutates the File and shares no state with another checker.  Of
    this contract, what is asked here of a checker is that a call leaves the
    file, the store and the checkers' own objects as it found them. *)
Definition leaves_state {Hidden} (checker : AFFChecker Hidden) : Prop :=
  forall file store hidden errors,
    file_after (checker file store hidden errors) = file
    /\ store_after (checker file store hidden errors) = store
    /\ hidden_after (checker file store hidden errors) = hidden.

End Shared.

(** The store as the module of the types builds it. *)
Definition declared : Shared.Store :=
  {| Shared.affTrackIds := affTrackIds;
     Shared.affColorIds := affColorIds;
     Shared.affEffects := affEffects;
     Shared.affArcKinds := affArcKinds;
     Shared.affBools := affBools |}.

(** A checker of the first model, as a checker that runs in the store. *)
Definition stateless {Hidden} (checker : AFFChecker) : Shared.AFFChecker Hidden :=
  fun file store hidden errors =>
    {| Shared.completion := checker file errors;
       Shared.file_after := file;
       Shared.store_after := store;
       Shared.hidden_after := hidden |}.

(** Two checkers that do not keep to the contract: one counts its calls in an
    object of its own and reports on every call after the first, the other
    adds a member to the set of the booleans. *)
Definition counting_checker : Shared.AFFChecker nat :=
  fun file store calls errors =>
    {| Shared.completion :=
         match calls with
         | O => Normal tt errors
         | S _ => push (error_at "Checked before."
                          (metaEndLocation (data (file_metadata file)))) errors
         end;
       Shared.file_after := file;
       Shared.store_after := store;
       Shared.hidden_after := S calls |}.

Definition widening_checker : Shared.AFFChecker unit :=
  fun file store hidden errors =>
    {| Shared.completion := Normal tt errors;
       Shared.file_after := file;
       Shared.store_after :=
         {| Shared.affTrackIds := Shared.affTrackIds store;
            Shared.affColorIds := Shared.affColorIds store;
            Shared.affEffects := Shared.affEffects store;
            Shared.affArcKinds := Shared.affArcKinds store;
            Shared.affBools := (Shared.affBools store ++ ["maybe"])%list |};
       Shared.hidden_after := hidden |}.

(** [arc(0,100,0.00,1.00,s,0.00,1.00,0,none,maybe);] as the only item, after an
    empty metadata section. *)
Definition maybe_arc_aff : AffNode :=
  {| ctx_metadata := {| ctx_metadataEntry := [];
                        ctx_metaEnd := Sample.token tokenTypes.word "-" 0;
                        metadata_location := Sample.loc 0 1 |};
     ctx_items :=
       {| ctx_item :=
            [ {| ctx_item_event :=
                   mkEventNode
                     {| ctx_value := [Sample.token tokenTypes.int "0" 4;
                                      Sample.token tokenTypes.int "100" 6;
                                      Sample.token tokenTypes.float "0.00" 10;
                                      Sample.token tokenTypes.float "1.00" 15;
                                      Sample.token tokenTypes.word "s" 20;
                                      Sample.token tokenTypes.float "0.00" 22;
                                      Sample.token tokenTypes.float "1.00" 27;
                                      Sample.token tokenTypes.int "0" 32;
                                      Sample.token tokenTypes.word "none" 34;
                                      Sample.token tokenTypes.word "maybe" 39];
                        values_location := Sample.loc 4 43 |}
                     None (Some (Sample.token tokenTypes.word "arc" 0)) (Sample.loc 0 45);
                 item_location := Sample.loc 0 46 |} ];
          items_location := Sample.loc 0 46 |};
     aff_location := Sample.loc 0 46 |}.

(** ** An event node visited alone *)

(** The event and the diagnostics that the visitor returns for an event node
    visited with no diagnostic before it. *)
Definition event_alone (node : EventNode) : option AFFEvent :=
  match ToASTVisitor.event node [] with
  | Normal e _ => e
  | Throw _ => None
  end.

Definition diagnostics_alone (node : EventNode) : list AFFError :=
  match ToASTVisitor.event node [] with
  | Normal _ errors => errors
  | Throw _ => []
  end.

(** Of the event nodes of a subevents clause, those that give an event, each
    as its event at the location of the node. *)
Definition kept_subevents (events : list EventNode) : list (WithLocation AFFEvent) :=
  flat_map (fun node =>
              match event_alone node with
              | Some e => [{| data := e; location := event_location node |}]
              | None => []
              end) events.

(** ** Vocabulary for runs in a store *)

(** [m] leaves the store as it found it, whatever the store and the
    diagnostics before it, also when it throws. *)
Definition keeps_store {A} (m : Shared.Run A) : Prop :=
  forall store errors, snd (m store errors) = store.

(** In the declared store, [m] completes as the function [v] of the first
    model and leaves the store declared. *)
Definition agrees {A} (m : Shared.Run A) (v : Visitor A) : Prop :=
  forall errors, m declared errors = (v errors, declared).

(** A file with no metadata entry and no item. *)
Definition empty_file : AFFFile :=
  {| file_metadata := {| data := {| metadata_data := [];
                                    metaEndLocation := Sample.loc 0 1 |};
                         location := Sample.loc 0 1 |};
     file_items := [] |}.

(** [arc(0,100,0.00,1.00,s,0.00,1.00,0,none,true)] with the sub-events
    [arctap(150)], [(100,2)], a tap with a missing value and [arctap(150)]. *)
Definition sample_arc_node : EventNode :=
  mkEventNode
    {| ctx_value := [Sample.token tokenTypes.int "0" 4;
                     Sample.token tokenTypes.int "100" 6;
                     Sample.token tokenTypes.float "0.00" 10;
                     Sample.token tokenTypes.float "1.00" 15;
                     Sample.token tokenTypes.word "s" 20;
                     Sample.token tokenTypes.float "0.00" 22;
                     Sample.token tokenTypes.float "1.00" 27;
                     Sample.token tokenTypes.int "0" 32;
                     Sample.token tokenTypes.word "none" 34;
                     Sample.token tokenTypes.word "true" 39];
       values_location := Sample.loc 4 42 |}
    (Some (mkSubeventsNode
             [SampleCst.arctap_node;
              SampleCst.tap_node "2";
              mkEventNode {| ctx_value := [Sample.token tokenTypes.int "100" 21];
                             values_location := Sample.loc 21 23 |}
                None None (Sample.loc 20 24);
              SampleCst.arctap_node]
             (Sample.loc 50 90)))
    (Some (Sample.token tokenTypes.word "arc" 0)) (Sample.loc 0 91).

(** * Properties *)

Unset Implicit Arguments.
Local Open Scope list_scope.

(** ** The monad *)

Lemma bind_Normal {A B} (m : Visitor A) (k : A -> Visitor B) errors r errors' :
  bind m k errors = Normal r errors' ->
  exists a errors1, m errors = Normal a errors1 /\ k a errors1 = Normal r errors'.
Proof.
  unfold bind. destruct (m errors) as [a errors1|reason]; [|discriminate].
  intros H. exists a, errors1. split; [reflexivity|exact H].
Qed.

Lemma prepend_nil {A} (c : Completion A) : prepend [] c = c.
Proof. destruct c; reflexivity. Qed.

Lemma prepend_prepend {A} (es1 es2 : list AFFError) (c : Completion A) :
  prepend es1 (prepend es2 c) = prepend (es1 ++ es2) c.
Proof. destruct c; simpl; [rewrite app_assoc|]; reflexivity. Qed.

Lemma appends_ret {A} (a : A) : appends (ret a).
Proof. intros errors. simpl. rewrite app_nil_r. reflexivity. Qed.

Lemma appends_push e : appends (push e).
Proof. intros errors. reflexivity. Qed.

Lemma appends_throw {A} reason : appends (@throw A reason).
Proof. intros errors. reflexivity. Qed.

Lemma appends_bind {A B} (m : Visitor A) (k : A -> Visitor B) :
  appends m -> (forall a, appends (k a)) -> appends (bind m k).
Proof.
  intros Hm Hk errors. unfold bind. rewrite (Hm errors).
  destruct (m []) as [a errors1|reason]; simpl; [|reflexivity].
  rewrite (Hk a (errors ++ errors1)%list), (Hk a errors1).
  apply eq_sym, prepend_prepend.
Qed.

Lemma appends_mapM {A B} (f : A -> Visitor B) (l : list A) :
  (forall a, In a l -> appends (f a)) -> appends (mapM f l).
Proof.
  induction l as [|a rest IH]; intros Hf; simpl.
  - apply appends_ret.
  - apply appends_bind; [apply Hf; left; reflexivity|]. intros b.
    apply appends_bind; [apply IH; intros; apply Hf; right; assumption|].
    intros bs. apply appends_ret.
Qed.

Lemma appends_for_of {A S} (body : A -> S -> Visitor S) (l : list A) :
  (forall a s, appends (body a s)) -> forall s, appends (for_of body l s).
Proof.
  intros Hb. induction l as [|a rest IH]; intros s; simpl.
  - apply appends_ret.
  - apply appends_bind; [apply Hb|]. intros s'. apply IH.
Qed.

(** What a computation that appends does after [errors] is known from what
    it does from the empty list. *)
Lemma appends_run {A} (m : Visitor A) errors a new :
  appends m -> m [] = Normal a new -> m errors = Normal a (errors ++ new).
Proof. intros Hm H. rewrite (Hm errors), H. reflexivity. Qed.

Lemma appends_Normal {A} (m : Visitor A) errors a errors' :
  appends m -> m errors = Normal a errors' ->
  exists new, m [] = Normal a new /\ errors' = (errors ++ new)%list.
Proof.
  intros Hm. rewrite (Hm errors). destruct (m []) as [a' new|reason]; simpl; [|discriminate].
  intros H. injection H as -> <-. exists new. split; reflexivity.
Qed.

Create HintDb appends.

(** Closes a goal [appends m] for an [m] built from the operations of the
    monad, conditionals and matches. *)
Ltac appends_tac :=
  repeat first
    [ solve [auto with appends]
    | apply appends_ret
    | apply appends_push
    | apply appends_throw
    | apply appends_bind; [|intros ?]
    | apply appends_for_of; intros ? ?
    | match goal with
      | |- appends (if ?b then _ else _) => destruct b
      | |- appends (match ?x with _ => _ end) => destruct x
      | |- appends (let '(_, _) := ?x in _) => destruct x
      end ].

(** ** The helpers and the value parsers only append *)

Lemma rejectSubevent_appends kind subevents : appends (rejectSubevent kind subevents).
Proof. unfold rejectSubevent. appends_tac. Qed.

Lemma checkValuesCount_appends kind count values l :
  appends (checkValuesCount kind count values l).
Proof. unfold checkValuesCount. appends_tac. Qed.

Lemma checkValueType_appends eventKind fieldname T values id :
  appends (checkValueType eventKind fieldname T values id).
Proof. unfold checkValueType. appends_tac. Qed.

Lemma trackId_appends eventKind fieldname i :
  appends (parseValue.trackId eventKind fieldname i).
Proof. unfold parseValue.trackId. appends_tac. Qed.

Lemma colorId_appends eventKind fieldname i :
  appends (parseValue.colorId eventKind fieldname i).
Proof. unfold parseValue.colorId. appends_tac. Qed.

Lemma arcKind_appends eventKind fieldname w :
  appends (parseValue.arcKind eventKind fieldname w).
Proof. unfold parseValue.arcKind. appends_tac. Qed.

Lemma effect_appends eventKind fieldname w :
  appends (parseValue.effect eventKind fieldname w).
Proof. unfold parseValue.effect. appends_tac. Qed.

Lemma bool_appends eventKind fieldname w :
  appends (parseValue.bool eventKind fieldname w).
Proof. unfold parseValue.bool. appends_tac. Qed.

Lemma transformArcSubevents_appends subevents l :
  appends (transformArcSubevents subevents l).
Proof. unfold transformArcSubevents. appends_tac. Qed.

#[local] Hint Resolve rejectSubevent_appends checkValuesCount_appends
  checkValueType_appends trackId_appends colorId_appends arcKind_appends
  effect_appends bool_appends transformArcSubevents_appends : appends.

(** ** The helpers, step by step *)

Ltac inv_bind H :=
  let a := fresh "a" in
  let es := fresh "errors" in
  let H1 := fresh "H" in
  apply bind_Normal in H; destruct H as (a & es & H1 & H).

Ltac inv_ret H :=
  unfold ret in H; first [discriminate H | injection H as ? ?; subst].

Lemma rejectSubevent_Normal kind subevents errors :
  rejectSubevent kind subevents errors =
    Normal tt (errors ++ match subevents with
                         | Some s => [subevents_error kind (location s)]
                         | None => []
                         end).
Proof.
  destruct subevents; simpl; [reflexivity|].
  unfold ret. rewrite app_nil_r. reflexivity.
Qed.

Lemma checkValuesCount_Normal kind count values l errors :
  checkValuesCount kind count values l errors =
    if Nat.eqb (List.length values) count
    then Normal true errors
    else Normal false (errors ++ [count_error kind count (List.length values) l]).
Proof.
  unfold checkValuesCount. destruct (Nat.eqb (List.length values) count); reflexivity.
Qed.

Lemma checkValueType_Some eventKind fieldname T values id errors d errors' :
  checkValueType eventKind fieldname T values id errors = Normal (Some d) errors' ->
  exists v, nth_error values id = Some v /\ holds T d v /\ errors' = errors.
Proof.
  unfold checkValueType. destruct (nth_error values id) as [v|]; [|discriminate].
  destruct (narrow T (data v)) as [x|] eqn:E.
  - intros H. inv_ret H. exists v. repeat split. exact E.
  - intros H. inv_bind H. inv_ret H.
Qed.

Lemma checkValueType_holds eventKind fieldname T values id errors v x :
  nth_error values id = Some v ->
  narrow T (data v) = Some x ->
  checkValueType eventKind fieldname T values id errors =
    Normal (Some {| data := x; location := location v |}) errors.
Proof. intros Hv Hx. unfold checkValueType. rewrite Hv, Hx. reflexivity. Qed.

Lemma Set_has_In s x : Set_has s x = true <-> In x s.
Proof.
  unfold Set_has. rewrite existsb_exists. split.
  - intros (y & Hy & E). apply String.eqb_eq in E. subst. exact Hy.
  - intros H. exists x. split; [exact H|apply String.eqb_refl].
Qed.

Lemma between_1_4 z :
  Number_lt (Integer z) (Integer 1) || Number_gt (Integer z) (Integer 4) = false <->
  In (Integer z) affTrackIds.
Proof.
  unfold Number_gt. simpl. rewrite orb_false_iff, !Z.ltb_ge. split.
  - intros [H1 H4].
    assert (z = 1 \/ z = 2 \/ z = 3 \/ z = 4) as [-> | [-> | [-> | ->]]] by lia; tauto.
  - intros [H|[H|[H|[H|[]]]]]; injection H as <-; lia.
Qed.

Lemma between_0_2 z :
  Number_lt (Integer z) (Integer 0) || Number_gt (Integer z) (Integer 2) = false <->
  In (Integer z) affColorIds.
Proof.
  unfold Number_gt. simpl. rewrite orb_false_iff, !Z.ltb_ge. split.
  - intros [H1 H4].
    assert (z = 0 \/ z = 1 \/ z = 2) as [-> | [-> | ->]] by lia; tauto.
  - intros [H|[H|[H|[]]]]; injection H as <-; lia.
Qed.

Lemma trackId_Some eventKind fieldname r errors t errors' :
  parseValue.trackId eventKind fieldname r errors = Normal (Some t) errors' ->
  exists i, r = Some i /\ In (int_value (data i)) affTrackIds
            /\ t = {| data := {| trackId_value := int_value (data i) |};
                      location := location i |}
            /\ errors' = errors.
Proof.
  unfold parseValue.trackId. destruct r as [i|]; [|intros H; inv_ret H].
  destruct (int_value (data i)) as [z| | |] eqn:E; simpl; try discriminate.
  destruct (_ || _) eqn:R.
  - intros H. inv_bind H. inv_ret H.
  - intros H. inv_ret H. exists i. rewrite E. repeat split.
    exact (proj1 (between_1_4 _) R).
Qed.

Lemma colorId_Some eventKind fieldname r errors t errors' :
  parseValue.colorId eventKind fieldname r errors = Normal (Some t) errors' ->
  exists i, r = Some i /\ In (int_value (data i)) affColorIds
            /\ t = {| data := {| colorId_value := int_value (data i) |};
                      location := location i |}
            /\ errors' = errors.
Proof.
  unfold parseValue.colorId. destruct r as [i|]; [|intros H; inv_ret H].
  destruct (int_value (data i)) as [z| | |] eqn:E; simpl; try discriminate.
  destruct (_ || _) eqn:R.
  - intros H. inv_bind H. inv_ret H.
  - intros H. inv_ret H. exists i. rewrite E. repeat split.
    exact (proj1 (between_0_2 _) R).
Qed.

Lemma arcKind_Some eventKind fieldname r errors t errors' :
  parseValue.arcKind eventKind fieldname r errors = Normal (Some t) errors' ->
  exists w, r = Some w /\ In (word_value (data w)) affArcKinds
            /\ t = {| data := {| arcKind_value := word_value (data w) |};
                      location := location w |}
            /\ errors' = errors.
Proof.
  unfold parseValue.arcKind. destruct r as [w|]; [|intros H; inv_ret H].
  destruct (Set_has affArcKinds (word_value (data w))) eqn:R; simpl.
  - intros H. inv_ret H. exists w. repeat split. exact (proj1 (Set_has_In _ _) R).
  - intros H. inv_bind H. inv_ret H.
Qed.

Lemma effect_Some eventKind fieldname r errors t errors' :
  parseValue.effect eventKind fieldname r errors = Normal (Some t) errors' ->
  exists w, r = Some w /\ In (word_value (data w)) affEffects
            /\ t = {| data := {| effect_value := word_value (data w) |};
                      location := location w |}
            /\ errors' = errors.
Proof.
  unfold parseValue.effect. destruct r as [w|]; [|intros H; inv_ret H].
  destruct (Set_has affEffects (word_value (data w))) eqn:R; simpl.
  - intros H. inv_ret H. exists w. repeat split. exact (proj1 (Set_has_In _ _) R).
  - intros H. inv_bind H. inv_ret H.
Qed.

Lemma bool_Some eventKind fieldname r errors t errors' :
  parseValue.bool eventKind fieldname r errors = Normal (Some t) errors' ->
  exists w, r = Some w /\ In (word_value (data w)) affBools
            /\ t = {| data := {| bool_value := String.eqb (word_value (data w)) "true" |};
                      location := location w |}
            /\ errors' = errors.
Proof.
  unfold parseValue.bool. destruct r as [w|]; [|intros H; inv_ret H].
  destruct (Set_has affBools (word_value (data w))) eqn:R; simpl.
  - intros H. inv_ret H. exists w. repeat split. exact (proj1 (Set_has_In _ _) R).
  - intros H. inv_bind H. inv_ret H.
Qed.

(** ** What an event that a transformer returns was built from *)

(** Reads the first two steps of a transformer that rejects subevents. *)
Ltac inv_prologue H :=
  let H0 := fresh "H" in
  let L := fresh "Count" in
  inv_bind H;
  match goal with
  | H0 : rejectSubevent _ _ _ = _ |- _ =>
      rewrite rejectSubevent_Normal in H0; injection H0 as ? ?; subst
  end;
  inv_bind H;
  match goal with
  | H0 : checkValuesCount _ _ _ _ _ = _ |- _ =>
      rewrite checkValuesCount_Normal in H0;
      destruct (Nat.eqb _ _) eqn:L in H0; injection H0 as ? ?; subst;
      [apply Nat.eqb_eq in L | inv_ret H]
  end.

(** Reads the steps [checkValueType] and [parseValue] of [H], whose final
    result is an event. *)
Ltac inv_fields H :=
  repeat (inv_bind H);
  repeat match type of H with
         | (match ?o with Some _ => _ | None => _ end) _ = _ =>
             is_var o; destruct o; [|inv_ret H]
         end;
  repeat match goal with
         | H0 : checkValueType _ _ ?T _ _ _ = Normal (Some _) _ |- _ =>
             apply (@checkValueType_Some _ _ T) in H0; destruct H0 as (? & H0 & ? & ?); subst
         | H0 : parseValue.trackId _ _ _ _ = Normal (Some _) _ |- _ =>
             apply trackId_Some in H0; destruct H0 as (? & ? & ? & ? & ?); subst
         | H0 : parseValue.colorId _ _ _ _ = Normal (Some _) _ |- _ =>
             apply colorId_Some in H0; destruct H0 as (? & ? & ? & ? & ?); subst
         | H0 : parseValue.arcKind _ _ _ _ = Normal (Some _) _ |- _ =>
             apply arcKind_Some in H0; destruct H0 as (? & ? & ? & ? & ?); subst
         | H0 : parseValue.effect _ _ _ _ = Normal (Some _) _ |- _ =>
             apply effect_Some in H0; destruct H0 as (? & ? & ? & ? & ?); subst
         | H0 : parseValue.bool _ _ _ _ = Normal (Some _) _ |- _ =>
             apply bool_Some in H0; destruct H0 as (? & ? & ? & ? & ?); subst
         end.

(** Concludes once every step is read: the values are those of the list. *)
Ltac finish_fields H :=
  repeat match goal with
         | H0 : nth_error _ _ = Some _ |- _ => simpl in H0; injection H0 as ?; subst
         end;
  inv_ret H;
  unfold holds_trackId, holds_colorId, holds_arcKind, holds_effect, holds_bool;
  repeat first [eassumption | reflexivity | eexists | split].

Lemma tap_Some values l subevents errors e errors' :
  eventTransformer.tap values l subevents errors = Normal (Some e) errors' ->
  exists v0 v1,
    values = [v0; v1]
    /\ holds kind_int (tap_time e) v0
    /\ holds_trackId (tap_trackId e) v1
    /\ errors' = (errors ++ subevents_rejection KTap subevents)%list.
Proof.
  unfold eventTransformer.tap. intros H. inv_prologue H. simpl in H.
  destruct values as [|v0 [|v1 [|? ?]]]; try discriminate.
  inv_fields H. finish_fields H.
Qed.

Lemma hold_Some values l subevents tag errors e errors' :
  eventTransformer.hold values l subevents tag errors = Normal (Some e) errors' ->
  exists v0 v1 v2,
    values = [v0; v1; v2]
    /\ holds kind_int (hold_start e) v0
    /\ holds kind_int (hold_end e) v1
    /\ holds_trackId (hold_trackId e) v2
    /\ hold_tagLocation e = tag
    /\ errors' = (errors ++ subevents_rejection KHold subevents)%list.
Proof.
  unfold eventTransformer.hold. intros H. inv_prologue H. simpl in H.
  destruct values as [|v0 [|v1 [|v2 [|? ?]]]]; try discriminate.
  inv_fields H. finish_fields H.
Qed.

Lemma arctap_Some values l subevents tag errors e errors' :
  eventTransformer.arctap values l subevents tag errors = Normal (Some e) errors' ->
  exists v0,
    values = [v0]
    /\ holds kind_int (arctap_time e) v0
    /\ arctap_tagLocation e = tag
    /\ errors' = (errors ++ subevents_rejection KArctap subevents)%list.
Proof.
  unfold eventTransformer.arctap. intros H. inv_prologue H. simpl in H.
  destruct values as [|v0 [|? ?]]; try discriminate.
  inv_fields H. finish_fields H.
Qed.

Lemma timing_Some values l subevents tag errors e errors' :
  eventTransformer.timing values l subevents tag errors = Normal (Some e) errors' ->
  exists v0 v1 v2,
    values = [v0; v1; v2]
    /\ holds kind_int (timing_time e) v0
    /\ holds kind_float (bpm e) v1
    /\ holds kind_float (segment e) v2
    /\ timing_tagLocation e = tag
    /\ errors' = (errors ++ subevents_rejection KTiming subevents)%list.
Proof.
  unfold eventTransformer.timing. intros H. inv_prologue H. simpl in H.
  destruct values as [|v0 [|v1 [|v2 [|? ?]]]]; try discriminate.
  inv_fields H. finish_fields H.
Qed.


Lemma for_of_arctaps subevents arctaps errors :
  for_of
    (fun (s : WithLocation AFFEvent) (arctaps : list (WithLocation AFFArctapEvent)) =>
       match data s with
       | Arctap event => ret (arctaps ++ [{| data := event; location := location s |}])%list
       | Item i =>
           push {| message := ("Type of subevent of event with type " ++ dquote ++ "arc"
                              ++ dquote ++ " should be " ++ dquote ++ "arctap" ++ dquote
                              ++ " instead of " ++ dquote ++ kind (data s) ++ dquote)%string;
                   error_location := location s;
                   severity := DiagnosticSeverity.Error;
                   relatedInfo := None |} ;;
           ret arctaps
       end)
    subevents arctaps errors =
  Normal (arctaps ++ arctaps_of subevents)%list
         (errors ++ map not_arctap_error (non_arctaps subevents))%list.
Proof.
  revert arctaps errors.
  induction subevents as [|s rest IH]; intros arctaps errors; simpl.
  - unfold ret. rewrite !app_nil_r. reflexivity.
  - unfold bind at 1. destruct (data s) as [i|a] eqn:E.
    + unfold bind at 1. simpl. rewrite IH. rewrite <- app_assoc. reflexivity.
    + simpl. rewrite IH. rewrite <- app_assoc. reflexivity.
Qed.

Lemma transformArcSubevents_Normal subevents l errors :
  transformArcSubevents subevents l errors =
    Normal {| data := arctaps_of subevents; location := l |}
           (errors ++ map not_arctap_error (non_arctaps subevents))%list.
Proof.
  unfold transformArcSubevents, bind. rewrite for_of_arctaps. reflexivity.
Qed.

Lemma arc_Some values l subevents tag errors e errors' :
  eventTransformer.arc values l subevents tag errors = Normal (Some e) errors' ->
  exists v0 v1 v2 v3 v4 v5 v6 v7 v8 v9,
    values = [v0; v1; v2; v3; v4; v5; v6; v7; v8; v9]
    /\ holds kind_int (arc_start e) v0
    /\ holds kind_int (arc_end e) v1
    /\ holds kind_float (xStart e) v2
    /\ holds kind_float (xEnd e) v3
    /\ holds_arcKind (arcKind e) v4
    /\ holds kind_float (yStart e) v5
    /\ holds kind_float (yEnd e) v6
    /\ holds_colorId (colorId e) v7
    /\ holds_effect (effect e) v8
    /\ holds_bool (isLine e) v9
    /\ arc_tagLocation e = tag
    /\ arctaps e = option_map (fun s => {| data := arctaps_of (data s);
                                           location := location s |}) subevents
    /\ errors' = (errors ++ match subevents with
                            | Some s => map not_arctap_error (non_arctaps (data s))
                            | None => []
                            end)%list.
Proof.
  unfold eventTransformer.arc. intros H. inv_bind H.
  rewrite checkValuesCount_Normal in H0.
  destruct (Nat.eqb _ _) eqn:Count in H0; injection H0 as ? ?; subst; [|inv_ret H].
  apply Nat.eqb_eq in Count. simpl in H.
  destruct values as [|v0 [|v1 [|v2 [|v3 [|v4 [|v5 [|v6 [|v7 [|v8 [|v9 [|? ?]]]]]]]]]]];
    try discriminate.
  inv_fields H.
  destruct subevents as [s|]; unfold bind in H.
  - rewrite transformArcSubevents_Normal in H. finish_fields H.
  - cbv beta iota delta [ret] in H. fold (@ret (option AFFArcEvent)) in H.
    finish_fields H. apply eq_sym, app_nil_r.
Qed.

(** ** Events whose fields all validate are built *)

Lemma bind_run {A B} (m : Visitor A) (k : A -> Visitor B) errors a errors' :
  m errors = Normal a errors' -> bind m k errors = k a errors'.
Proof. intros H. unfold bind. rewrite H. reflexivity. Qed.

Lemma checkValuesCount_ok kind count values l errors :
  List.length values = count ->
  checkValuesCount kind count values l errors = Normal true errors.
Proof.
  intros H. rewrite checkValuesCount_Normal.
  apply Nat.eqb_eq in H. rewrite H. reflexivity.
Qed.

Lemma checkValuesCount_mismatch kind count values l errors :
  List.length values <> count ->
  checkValuesCount kind count values l errors =
    Normal false (errors ++ [count_error kind count (List.length values) l]).
Proof.
  intros H. rewrite checkValuesCount_Normal.
  apply Nat.eqb_neq in H. rewrite H. reflexivity.
Qed.

Lemma trackId_In eventKind fieldname i errors :
  In (int_value (data i)) affTrackIds ->
  parseValue.trackId eventKind fieldname (Some i) errors =
    Normal (Some {| data := {| trackId_value := int_value (data i) |};
                    location := location i |}) errors.
Proof.
  intros H. unfold parseValue.trackId.
  destruct (int_value (data i)) as [z| | |];
    try (exfalso; simpl in H; intuition discriminate).
  apply between_1_4 in H. simpl negb. cbv iota. rewrite H. reflexivity.
Qed.

Lemma colorId_In eventKind fieldname i errors :
  In (int_value (data i)) affColorIds ->
  parseValue.colorId eventKind fieldname (Some i) errors =
    Normal (Some {| data := {| colorId_value := int_value (data i) |};
                    location := location i |}) errors.
Proof.
  intros H. unfold parseValue.colorId.
  destruct (int_value (data i)) as [z| | |];
    try (exfalso; simpl in H; intuition discriminate).
  apply between_0_2 in H. simpl negb. cbv iota. rewrite H. reflexivity.
Qed.

Lemma arcKind_In eventKind fieldname w errors :
  In (word_value (data w)) affArcKinds ->
  parseValue.arcKind eventKind fieldname (Some w) errors =
    Normal (Some {| data := {| arcKind_value := word_value (data w) |};
                    location := location w |}) errors.
Proof.
  intros H. unfold parseValue.arcKind.
  apply Set_has_In in H. rewrite H. reflexivity.
Qed.

Lemma effect_In eventKind fieldname w errors :
  In (word_value (data w)) affEffects ->
  parseValue.effect eventKind fieldname (Some w) errors =
    Normal (Some {| data := {| effect_value := word_value (data w) |};
                    location := location w |}) errors.
Proof.
  intros H. unfold parseValue.effect.
  apply Set_has_In in H. rewrite H. reflexivity.
Qed.

Lemma bool_In eventKind fieldname w errors :
  In (word_value (data w)) affBools ->
  parseValue.bool eventKind fieldname (Some w) errors =
    Normal (Some {| data := {| bool_value := String.eqb (word_value (data w)) "true" |};
                    location := location w |}) errors.
Proof.
  intros H. unfold parseValue.bool.
  apply Set_has_In in H. rewrite H. reflexivity.
Qed.

(** Splits [Forall2 field_ok] over a list of fields into the literals and
    what each holds. *)
Ltac split_fields H :=
  repeat match type of H with
         | Forall2 _ (_ :: _) _ =>
             let v := fresh "v" in
             let d := fresh "d" in
             let l := fresh "l" in
             let F := fresh "F" in
             let H' := fresh "H" in
             inversion H as [|? v ? ? F H']; subst; clear H; rename H' into H;
             destruct v as [d l]; destruct d; try contradiction F
         | Forall2 _ [] _ => inversion H; subst; clear H
         end.

(** Runs the steps of a transformer on literals that validate. *)
Ltac run_fields :=
  repeat (erewrite bind_run;
          [|first [ apply rejectSubevent_Normal
                  | apply checkValuesCount_ok; reflexivity
                  | apply checkValueType_holds; reflexivity
                  | apply trackId_In; assumption
                  | apply colorId_In; assumption
                  | apply arcKind_In; assumption
                  | apply effect_In; assumption
                  | apply bool_In; assumption ]];
          cbv beta iota delta [negb]).

Lemma tap_fields_ok values l subevents errors :
  Forall2 field_ok (fields KTap) values ->
  exists e, eventTransformer.tap values l subevents errors =
              Normal (Some e) (errors ++ subevents_rejection KTap subevents).
Proof.
  intros H. unfold fields in H. split_fields H.
  unfold eventTransformer.tap. run_fields. eexists. reflexivity.
Qed.

Lemma hold_fields_ok values l subevents tag errors :
  Forall2 field_ok (fields KHold) values ->
  exists e, eventTransformer.hold values l subevents tag errors =
              Normal (Some e) (errors ++ subevents_rejection KHold subevents).
Proof.
  intros H. unfold fields in H. split_fields H.
  unfold eventTransformer.hold. run_fields. eexists. reflexivity.
Qed.

Lemma arctap_fields_ok values l subevents tag errors :
  Forall2 field_ok (fields KArctap) values ->
  exists e, eventTransformer.arctap values l subevents tag errors =
              Normal (Some e) (errors ++ subevents_rejection KArctap subevents).
Proof.
  intros H. unfold fields in H. split_fields H.
  unfold eventTransformer.arctap. run_fields. eexists. reflexivity.
Qed.

Lemma timing_fields_ok values l subevents tag errors :
  Forall2 field_ok (fields KTiming) values ->
  exists e, eventTransformer.timing values l subevents tag errors =
              Normal (Some e) (errors ++ subevents_rejection KTiming subevents).
Proof.
  intros H. unfold fields in H. split_fields H.
  unfold eventTransformer.timing. run_fields. eexists. reflexivity.
Qed.

Lemma arc_fields_ok values l subevents tag errors :
  Forall2 field_ok (fields KArc) values ->
  exists e, eventTransformer.arc values l subevents tag errors =
              Normal (Some e)
                (errors ++ match subevents with
                           | Some s => map not_arctap_error (non_arctaps (data s))
                           | None => []
                           end).
Proof.
  intros H. unfold fields in H. split_fields H.
  unfold eventTransformer.arc. run_fields.
  destruct subevents as [s|].
  - unfold bind. rewrite transformArcSubevents_Normal. eexists. reflexivity.
  - unfold bind, ret. rewrite app_nil_r. eexists. reflexivity.
Qed.

(** ** The transformers, kind by kind *)

Lemma transformer_appends k values l subevents tag :
  appends (transformer k values l subevents tag).
Proof.
  destruct k; unfold transformer, eventTransformer.tap, eventTransformer.hold,
    eventTransformer.arctap, eventTransformer.timing, eventTransformer.arc;
    appends_tac.
Qed.

Lemma transformer_mismatch k values l subevents tag errors :
  List.length values <> value_count k ->
  transformer k values l subevents tag errors =
    Normal None (errors ++ subevents_rejection k subevents
                 ++ [count_error (kind_name k) (value_count k) (List.length values) l]).
Proof.
  intros H.
  destruct k; unfold transformer, eventTransformer.tap, eventTransformer.hold,
    eventTransformer.arctap, eventTransformer.timing, eventTransformer.arc;
    unfold bind; rewrite ?rejectSubevent_Normal; cbv beta iota;
    rewrite checkValuesCount_mismatch by exact H;
    cbv beta iota delta [negb ret option_map];
    rewrite <- ?app_assoc; reflexivity.
Qed.

Lemma transformer_Some k values l subevents tag errors e errors' :
  transformer k values l subevents tag errors = Normal (Some e) errors' ->
  Forall2 field_ok (fields k) values /\ kind e = kind_name k /\ event_in_range e.
Proof.
  intros H. destruct k; unfold transformer in H; inv_bind H;
    (destruct a as [x|]; [|inv_ret H]); inv_ret H.
  - apply tap_Some in H0. destruct H0 as (v0 & v1 & -> & T & (i & I & R & E) & _).
    repeat split.
    + destruct T as [T _], I as [I _]. repeat constructor; unfold field_ok.
      * destruct (data v0); try discriminate T. exact Logic.I.
      * destruct (data v1); try discriminate I. injection I as ->. exact R.
    + simpl. rewrite E. exact R.
  - apply hold_Some in H0.
    destruct H0 as (v0 & v1 & v2 & -> & T0 & T1 & (i & I & R & E) & _).
    repeat split.
    + destruct T0 as [T0 _], T1 as [T1 _], I as [I _]. repeat constructor; unfold field_ok.
      * destruct (data v0); try discriminate T0. exact Logic.I.
      * destruct (data v1); try discriminate T1. exact Logic.I.
      * destruct (data v2); try discriminate I. injection I as ->. exact R.
    + simpl. rewrite E. exact R.
  - apply arctap_Some in H0. destruct H0 as (v0 & -> & T & _).
    repeat split. destruct T as [T _]. repeat constructor; unfold field_ok.
    destruct (data v0); try discriminate T. exact Logic.I.
  - apply timing_Some in H0. destruct H0 as (v0 & v1 & v2 & -> & T0 & T1 & T2 & _).
    repeat split. destruct T0 as [T0 _], T1 as [T1 _], T2 as [T2 _].
    repeat constructor; unfold field_ok.
    + destruct (data v0); try discriminate T0. exact Logic.I.
    + destruct (data v1); try discriminate T1. exact Logic.I.
    + destruct (data v2); try discriminate T2. exact Logic.I.
  - apply arc_Some in H0.
    destruct H0 as (v0 & v1 & v2 & v3 & v4 & v5 & v6 & v7 & v8 & v9 & -> & T0 & T1
                    & T2 & T3 & (w4 & I4 & R4 & E4) & T5 & T6 & (i7 & I7 & R7 & E7)
                    & (w8 & I8 & R8 & E8) & (w9 & I9 & R9 & E9) & _).
    repeat split.
    + destruct T0 as [T0 _], T1 as [T1 _], T2 as [T2 _], T3 as [T3 _], I4 as [I4 _],
        T5 as [T5 _], T6 as [T6 _], I7 as [I7 _], I8 as [I8 _], I9 as [I9 _].
      repeat constructor; unfold field_ok.
      * destruct (data v0); try discriminate T0. exact Logic.I.
      * destruct (data v1); try discriminate T1. exact Logic.I.
      * destruct (data v2); try discriminate T2. exact Logic.I.
      * destruct (data v3); try discriminate T3. exact Logic.I.
      * destruct (data v4); try discriminate I4. injection I4 as ->. exact R4.
      * destruct (data v5); try discriminate T5. exact Logic.I.
      * destruct (data v6); try discriminate T6. exact Logic.I.
      * destruct (data v7); try discriminate I7. injection I7 as ->. exact R7.
      * destruct (data v8); try discriminate I8. injection I8 as ->. exact R8.
      * destruct (data v9); try discriminate I9. injection I9 as ->. exact R9.
    + simpl. rewrite E7. exact R7.
    + simpl. rewrite E4. exact R4.
    + simpl. rewrite E8. exact R8.
    + simpl. rewrite E9. simpl. destruct (String.eqb _ _); [left|right]; reflexivity.
Qed.

Lemma transformer_fields_ok k values l subevents tag errors :
  Forall2 field_ok (fields k) values ->
  exists e,
    transformer k values l subevents tag errors =
      Normal (Some e)
        (errors ++ match k, subevents with
                   | KArc, Some s => map not_arctap_error (non_arctaps (data s))
                   | _, _ => subevents_rejection k subevents
                   end)
    /\ kind e = kind_name k.
Proof.
  intros H. destruct k; unfold transformer.
  - destruct (tap_fields_ok values l subevents errors H) as [e E].
    eexists. rewrite (@bind_run _ _ _ _ _ _ _ E). split; reflexivity.
  - destruct (hold_fields_ok values l subevents tag errors H) as [e E].
    eexists. rewrite (@bind_run _ _ _ _ _ _ _ E). split; reflexivity.
  - destruct (arctap_fields_ok values l subevents tag errors H) as [e E].
    eexists. rewrite (@bind_run _ _ _ _ _ _ _ E). split; reflexivity.
  - destruct (timing_fields_ok values l subevents tag errors H) as [e E].
    eexists. rewrite (@bind_run _ _ _ _ _ _ _ E). split; reflexivity.
  - destruct (arc_fields_ok values l subevents tag errors H) as [e E].
    exists (Item (Arc e)). rewrite (@bind_run _ _ _ _ _ _ _ E). split; [|reflexivity].
    destruct subevents; reflexivity.
Qed.

(** A subevents clause on an event that is not an arc costs one diagnostic,
    after which the transformer goes on as without the clause. *)
Lemma transformer_subevents k values l s tag errors :
  k <> KArc ->
  transformer k values l (Some s) tag errors =
    transformer k values l None tag
      (errors ++ [subevents_error (kind_name k) (location s)])%list.
Proof. intros H. destruct k; try reflexivity. contradiction H. reflexivity. Qed.

(** * The claims *)

(** C1. The transformer of each kind checks the exact value count (Tap=2,
    Hold=3, Arctap=1, Timing=3, Arc=10).  On a mismatch it yields no event and
    adds, after the diagnostics it was given and the rejection of a subevents
    clause, one Error that names the expected and the actual count.  When it
    yields an event, the count is right and every field validates.  Whatever
    it yields, the diagnostics it was given are kept, in front of its own. *)
Theorem C1_value_count_and_whole_event
    (k : EventKind) (values : list (WithLocation AFFValue)) (l : CstNodeLocation)
    (subevents : Subevents) (tag : CstNodeLocation) (errors : list AFFError) :
  (List.length values <> value_count k ->
   transformer k values l subevents tag errors =
     Normal None (errors ++ subevents_rejection k subevents
                  ++ [count_error (kind_name k) (value_count k) (List.length values) l]))
  /\ (forall e errors',
        transformer k values l subevents tag errors = Normal (Some e) errors' ->
        List.length values = value_count k
        /\ Forall2 field_ok (fields k) values
        /\ kind e = kind_name k)
  /\ (forall r errors',
        transformer k values l subevents tag errors = Normal r errors' ->
        exists new, errors' = (errors ++ new)%list).
Proof.
  split; [|split].
  - apply transformer_mismatch.
  - intros e errors' H. apply transformer_Some in H. destruct H as (F & K & _).
    repeat split; try assumption.
    apply Forall2_length in F. rewrite <- F. destruct k; reflexivity.
  - intros r errors' H.
    apply (appends_Normal _ _ _ _ (transformer_appends k values l subevents tag)) in H.
    destruct H as (new & _ & E). exists new. exact E.
Qed.

Lemma C1_witness :
  transformer KHold (Sample.values KTap) (Sample.loc 0 6) None (Sample.loc 0 3) [] =
    Normal None [count_error "hold" 3 2 (Sample.loc 0 6)]
  /\ Forall2 field_ok (fields KTap) (Sample.values KTap).
Proof.
  split.
  - apply (proj1 (C1_value_count_and_whole_event KHold (Sample.values KTap)
                    (Sample.loc 0 6) None (Sample.loc 0 3) [])).
    simpl. discriminate.
  - eapply (proj1 (proj2 (C1_value_count_and_whole_event KTap (Sample.values KTap)
                            (Sample.loc 0 6) None (Sample.loc 0 0) []))).
    reflexivity.
Defined.

(** C2. An arc whose ten fields validate is built whatever the kinds of its
    sub-events: one Error is added for each sub-event that is not an arctap, at
    the location of that sub-event and in source order, and the arctaps of the
    arc are the sub-events that are arctaps, in source order. *)
Theorem C2_arc_keeps_arctaps
    (values : list (WithLocation AFFValue)) (l : CstNodeLocation)
    (s : WithLocation (list (WithLocation AFFEvent))) (tag : CstNodeLocation)
    (errors : list AFFError) :
  Forall2 field_ok (fields KArc) values ->
  exists e,
    eventTransformer.arc values l (Some s) tag errors =
      Normal (Some e) (errors ++ map not_arctap_error (non_arctaps (data s)))
    /\ arctaps e = Some {| data := arctaps_of (data s); location := location s |}
    /\ map arctap_as_event (arctaps_of (data s)) = filter is_arctap (data s)
    /\ map item_as_event (non_arctaps (data s))
       = filter (fun x => negb (is_arctap x)) (data s)
    /\ Forall (fun i => error_location (not_arctap_error i) = location i)
         (non_arctaps (data s)).
Proof.
  intros H. destruct (arc_fields_ok values l (Some s) tag errors H) as [e E].
  exists e. split; [exact E|].
  apply arc_Some in E.
  destruct E as (? & ? & ? & ? & ? & ? & ? & ? & ? & ? & _ & _ & _ & _ & _ & _ & _
                 & _ & _ & _ & _ & _ & A & _).
  split; [exact A|]. clear.
  split; [|split].
  - induction (data s) as [|x rest IH]; [reflexivity|].
    unfold is_arctap in *. simpl. destruct x as [[i|a] lx]; simpl; [exact IH|].
    rewrite IH. reflexivity.
  - induction (data s) as [|x rest IH]; [reflexivity|].
    unfold is_arctap in *. simpl. destruct x as [[i|a] lx]; simpl; [|exact IH].
    rewrite IH. reflexivity.
  - apply Forall_forall. intros i _. reflexivity.
Qed.

Lemma C2_witness :
  exists e,
    eventTransformer.arc (Sample.values KArc) (Sample.loc 4 44) (Some Sample.subevents)
      (Sample.loc 0 2) [] =
      Normal (Some e) (map not_arctap_error (non_arctaps [Sample.tap_2; Sample.arctap_150]))
    /\ arctaps e = Some {| data := arctaps_of [Sample.tap_2; Sample.arctap_150];
                           location := Sample.loc 48 70 |}.
Proof.
  destruct (C2_arc_keeps_arctaps (Sample.values KArc) (Sample.loc 4 44) Sample.subevents
              (Sample.loc 0 2) []) as (e & E & A & _).
  - repeat constructor; simpl; tauto.
  - exists e. split; [exact E|exact A].
Defined.

Lemma trackId_out eventKind fieldname z l errors :
  ~ In (Integer z) affTrackIds ->
  parseValue.trackId eventKind fieldname (Some (located_int z l)) errors =
    Normal None (errors ++ [range_error eventKind fieldname ["1"; "2"; "3"; "4"] l]).
Proof.
  intros H. unfold parseValue.trackId.
  change (int_value (data (located_int z l))) with (Integer z). simpl negb. cbv iota.
  destruct (_ || _) eqn:R; [reflexivity|].
  contradiction H. exact (proj1 (between_1_4 z) R).
Qed.

Lemma colorId_out eventKind fieldname z l errors :
  ~ In (Integer z) affColorIds ->
  parseValue.colorId eventKind fieldname (Some (located_int z l)) errors =
    Normal None (errors ++ [range_error eventKind fieldname ["0"; "1"; "2"] l]).
Proof.
  intros H. unfold parseValue.colorId.
  change (int_value (data (located_int z l))) with (Integer z). simpl negb. cbv iota.
  destruct (_ || _) eqn:R; [reflexivity|].
  contradiction H. exact (proj1 (between_0_2 z) R).
Qed.

Lemma Set_has_not_In s x : ~ In x s -> Set_has s x = false.
Proof.
  intros H. destruct (Set_has s x) eqn:E; [|reflexivity].
  contradiction H. exact (proj1 (Set_has_In s x) E).
Qed.

(** The two parsers of integers throw on a number that is not an integer,
    which [parseInt] returns for a text without digits ([NaN]) or with too
    many of them (an infinity). *)
Lemma trackId_not_integer eventKind fieldname i errors :
  Number_isInteger (int_value (data i)) = false ->
  parseValue.trackId eventKind fieldname (Some i) errors =
    Throw ("value in AFFInt(" ++ Number_toString (int_value (data i)) ++ ") is not int")%string.
Proof. intros H. unfold parseValue.trackId. rewrite H. reflexivity. Qed.

Lemma colorId_not_integer eventKind fieldname i errors :
  Number_isInteger (int_value (data i)) = false ->
  parseValue.colorId eventKind fieldname (Some i) errors =
    Throw ("value in AFFInt(" ++ Number_toString (int_value (data i)) ++ ") is not int")%string.
Proof. intros H. unfold parseValue.colorId. rewrite H. reflexivity. Qed.

(** C7. Each of the five value parsers, given no value, returns no value and
    adds no diagnostic; given a scalar of the right type (an integer, a word)
    outside its declared set, returns no value and adds exactly one Error that
    lists the set, at the location of the scalar; given one inside the set,
    returns the value of the domain type and adds nothing. *)
Theorem C7_value_parsers (eventKind fieldname : string) (errors : list AFFError) :
  (* no value *)
  (parseValue.trackId eventKind fieldname None errors = Normal None errors
   /\ parseValue.colorId eventKind fieldname None errors = Normal None errors
   /\ parseValue.arcKind eventKind fieldname None errors = Normal None errors
   /\ parseValue.effect eventKind fieldname None errors = Normal None errors
   /\ parseValue.bool eventKind fieldname None errors = Normal None errors)
  /\ (* outside the declared set *)
  ((forall z l, ~ In (Integer z) affTrackIds ->
      parseValue.trackId eventKind fieldname (Some (located_int z l)) errors =
        Normal None (errors ++ [range_error eventKind fieldname ["1"; "2"; "3"; "4"] l]))
   /\ (forall z l, ~ In (Integer z) affColorIds ->
         parseValue.colorId eventKind fieldname (Some (located_int z l)) errors =
           Normal None (errors ++ [range_error eventKind fieldname ["0"; "1"; "2"] l]))
   /\ (forall w l, ~ In w affArcKinds ->
         parseValue.arcKind eventKind fieldname (Some (located_word w l)) errors =
           Normal None
             (errors ++ [range_error eventKind fieldname
                           ["b"; "s"; "si"; "so"; "sisi"; "siso"; "soso"; "sosi"] l]))
   /\ (forall w l, ~ In w affEffects ->
         parseValue.effect eventKind fieldname (Some (located_word w l)) errors =
           Normal None
             (errors ++ [range_error eventKind fieldname ["none"; "full"; "incremental"] l]))
   /\ (forall w l, ~ In w affBools ->
         parseValue.bool eventKind fieldname (Some (located_word w l)) errors =
           Normal None (errors ++ [range_error eventKind fieldname ["true"; "false"] l])))
  /\ (* inside the declared set *)
  ((forall z l, In (Integer z) affTrackIds ->
      parseValue.trackId eventKind fieldname (Some (located_int z l)) errors =
        Normal (Some {| data := {| trackId_value := Integer z |}; location := l |}) errors)
   /\ (forall z l, In (Integer z) affColorIds ->
         parseValue.colorId eventKind fieldname (Some (located_int z l)) errors =
           Normal (Some {| data := {| colorId_value := Integer z |}; location := l |}) errors)
   /\ (forall w l, In w affArcKinds ->
         parseValue.arcKind eventKind fieldname (Some (located_word w l)) errors =
           Normal (Some {| data := {| arcKind_value := w |}; location := l |}) errors)
   /\ (forall w l, In w affEffects ->
         parseValue.effect eventKind fieldname (Some (located_word w l)) errors =
           Normal (Some {| data := {| effect_value := w |}; location := l |}) errors)
   /\ (forall w l, In w affBools ->
         parseValue.bool eventKind fieldname (Some (located_word w l)) errors =
           Normal (Some {| data := {| bool_value := String.eqb w "true" |};
                           location := l |}) errors)).
Proof.
  split; [|split].
  - repeat split.
  - split; [|split; [|split; [|split]]].
    + intros z l H. apply trackId_out. exact H.
    + intros z l H. apply colorId_out. exact H.
    + intros w l H. unfold parseValue.arcKind.
      change (word_value (data (located_word w l))) with w.
      rewrite (Set_has_not_In _ _ H). reflexivity.
    + intros w l H. unfold parseValue.effect.
      change (word_value (data (located_word w l))) with w.
      rewrite (Set_has_not_In _ _ H). reflexivity.
    + intros w l H. unfold parseValue.bool.
      change (word_value (data (located_word w l))) with w.
      rewrite (Set_has_not_In _ _ H). reflexivity.
  - split; [|split; [|split; [|split]]].
    + intros z l H. apply (trackId_In eventKind fieldname (located_int z l)). exact H.
    + intros z l H. apply (colorId_In eventKind fieldname (located_int z l)). exact H.
    + intros w l H. apply (arcKind_In eventKind fieldname (located_word w l)). exact H.
    + intros w l H. apply (effect_In eventKind fieldname (located_word w l)). exact H.
    + intros w l H. apply (bool_In eventKind fieldname (located_word w l)). exact H.
Qed.

Lemma C7_witness :
  parseValue.trackId "tap" "track-id" (Some (located_int 5 (Sample.loc 5 5))) [] =
    Normal None [range_error "tap" "track-id" ["1"; "2"; "3"; "4"] (Sample.loc 5 5)]
  /\ parseValue.arcKind "arc" "arc-kind" (Some (located_word "siso" (Sample.loc 22 25))) [] =
       Normal (Some {| data := {| arcKind_value := "siso" |};
                       location := Sample.loc 22 25 |}) [].
Proof.
  split.
  - apply (proj1 (proj1 (proj2 (C7_value_parsers "tap" "track-id" [])))).
    simpl. intros [H|[H|[H|[H|[]]]]]; discriminate H.
  - apply (proj1 (proj2 (proj2 (proj2 (proj2 (C7_value_parsers "arc" "arc-kind" [])))))).
    simpl. tauto.
Defined.

(** C10. On a tap, a hold, a timing or an arctap that carries a subevents
    clause, the transformer adds one Error "should not have subevents" at the
    location of the clause, and then does what it does on the event without the
    clause: it yields the same event or absence of event, and the same further
    diagnostics.  In particular an event whose count and fields validate is
    still built, with that Error as the only diagnostic. *)
Theorem C10_subevents_rejected_event_kept
    (k : EventKind) (values : list (WithLocation AFFValue)) (l : CstNodeLocation)
    (s : WithLocation (list (WithLocation AFFEvent))) (tag : CstNodeLocation)
    (errors : list AFFError) :
  k <> KArc ->
  (forall r new,
      transformer k values l None tag errors = Normal r (errors ++ new) ->
      transformer k values l (Some s) tag errors =
        Normal r (errors ++ subevents_error (kind_name k) (location s) :: new))
  /\ (Forall2 field_ok (fields k) values ->
      exists e,
        transformer k values l (Some s) tag errors =
          Normal (Some e) (errors ++ [subevents_error (kind_name k) (location s)])
        /\ transformer k values l None tag errors = Normal (Some e) errors
        /\ kind e = kind_name k).
Proof.
  intros K. split.
  - intros r new H. rewrite (transformer_subevents k values l s tag errors K).
    pose proof (transformer_appends k values l None tag) as A.
    apply (appends_Normal _ _ _ _ A) in H. destruct H as (new' & H & E).
    apply app_inv_head in E. subst new'.
    rewrite (appends_run _ _ _ _ A H), <- app_assoc. reflexivity.
  - intros F.
    destruct (transformer_fields_ok k values l (Some s) tag errors F) as (e & E & Ke).
    destruct (transformer_fields_ok k values l None tag errors F) as (e' & E' & _).
    assert (R : forall o, match k, o with
                          | KArc, Some s0 => map not_arctap_error (non_arctaps (data s0))
                          | _, _ => subevents_rejection k o
                          end = subevents_rejection k o)
      by (intros o; destruct k; try reflexivity; contradiction K; reflexivity).
    rewrite R in E, E'.
    assert (S0 : subevents_rejection k None = []) by (destruct k; reflexivity).
    assert (S1 : subevents_rejection k (Some s)
                 = [subevents_error (kind_name k) (location s)])
      by (destruct k; try reflexivity; contradiction K; reflexivity).
    rewrite S0, app_nil_r in E'. rewrite S1 in E.
    exists e. split; [exact E|]. split; [|exact Ke].
    rewrite (transformer_subevents k values l s tag errors K) in E.
    pose proof (transformer_appends k values l None tag) as A.
    apply (appends_Normal _ _ _ _ A) in E. destruct E as (new & E & N).
    apply (appends_Normal _ _ _ _ A) in E'. destruct E' as (new' & E' & N').
    rewrite E in E'. injection E' as -> ->.
    rewrite (appends_run _ _ _ _ A E). rewrite N' at 2. reflexivity.
Qed.

Lemma C10_witness :
  exists e,
    transformer KTiming (Sample.values KTiming) (Sample.loc 7 19) (Some Sample.subevents)
      (Sample.loc 0 5) [] =
      Normal (Some e) [subevents_error "timing" (Sample.loc 48 70)]
    /\ kind e = "timing".
Proof.
  destruct (proj2 (C10_subevents_rejected_event_kept KTiming (Sample.values KTiming)
                     (Sample.loc 7 19) Sample.subevents (Sample.loc 0 5) []
                     ltac:(discriminate))) as (e & E & _ & K).
  - repeat constructor.
  - exists e. split; [exact E|exact K].
Defined.

(** ** The visitor *)

Lemma mapM_Normal {A B} (f : A -> Visitor B) (l : list A) errors rs errors' :
  mapM f l errors = Normal rs errors' ->
  Forall2 (fun a r => exists e1 e2, f a e1 = Normal r e2) l rs.
Proof.
  revert errors rs. induction l as [|a rest IH]; intros errors rs H; simpl in H.
  - inv_ret H. constructor.
  - inv_bind H. inv_bind H. inv_ret H. constructor.
    + eexists. eexists. eassumption.
    + eapply IH. eassumption.
Qed.

Lemma mapM_app {A B} (f : A -> Visitor B) (l1 l2 : list A) errors r1 errors1 :
  mapM f l1 errors = Normal r1 errors1 ->
  mapM f (l1 ++ l2) errors =
    match mapM f l2 errors1 with
    | Normal r2 errors2 => Normal (r1 ++ r2) errors2
    | Throw reason => Throw reason
    end.
Proof.
  revert errors r1. induction l1 as [|a rest IH]; intros errors r1 H; simpl in H.
  - inv_ret H. simpl. destruct (mapM f l2 errors1); reflexivity.
  - inv_bind H. inv_bind H. inv_ret H. simpl.
    rewrite (bind_run _ _ _ _ _ H0). unfold bind at 1. rewrite (IH _ _ H1).
    destruct (mapM f l2 errors1); reflexivity.
Qed.

Lemma filter_not_null_app {A} (l1 l2 : list (option A)) :
  filter_not_null (l1 ++ l2) = (filter_not_null l1 ++ filter_not_null l2)%list.
Proof.
  induction l1 as [|[a|] rest IH]; simpl; [reflexivity| |exact IH].
  rewrite IH. reflexivity.
Qed.

Lemma event_unfold ctx_values ctx_subevents ctx_word l :
  ToASTVisitor.event (mkEventNode ctx_values ctx_subevents ctx_word l) =
    (values_ <- ToASTVisitor.values ctx_values ;;
     subevents_ <- match ctx_subevents with
                   | Some node =>
                       s <- ToASTVisitor.subevents node ;;
                       ret (Some {| data := s;
                                    location := match node with
                                                | mkSubeventsNode _ l => l
                                                end |})
                   | None => ret None
                   end ;;
     match ctx_word with
     | Some tag =>
         if String.eqb (image tag) "timing" then
           transformer KTiming values_ (values_location ctx_values) subevents_
             (locationFromToken tag)
         else if String.eqb (image tag) "hold" then
           transformer KHold values_ (values_location ctx_values) subevents_
             (locationFromToken tag)
         else if String.eqb (image tag) "arc" then
           transformer KArc values_ (values_location ctx_values) subevents_
             (locationFromToken tag)
         else if String.eqb (image tag) "arctap" then
           transformer KArctap values_ (values_location ctx_values) subevents_
             (locationFromToken tag)
         else
           push (error_at ("Unknown event type " ++ dquote ++ image tag ++ dquote ++ ".")%string
                   (locationFromToken tag)) ;;
           ret None
     | None =>
         transformer KTap values_ (values_location ctx_values) subevents_
           (values_location ctx_values)
     end)%visitor.
Proof. reflexivity. Qed.

(** An event that the visitor returns was built by one of the transformers,
    from the values of the node. *)
Lemma event_Some ctx errors e errors' :
  ToASTVisitor.event ctx errors = Normal (Some e) errors' ->
  exists k values subevents tag errors0 errors1,
    ToASTVisitor.values (event_values ctx) errors = Normal values errors0
    /\ transformer k values (values_location (event_values ctx)) subevents tag errors1
       = Normal (Some e) errors'.
Proof.
  destruct ctx as [vn sub word l]. rewrite event_unfold. intros H.
  inv_bind H. inv_bind H. cbn [event_values].
  destruct word as [tag|].
  - destruct (String.eqb (image tag) "timing");
      [exists KTiming; repeat eexists; [exact H0|exact H]|].
    destruct (String.eqb (image tag) "hold");
      [exists KHold; repeat eexists; [exact H0|exact H]|].
    destruct (String.eqb (image tag) "arc");
      [exists KArc; repeat eexists; [exact H0|exact H]|].
    destruct (String.eqb (image tag) "arctap");
      [exists KArctap; repeat eexists; [exact H0|exact H]|].
    inv_bind H. inv_ret H.
  - exists KTap. repeat eexists; [exact H0|exact H].
Qed.

Lemma event_in_range_Some ctx errors e errors' :
  ToASTVisitor.event ctx errors = Normal (Some e) errors' -> event_in_range e.
Proof.
  intros H. apply event_Some in H.
  destruct H as (k & values & subevents & tag & errors0 & errors1 & _ & H).
  apply transformer_Some in H. apply H.
Qed.

Lemma item_Normal ctx errors r errors' :
  ToASTVisitor.item ctx errors = Normal r errors' ->
  exists errors1,
    match r with
    | Some i =>
        ToASTVisitor.event (ctx_item_event ctx) errors = Normal (Some (Item (data i))) errors1
        /\ location i = event_location (ctx_item_event ctx) /\ errors' = errors1
    | None =>
        ToASTVisitor.event (ctx_item_event ctx) errors = Normal None errors1
        /\ errors' = errors1
        \/ exists a,
             ToASTVisitor.event (ctx_item_event ctx) errors = Normal (Some (Arctap a)) errors1
             /\ errors' = (errors1 ++ [arctap_item_error (arctap_tagLocation a)])%list
    end.
Proof.
  unfold ToASTVisitor.item. intros H. inv_bind H. exists errors0.
  destruct a as [[i|a]|].
  - inv_ret H. repeat split. exact H0.
  - inv_bind H. inv_ret H. right. exists a. split; [exact H0|].
    match goal with
    | P : push _ _ = Normal _ _ |- _ => unfold push in P; injection P as ? ?
    end.
    subst. reflexivity.
  - inv_ret H. left. split; [exact H0|reflexivity].
Qed.

Lemma filter_not_null_In {A} (l : list (option A)) a :
  In a (filter_not_null l) <-> In (Some a) l.
Proof.
  induction l as [|[b|] rest IH]; simpl.
  - tauto.
  - rewrite IH. split; (intros [H|H]; [left|right; exact H]); congruence.
  - rewrite IH. split; [tauto|]. intros [H|H]; [discriminate H|exact H].
Qed.

Lemma arctaps_of_app l1 l2 : arctaps_of (l1 ++ l2) = arctaps_of l1 ++ arctaps_of l2.
Proof.
  induction l1 as [|x rest IH]; simpl; [reflexivity|].
  destruct (data x); [exact IH|]. rewrite IH. reflexivity.
Qed.

Lemma non_arctaps_app l1 l2 : non_arctaps (l1 ++ l2) = non_arctaps l1 ++ non_arctaps l2.
Proof.
  induction l1 as [|x rest IH]; simpl; [reflexivity|].
  destruct (data x); [|exact IH]. rewrite IH. reflexivity.
Qed.

(** C6. An item whose event is an arctap is not returned by [item]: one Error
    is added at the location of the tag of the event, and the items of the
    file are those of the other item nodes.  An arctap among the sub-events
    given to an arc is kept, at its place among the arctaps of the arc, and no
    diagnostic is added for it. *)
Theorem C6_arctap_item_rejected_subevent_accepted :
  (forall ctx errors a errors1,
      ToASTVisitor.event (ctx_item_event ctx) errors = Normal (Some (Arctap a)) errors1 ->
      ToASTVisitor.item ctx errors =
        Normal None (errors1 ++ [arctap_item_error (arctap_tagLocation a)]))
  /\ (forall before ctx after il errors rb errors0 a errors1 ra errors2,
        mapM ToASTVisitor.item before errors = Normal rb errors0 ->
        ToASTVisitor.event (ctx_item_event ctx) errors0 = Normal (Some (Arctap a)) errors1 ->
        mapM ToASTVisitor.item after
          (errors1 ++ [arctap_item_error (arctap_tagLocation a)]) = Normal ra errors2 ->
        ToASTVisitor.items {| ctx_item := before ++ ctx :: after; items_location := il |}
          errors =
          Normal (filter_not_null rb ++ filter_not_null ra) errors2)
  /\ (forall before a la after l errors,
        transformArcSubevents
          (before ++ {| data := Arctap a; location := la |} :: after) l errors =
          Normal {| data := arctaps_of before ++ {| data := a; location := la |}
                              :: arctaps_of after;
                    location := l |}
                 (errors ++ map not_arctap_error (non_arctaps before)
                         ++ map not_arctap_error (non_arctaps after))).
Proof.
  assert (I : forall ctx errors a errors1,
             ToASTVisitor.event (ctx_item_event ctx) errors
             = Normal (Some (Arctap a)) errors1 ->
             ToASTVisitor.item ctx errors =
               Normal None (errors1 ++ [arctap_item_error (arctap_tagLocation a)])).
  { intros ctx errors a errors1 H. unfold ToASTVisitor.item.
    rewrite (bind_run _ _ _ _ _ H). reflexivity. }
  split; [exact I|split].
  - intros before ctx after il errors rb errors0 a errors1 ra errors2 B E A.
    unfold ToASTVisitor.items. cbn [ctx_item].
    unfold bind. rewrite (mapM_app _ _ _ _ _ _ B).
    cbn [mapM]. unfold bind at 1. rewrite (I _ _ _ _ E).
    unfold bind at 1. rewrite A. unfold ret.
    rewrite filter_not_null_app. reflexivity.
  - intros before a la after l errors.
    rewrite transformArcSubevents_Normal, arctaps_of_app, non_arctaps_app, map_app.
    reflexivity.
Qed.

Lemma C6_witness :
  ToASTVisitor.item SampleCst.arctap_item [] =
    Normal None [arctap_item_error (Sample.loc 0 5)]
  /\ transformArcSubevents [Sample.tap_2; Sample.arctap_150] (Sample.loc 48 70) [] =
       Normal {| data := [{| data := Sample.arctap_event; location := Sample.loc 0 10 |}];
                 location := Sample.loc 48 70 |}
              [not_arctap_error Sample.tap_item].
Proof.
  split.
  - apply (proj1 C6_arctap_item_rejected_subevent_accepted SampleCst.arctap_item []
             Sample.arctap_event []).
    vm_compute. reflexivity.
  - apply (proj2 (proj2 C6_arctap_item_rejected_subevent_accepted) [Sample.tap_2]
             Sample.arctap_event (Sample.loc 0 10) [] (Sample.loc 48 70) []).
Defined.

(** Each item that [items] returns is the event of one of the item nodes. *)
Lemma items_Normal ctx errors r errors' :
  ToASTVisitor.items ctx errors = Normal r errors' ->
  Forall (fun i => exists node e1 e2,
                     In node (ctx_item ctx)
                     /\ ToASTVisitor.event (ctx_item_event node) e1
                        = Normal (Some (Item (data i))) e2) r.
Proof.
  unfold ToASTVisitor.items. intros H. inv_bind H. inv_ret H.
  apply mapM_Normal in H0. apply Forall_forall. intros i Hi.
  apply filter_not_null_In in Hi.
  revert Hi. induction H0 as [|node r l rs (e1 & e2 & Hr) _ IH]; intros Hi.
  - destruct Hi.
  - destruct Hi as [->|Hi].
    + apply item_Normal in Hr. destruct Hr as (errors1 & Hr & _).
      exists node, e1, errors1. split; [left; reflexivity|exact Hr].
    + destruct (IH Hi) as (n & x1 & x2 & In_n & Hn).
      exists n, x1, x2. split; [right; exact In_n|exact Hn].
Qed.

Lemma aff_items aff file errors :
  affToAST aff = Normal file errors ->
  exists errors0 errors1,
    ToASTVisitor.items (ctx_items aff) errors0 = Normal (file_items file) errors1.
Proof.
  unfold affToAST, ToASTVisitor.aff. intros H. inv_bind H. inv_bind H. inv_ret H.
  cbn [file_items]. eexists. eexists. eassumption.
Qed.

(** C8. In every file that the pass returns, each track id is one of 1, 2, 3,
    4, each color id one of 0, 1, 2, each arc kind one of b, s, si, so, sisi,
    siso, soso, sosi, each effect one of none, full, incremental, and each
    [isLine] is a boolean: an item is only built from the values that the value
    parsers return. *)
Theorem C8_domain_values_in_range (aff : AffNode) (file : AFFFile) (errors : list AFFError) :
  affToAST aff = Normal file errors ->
  Forall (fun i => item_in_range (data i)) (file_items file).
Proof.
  intros H. destruct (aff_items _ _ _ H) as (errors0 & errors1 & I).
  apply items_Normal in I. revert I. apply Forall_impl.
  intros i (node & e1 & e2 & _ & E). exact (event_in_range_Some _ _ _ _ E).
Qed.

Lemma C8_witness :
  exists file errors,
    affToAST SampleCst.aff_node = Normal file errors
    /\ List.length (file_items file) = 2%nat
    /\ Forall (fun i => item_in_range (data i)) (file_items file).
Proof.
  destruct (affToAST SampleCst.aff_node) as [file errors|reason] eqn:E.
  - exists file, errors. split; [reflexivity|]. split.
    + vm_compute in E. injection E as <- _. reflexivity.
    + exact (C8_domain_values_in_range SampleCst.aff_node file errors E).
  - vm_compute in E. discriminate E.
Defined.

(** ** Metadata *)

Lemma mapM_metadataEntry nodes errors :
  mapM (fun node => entry <- ToASTVisitor.metadataEntry node ;; ret (node, entry))
    nodes errors =
  Normal (map (fun node => (node, entry_of node)) nodes) errors.
Proof.
  induction nodes as [|node rest IH]; [reflexivity|].
  cbn [mapM map]. unfold bind at 1. unfold bind at 1.
  cbn [ToASTVisitor.metadataEntry ret]. unfold bind at 1. rewrite IH. reflexivity.
Qed.

Lemma find_app {A} (p : A -> bool) (l1 l2 : list A) :
  find p (l1 ++ l2) = match find p l1 with
                      | Some x => Some x
                      | None => find p l2
                      end.
Proof.
  induction l1 as [|a rest IH]; simpl; [reflexivity|].
  destruct (p a); [reflexivity|exact IH].
Qed.

Lemma Map_has_get {V} (m : Map V) k :
  Map_has m k = match Map_get m k with Some _ => true | None => false end.
Proof.
  unfold Map_has, Map_get. induction m as [|[k' v] rest IH]; simpl; [reflexivity|].
  destruct (String.eqb k' k); [reflexivity|exact IH].
Qed.

Lemma Map_set_fresh {V} (m : Map V) k v :
  Map_has m k = false -> Map_set m k v = m ++ [(k, v)].
Proof.
  unfold Map_has. induction m as [|[k' v'] rest IH]; simpl; [reflexivity|].
  destruct (String.eqb k' k); [discriminate|]. intros H. rewrite (IH H). reflexivity.
Qed.

Lemma Map_get_app {V} (m1 m2 : Map V) k :
  Map_get (m1 ++ m2) k = match Map_get m1 k with
                         | Some v => Some v
                         | None => Map_get m2 k
                         end.
Proof.
  unfold Map_get. rewrite find_app.
  destruct (find _ m1); reflexivity.
Qed.

Lemma Map_has_In {V} (m : Map V) k : Map_has m k = true <-> In k (map fst m).
Proof.
  unfold Map_has. rewrite existsb_exists, in_map_iff. split.
  - intros (kv & I & E). apply String.eqb_eq in E. exists kv. split; assumption.
  - intros (kv & E & I). exists kv. split; [exact I|]. apply String.eqb_eq. exact E.
Qed.

Lemma metadata_loop rest :
  forall seen m errors,
    metadata_invariant seen m ->
    exists m',
      for_of
        (fun (ne : MetadataEntryNode * AFFMetadataEntry)
             (metadata : Map (WithLocation AFFMetadataEntry)) =>
           let '(node, entry) := ne in
           let key_ := data (key entry) in
           if Map_has metadata key_ then
             match Map_get metadata key_ with
             | None => throw "TypeError: Cannot read properties of undefined (reading 'data')"
             | Some previous =>
                 let location_ := location (key (data previous)) in
                 push {| message := (dquote ++ key_ ++ dquote
                                     ++ " is defined twice in the metadata section.")%string;
                         error_location := location (key entry);
                         severity := DiagnosticSeverity.Error;
                         relatedInfo := Some [{| related_message := "Previous defination";
                                                 related_location := location_ |}] |} ;;
                 ret metadata
             end
           else
             ret (Map_set metadata key_
                    {| data := entry; location := metadataEntry_location node |}))
        (map (fun node => (node, entry_of node)) rest) m errors =
      Normal m' (errors ++ duplicate_errors first_occurrence seen rest)
      /\ metadata_invariant (seen ++ rest) m'
      /\ (List.length m' + List.length (duplicate_errors first_occurrence seen rest)
          = List.length m + List.length rest)%nat.
Proof.
  induction rest as [|node rest IH]; intros seen m errors [G N].
  - exists m. cbn [map for_of duplicate_errors ret]. rewrite !app_nil_r.
    repeat split; try assumption; try lia.
  - cbn [map for_of]. unfold bind at 1.
    change (data (key (entry_of node))) with (key_of node).
    rewrite Map_has_get, (G (key_of node)).
    destruct (first_occurrence seen (key_of node)) as [first|] eqn:F; cbn [option_map].
    + (* a duplicate *)
      unfold bind at 1. cbn [push ret].
      destruct (IH (seen ++ [node]) m
                  (errors ++ [duplicate_key_error node first])) as (m' & R & I & L).
      { split; [|exact N]. intros k. rewrite (G k). unfold first_occurrence.
        rewrite find_app. destruct (find (has_key k) seen) as [x|] eqn:E; [reflexivity|].
        cbn [find]. unfold has_key at 1. destruct (String.eqb (key_of node) k) eqn:K;
          [|reflexivity].
        apply String.eqb_eq in K. subst k. unfold first_occurrence in F.
        rewrite F in E. discriminate E. }
      exists m'. cbn [duplicate_errors]. rewrite F.
      rewrite <- app_assoc in I. rewrite <- !app_assoc in R. cbn [app] in *.
      repeat split; try assumption; try apply I.
      cbn [List.length]. lia.
    + (* the first entry with this key *)
      cbn [ret].
      assert (Fresh : Map_has m (key_of node) = false).
      { rewrite Map_has_get, (G (key_of node)), F. reflexivity. }
      rewrite (Map_set_fresh _ _ _ Fresh).
      destruct (IH (seen ++ [node]) (m ++ [(key_of node, located_entry node)]) errors)
        as (m' & R & I & L).
      { split.
        - intros k. rewrite Map_get_app, (G k). unfold first_occurrence.
          rewrite find_app. destruct (find (has_key k) seen) as [x|]; [reflexivity|].
          cbn [option_map find]. unfold Map_get, has_key. cbn [find fst].
          destruct (String.eqb (key_of node) k); reflexivity.
        - rewrite map_app. cbn [map fst].
          apply NoDup_app; [exact N|repeat constructor; intros []|].
          intros k Hk [<-|[]]. apply Map_has_In in Hk. rewrite Hk in Fresh.
          discriminate Fresh. }
      exists m'. cbn [duplicate_errors]. rewrite F. cbn [app].
      rewrite <- app_assoc in I. cbn [app] in I.
      repeat split; try assumption; try apply I.
      rewrite length_app in L. cbn [List.length] in *. lia.
Qed.

Lemma metadata_Normal ctx errors :
  exists m,
    ToASTVisitor.metadata ctx errors =
      Normal {| metadata_data := m;
                metaEndLocation := locationFromToken (ctx_metaEnd ctx) |}
             (errors ++ errors_citing_first (ctx_metadataEntry ctx))
    /\ metadata_invariant (ctx_metadataEntry ctx) m
    /\ (List.length m + List.length (errors_citing_first (ctx_metadataEntry ctx))
        = List.length (ctx_metadataEntry ctx))%nat.
Proof.
  destruct (metadata_loop (ctx_metadataEntry ctx) [] [] errors) as (m & R & I & L).
  { split; [intros k; reflexivity|constructor]. }
  exists m. unfold ToASTVisitor.metadata.
  rewrite (bind_run _ _ _ _ _ (mapM_metadataEntry _ _)).
  rewrite (bind_run _ _ _ _ _ R). repeat split; try apply I. exact L.
Qed.

(** C4. The pass never fails on a metadata section.  It adds, in source order,
    one Error for each entry whose key is the key of an earlier entry, with a
    related info at the key of the first entry with that key; the map it
    returns gives, for each key, the first entry with that key, and has no key
    twice.  Each entry is either in the map or the subject of one Error. *)
Theorem C4_first_occurrence_kept (ctx : MetadataNode) (errors : list AFFError) :
  exists m,
    ToASTVisitor.metadata ctx errors =
      Normal m (errors ++ errors_citing_first (ctx_metadataEntry ctx))
    /\ (forall k, Map_get (metadata_data m) k
                  = option_map located_entry (first_occurrence (ctx_metadataEntry ctx) k))
    /\ NoDup (map fst (metadata_data m))
    /\ (List.length (metadata_data m)
        + List.length (errors_citing_first (ctx_metadataEntry ctx))
        = List.length (ctx_metadataEntry ctx))%nat.
Proof.
  destruct (metadata_Normal ctx errors) as (m & R & [G N] & L).
  eexists. split; [exact R|]. cbn [metadata_data]. repeat split; assumption.
Qed.

Lemma find_first {A} (p : A -> bool) (l : list A) x :
  find p l = Some x ->
  exists j, nth_error l j = Some x /\ p x = true
            /\ forall j' y, (j' < j)%nat -> nth_error l j' = Some y -> p y = false.
Proof.
  induction l as [|a rest IH]; simpl; [discriminate|].
  destruct (p a) eqn:E.
  - intros H. injection H as <-. exists 0%nat. repeat split; [exact E|]. intros; lia.
  - intros H. destruct (IH H) as (j & Hj & Hp & Hm). exists (S j).
    repeat split; [exact Hj|exact Hp|].
    intros [|j'] y Hlt Hy; simpl in Hy.
    + injection Hy as <-. exact E.
    + apply (Hm j'); [lia|exact Hy].
Qed.

Lemma duplicate_errors_cite_first rest :
  forall seen,
    Forall (cites_first_occurrence (seen ++ rest))
      (duplicate_errors first_occurrence seen rest).
Proof.
  induction rest as [|node rest IH]; intros seen; cbn [duplicate_errors]; [constructor|].
  apply Forall_app. split.
  - destruct (first_occurrence seen (key_of node)) as [first|] eqn:F; [|constructor].
    repeat constructor.
    apply find_first in F. destruct F as (j & Hj & Hp & Hm).
    assert (J : (j < List.length seen)%nat)
      by (apply nth_error_Some; rewrite Hj; discriminate).
    exists (List.length seen), j, node, first. repeat split.
    + exact J.
    + rewrite nth_error_app2, Nat.sub_diag by lia. reflexivity.
    + rewrite nth_error_app1 by exact J. exact Hj.
    + apply String.eqb_eq. exact Hp.
    + intros j' n' Hlt Hn'. rewrite nth_error_app1 in Hn' by lia.
      apply String.eqb_neq. exact (Hm j' n' Hlt Hn').
  - specialize (IH (seen ++ [node])). rewrite <- app_assoc in IH. exact IH.
Qed.

(** C3, as amended.  In every metadata section, with three or more entries of
    a same key as with fewer, each duplicate-key Error is at the key of an
    entry and its related info cites the first entry of the section with that
    key, which comes before it. *)
Theorem C3_duplicates_cite_first_occurrence (ctx : MetadataNode) (errors : list AFFError) :
  exists m new,
    ToASTVisitor.metadata ctx errors = Normal m (errors ++ new)
    /\ Forall (cites_first_occurrence (ctx_metadataEntry ctx)) new.
Proof.
  destruct (metadata_Normal ctx errors) as (m & R & _).
  eexists. eexists. split; [exact R|].
  exact (duplicate_errors_cite_first (ctx_metadataEntry ctx) []).
Qed.

(** C3, as stated, fails on a section with three entries of key [AudioOffset]:
    the Error on the third entry cites the first entry, not the second. *)
Lemma C3_counterexample :
  (3 <= occurrences (ctx_metadataEntry SampleCst.metadata_node) "AudioOffset")%nat
  /\ exists m new,
       ToASTVisitor.metadata SampleCst.metadata_node [] = Normal m new
       /\ new <> errors_citing_preceding (ctx_metadataEntry SampleCst.metadata_node)
       /\ new = [duplicate_key_error (SampleCst.entry "AudioOffset" "10" 40)
                                     (SampleCst.entry "AudioOffset" "0" 0);
                 duplicate_key_error (SampleCst.entry "AudioOffset" "20" 80)
                                     (SampleCst.entry "AudioOffset" "0" 0)]
       /\ errors_citing_preceding (ctx_metadataEntry SampleCst.metadata_node)
          = [duplicate_key_error (SampleCst.entry "AudioOffset" "10" 40)
                                 (SampleCst.entry "AudioOffset" "0" 0);
             duplicate_key_error (SampleCst.entry "AudioOffset" "20" 80)
                                 (SampleCst.entry "AudioOffset" "10" 40)].
Proof.
  split; [vm_compute; lia|].
  eexists. eexists. split; [vm_compute; reflexivity|].
  split; [|split; reflexivity].
  vm_compute. intros H. discriminate H.
Qed.

(** ** Float literals and the float-digit checker *)

Lemma checkFloat_Normal f errors :
  checkFloat f errors = Normal tt (errors ++ float_warnings f).
Proof.
  unfold checkFloat, float_warnings. destruct (digit (data f) =? 2); simpl.
  - unfold ret. rewrite app_nil_r. reflexivity.
  - reflexivity.
Qed.

Lemma floatDigitChecker_loop l :
  forall (u : unit) errors,
    for_of (fun (i : WithLocation AFFItem) (_ : unit) =>
              match data i with
              | Timing e =>
                  checkFloat (bpm e) ;;
                  checkFloat (segment e)
              | Arc e =>
                  checkFloat (xStart e) ;;
                  checkFloat (xEnd e) ;;
                  checkFloat (yStart e) ;;
                  checkFloat (yEnd e)
              | _ => ret tt
              end) l u errors =
    Normal tt (errors ++ flat_map float_warnings
                           (flat_map (fun i => float_fields (data i)) l)).
Proof.
  induction l as [|i rest IH]; intros u errors.
  - destruct u. cbn [for_of flat_map ret]. rewrite app_nil_r. reflexivity.
  - cbn [for_of flat_map]. unfold bind at 1.
    destruct (data i) as [e|e|e|e]; cbn [float_fields app];
      unfold bind; rewrite ?checkFloat_Normal; cbn [ret];
      rewrite IH; rewrite ?flat_map_app; cbn [flat_map];
      rewrite <- ?app_assoc; cbn [app]; rewrite ?app_nil_r; reflexivity.
Qed.

Lemma floatDigitChecker_Normal file errors :
  floatDigitChecker file errors =
    Normal tt (errors ++ flat_map float_warnings
                           (flat_map (fun i => float_fields (data i)) (file_items file))).
Proof. apply floatDigitChecker_loop. Qed.

Lemma values_Normal ctx errors vs errors' :
  ToASTVisitor.values ctx errors = Normal vs errors' ->
  Forall2 value_of_token (ctx_value ctx) vs.
Proof.
  unfold ToASTVisitor.values. intros H. apply mapM_Normal in H.
  induction H as [|token v l rs (e1 & e2 & Hv) _ IH]; constructor; [|exact IH].
  inv_bind Hv. inv_ret Hv. unfold value_of_token. cbn [location data].
  split; [reflexivity|].
  destruct (tokenType token); inv_ret H; reflexivity.
Qed.

Lemma value_of_token_float token v f :
  value_of_token token v -> narrow kind_float (data v) = Some f ->
  digit f = fraction_digits (image token).
Proof.
  intros [_ H] N. destruct (tokenType token); try contradiction;
    rewrite H in N; try discriminate N.
  injection N as <-. reflexivity.
Qed.

Lemma index_dot a b :
  indexOf a "." = -1 -> indexOf (a ++ "." ++ b)%string "." = Z.of_nat (String.length a).
Proof.
  unfold indexOf. induction a as [|c a IH].
  { intros _. cbn [String.append String.index prefix].
    destruct (ascii_dec "." ".") as [_|N]; [|contradiction N; reflexivity].
    destruct b; reflexivity. }
  cbn [String.append String.index prefix].
  destruct (ascii_dec "." c) as [E|E].
  - destruct a; intros H; discriminate H.
  - destruct (String.index 0 "." a) as [n|] eqn:I; [intros H; lia|].
    intros _. specialize (IH eq_refl).
    cbn [String.append] in IH.
    destruct (String.index 0 "." (a ++ String "." b)) as [n|]; [|lia].
    cbn [String.length]. lia.
Qed.

Lemma length_append a b :
  String.length (a ++ b)%string = (String.length a + String.length b)%nat.
Proof. induction a as [|c a IH]; simpl; [reflexivity|]. rewrite IH. reflexivity. Qed.

Lemma fraction_digits_dot a b :
  indexOf a "." = -1 -> fraction_digits (a ++ "." ++ b) = Z.of_nat (String.length b).
Proof.
  intros H. unfold fraction_digits. rewrite (index_dot a b H), !length_append.
  cbn [String.length]. lia.
Qed.

Lemma event_digits_recorded ctx errors i errors' :
  ToASTVisitor.event ctx errors = Normal (Some (Item i)) errors' ->
  digits_recorded (ctx_value (event_values ctx)) i.
Proof.
  intros H. apply event_Some in H.
  destruct H as (k & values & subevents & tag & errors0 & errors1 & V & H).
  apply values_Normal in V.
  destruct i as [it|it|it|it]; try exact I;
    destruct k; unfold transformer in H; inv_bind H;
    (destruct a as [x|]; [|inv_ret H]); inv_ret H.
  - apply timing_Some in H0.
    destruct H0 as (v0 & v1 & v2 & -> & _ & [B _] & [S _] & _).
    inversion V as [|t0 ? ? ? _ V0]; subst. inversion V0 as [|t1 ? ? ? T1 V1]; subst.
    inversion V1 as [|t2 ? ? ? T2 V2]; subst. inversion V2; subst.
    exists t0, t1, t2. repeat split.
    + exact (value_of_token_float _ _ _ T1 B).
    + exact (value_of_token_float _ _ _ T2 S).
  - apply arc_Some in H0.
    destruct H0 as (v0 & v1 & v2 & v3 & v4 & v5 & v6 & v7 & v8 & v9 & -> & _ & _
                    & [X2 _] & [X3 _] & _ & [X5 _] & [X6 _] & _).
    repeat match goal with
           | V : Forall2 _ _ (_ :: _) |- _ => inversion V; subst; clear V
           | V : Forall2 _ _ [] |- _ => inversion V; subst; clear V
           end.
    do 10 eexists. split; [reflexivity|].
    repeat split; eapply value_of_token_float; eassumption.
Qed.

(** C5. The float-digit checker adds, after the diagnostics it is given, the
    warnings of the float fields of the items of the file, in order: [bpm] and
    [segment] of each timing, [xStart], [xEnd], [yStart] and [yEnd] of each arc,
    and for each field one Warning at the location of the field if its
    recorded count of fractional digits is not 2, none if it is 2.  In a file
    that the pass returns, the count recorded in such a field is the length of
    the text of the literal minus the index of its decimal point minus one,
    which for digits followed by a point and a fraction is the length of the
    fraction. *)
Theorem C5_float_digit_checker :
  (forall file errors,
      floatDigitChecker file errors =
        Normal tt (errors ++ flat_map float_warnings
                               (flat_map (fun i => float_fields (data i)) (file_items file))))
  /\ (forall f,
        (digit (data f) <> 2 -> float_warnings f = [float_digit_warning (location f)])
        /\ (digit (data f) = 2 -> float_warnings f = []))
  /\ (forall aff file errors,
        affToAST aff = Normal file errors ->
        Forall (fun i => exists node,
                           In node (ctx_item (ctx_items aff))
                           /\ digits_recorded
                                (ctx_value (event_values (ctx_item_event node))) (data i))
          (file_items file))
  /\ (forall digits fraction,
        indexOf digits "." = -1 ->
        fraction_digits (digits ++ "." ++ fraction) = Z.of_nat (String.length fraction)).
Proof.
  split; [exact floatDigitChecker_Normal|]. split; [|split].
  - intros f. unfold float_warnings. split; intros H.
    + apply Z.eqb_neq in H. rewrite H. reflexivity.
    + apply Z.eqb_eq in H. rewrite H. reflexivity.
  - intros aff file errors H. destruct (aff_items _ _ _ H) as (errors0 & errors1 & I).
    apply items_Normal in I. revert I. apply Forall_impl.
    intros i (node & e1 & e2 & N & E). exists node. split; [exact N|].
    exact (event_digits_recorded _ _ _ _ E).
  - exact fraction_digits_dot.
Qed.

Lemma C5_witness :
  fraction_digits "120.5" = 1
  /\ fraction_digits "120.50" = 2
  /\ exists file errors,
       affToAST SampleCst.aff_node = Normal file errors
       /\ floatDigitChecker file [] = Normal tt [float_digit_warning (Sample.loc 9 13)]
       /\ Forall (fun i => exists node,
                    In node (ctx_item (ctx_items SampleCst.aff_node))
                    /\ digits_recorded
                         (ctx_value (event_values (ctx_item_event node))) (data i))
            (file_items file).
Proof.
  split; [|split].
  - apply (proj2 (proj2 (proj2 C5_float_digit_checker)) "120" "5"). reflexivity.
  - apply (proj2 (proj2 (proj2 C5_float_digit_checker)) "120" "50"). reflexivity.
  - destruct (affToAST SampleCst.aff_node) as [file errors|reason] eqn:E.
    + exists file, errors. split; [reflexivity|]. split.
      * vm_compute in E. injection E as <- _. vm_compute. reflexivity.
      * exact (proj1 (proj2 (proj2 C5_float_digit_checker)) SampleCst.aff_node file errors E).
    + vm_compute in E. discriminate E.
Defined.

(** ** The pass only appends to the diagnostics *)

(** Induction on an event node, with the property for its sub-event nodes. *)
Lemma EventNode_nested_ind (P : EventNode -> Prop) :
  (forall v sub w l,
      match sub with
      | Some (mkSubeventsNode events _) => Forall P events
      | None => True
      end ->
      P (mkEventNode v sub w l)) ->
  forall node, P node.
Proof.
  intros H. fix IH 1. intros [v sub w l]. apply H.
  destruct sub as [[events sl]|]; [|exact I].
  induction events as [|e rest IHrest]; constructor; [apply IH|exact IHrest].
Qed.

Lemma values_appends ctx : appends (ToASTVisitor.values ctx).
Proof.
  unfold ToASTVisitor.values. apply appends_mapM. intros token _. appends_tac.
Qed.

Lemma event_appends ctx : appends (ToASTVisitor.event ctx).
Proof.
  induction ctx as [v sub w l IH] using EventNode_nested_ind.
  rewrite event_unfold.
  apply appends_bind; [apply values_appends|]. intros values_.
  apply appends_bind.
  - destruct sub as [[events sl]|]; [|apply appends_ret].
    apply appends_bind; [|intros s; apply appends_ret].
    cbn [ToASTVisitor.subevents].
    apply appends_bind; [|intros s; apply appends_ret].
    apply appends_mapM. intros node N.
    apply appends_bind; [|intros e; apply appends_ret].
    rewrite Forall_forall in IH. exact (IH node N).
  - intros subevents_. destruct w as [tag|]; [|apply transformer_appends].
    repeat match goal with
           | |- appends (if ?b then _ else _) => destruct b
           end;
      try apply transformer_appends.
    appends_tac.
Qed.

Lemma item_appends ctx : appends (ToASTVisitor.item ctx).
Proof.
  unfold ToASTVisitor.item. apply appends_bind; [apply event_appends|].
  intros e. appends_tac.
Qed.

Lemma items_appends ctx : appends (ToASTVisitor.items ctx).
Proof.
  unfold ToASTVisitor.items. apply appends_bind; [|intros; apply appends_ret].
  apply appends_mapM. intros node _. apply item_appends.
Qed.

Lemma metadata_appends ctx : appends (ToASTVisitor.metadata ctx).
Proof.
  unfold ToASTVisitor.metadata. apply appends_bind.
  - apply appends_mapM. intros node _. unfold ToASTVisitor.metadataEntry. appends_tac.
  - intros entries. appends_tac.
Qed.

Lemma aff_appends ctx : appends (ToASTVisitor.aff ctx).
Proof.
  unfold ToASTVisitor.aff. apply appends_bind; [apply metadata_appends|].
  intros m. apply appends_bind; [apply items_appends|]. intros i. apply appends_ret.
Qed.

Lemma floatDigitChecker_appends file : appends (floatDigitChecker file).
Proof.
  intros errors. rewrite !floatDigitChecker_Normal. reflexivity.
Qed.

(** The diagnostics of the four checkers run one after the other are those of
    each checker run alone, one list after the other, when each of the three
    other checkers only appends. *)
Lemma processCheckers_Normal (metadataChecker valueRangeChecker timingChecker : AFFChecker)
    file d1 d2 d4 :
  metadataChecker file [] = Normal tt d1 ->
  appends (valueRangeChecker file) -> valueRangeChecker file [] = Normal tt d2 ->
  appends (timingChecker file) -> timingChecker file [] = Normal tt d4 ->
  processCheckers metadataChecker valueRangeChecker timingChecker file =
    Normal tt (d1 ++ d2
               ++ flat_map float_warnings
                    (flat_map (fun i => float_fields (data i)) (file_items file))
               ++ d4).
Proof.
  intros M AV V AT T. unfold processCheckers, checkers. cbn [for_of].
  rewrite (bind_run _ _ _ _ _ M).
  rewrite (bind_run _ _ _ _ _ (appends_run _ d1 _ _ AV V)).
  rewrite (bind_run _ _ _ _ _ (floatDigitChecker_Normal file _)).
  rewrite (bind_run _ _ _ _ _ (appends_run _ _ _ _ AT T)).
  unfold ret. rewrite <- !app_assoc. reflexivity.
Qed.

(** ** The sample file *)

(** The diagnostics of the sample file, in order: the two duplicates of
    [AudioOffset], the arctap used as an item, the track 7 of the last tap. *)
Example sample_diagnostics :
  exists file,
    affToAST SampleCst.aff_node =
      Normal file
        [duplicate_key_error (SampleCst.entry "AudioOffset" "10" 40)
           (SampleCst.entry "AudioOffset" "0" 0);
         duplicate_key_error (SampleCst.entry "AudioOffset" "20" 80)
           (SampleCst.entry "AudioOffset" "0" 0);
         arctap_item_error (Sample.loc 0 5);
         range_error "tap" "track-id" ["1"; "2"; "3"; "4"] (Sample.loc 5 5)]
    /\ map (fun i => item_kind (data i)) (file_items file) = ["timing"; "tap"]%string.
Proof. eexists. split; vm_compute; reflexivity. Qed.

(** An integer literal too long for a double is read as an infinity, on which
    the parser of track ids throws: the pass returns neither file nor
    diagnostics. *)
Example overlong_literal_throws :
  parseInt SampleCst.overlong = Infinity
  /\ ToASTVisitor.items {| ctx_item := [SampleCst.overlong_item];
                           items_location := Sample.loc 0 316 |} [] =
       Throw "value in AFFInt(Infinity) is not int".
Proof. split; vm_compute; reflexivity. Qed.

(** ** Runs in a store: the pass leaves the store as it found it *)

Lemma keeps_ret {A} (a : A) : keeps_store (Shared.ret a).
Proof. intros store errors. reflexivity. Qed.

Lemma keeps_lift {A} (v : Visitor A) : keeps_store (Shared.lift v).
Proof. intros store errors. reflexivity. Qed.

Lemma keeps_read {A} (f : Shared.Store -> A) : keeps_store (Shared.read f).
Proof. intros store errors. reflexivity. Qed.

Lemma keeps_bind {A B} (m : Shared.Run A) (k : A -> Shared.Run B) :
  keeps_store m -> (forall a, keeps_store (k a)) -> keeps_store (Shared.bind m k).
Proof.
  intros Hm Hk store errors. unfold Shared.bind.
  specialize (Hm store errors).
  destruct (m store errors) as [[a errors'|reason] store']; cbn [snd] in Hm; subst store'.
  - apply Hk.
  - reflexivity.
Qed.

Lemma keeps_mapM {A B} (f : A -> Shared.Run B) (l : list A) :
  (forall a, In a l -> keeps_store (f a)) -> keeps_store (Shared.mapM f l).
Proof.
  induction l as [|a rest IH]; intros Hf; cbn [Shared.mapM].
  - apply keeps_ret.
  - apply keeps_bind; [apply Hf; left; reflexivity|]. intros b.
    apply keeps_bind; [apply IH; intros; apply Hf; right; assumption|].
    intros bs. apply keeps_ret.
Qed.

Create HintDb keeps.

(** Closes a goal [keeps_store m] for an [m] built from the operations of the
    monad, conditionals and matches. *)
Ltac keeps_tac :=
  repeat first
    [ solve [auto with keeps]
    | apply keeps_ret
    | apply keeps_lift
    | apply keeps_read
    | apply keeps_bind; [|intros ?]
    | match goal with
      | |- keeps_store (if ?b then _ else _) => destruct b
      | |- keeps_store (match ?x with _ => _ end) => destruct x
      end ].

Lemma trackId_keeps eventKind fieldname int :
  keeps_store (Shared.parseValue.trackId eventKind fieldname int).
Proof. unfold Shared.parseValue.trackId. keeps_tac. Qed.

Lemma colorId_keeps eventKind fieldname int :
  keeps_store (Shared.parseValue.colorId eventKind fieldname int).
Proof. unfold Shared.parseValue.colorId. keeps_tac. Qed.

Lemma arcKind_keeps eventKind fieldname word :
  keeps_store (Shared.parseValue.arcKind eventKind fieldname word).
Proof. unfold Shared.parseValue.arcKind. keeps_tac. Qed.

Lemma effect_keeps eventKind fieldname word :
  keeps_store (Shared.parseValue.effect eventKind fieldname word).
Proof. unfold Shared.parseValue.effect. keeps_tac. Qed.

Lemma bool_keeps eventKind fieldname word :
  keeps_store (Shared.parseValue.bool eventKind fieldname word).
Proof. unfold Shared.parseValue.bool. keeps_tac. Qed.

#[local] Hint Resolve trackId_keeps colorId_keeps arcKind_keeps effect_keeps bool_keeps
  : keeps.

Lemma tap_keeps values l subevents :
  keeps_store (Shared.eventTransformer.tap values l subevents).
Proof. unfold Shared.eventTransformer.tap. keeps_tac. Qed.

Lemma hold_keeps values l subevents tag :
  keeps_store (Shared.eventTransformer.hold values l subevents tag).
Proof. unfold Shared.eventTransformer.hold. keeps_tac. Qed.

Lemma arctap_keeps values l subevents tag :
  keeps_store (Shared.eventTransformer.arctap values l subevents tag).
Proof. unfold Shared.eventTransformer.arctap. keeps_tac. Qed.

Lemma timing_keeps values l subevents tag :
  keeps_store (Shared.eventTransformer.timing values l subevents tag).
Proof. unfold Shared.eventTransformer.timing. keeps_tac. Qed.

Lemma arc_keeps values l subevents tag :
  keeps_store (Shared.eventTransformer.arc values l subevents tag).
Proof. unfold Shared.eventTransformer.arc. keeps_tac. Qed.

#[local] Hint Resolve tap_keeps hold_keeps arctap_keeps timing_keeps arc_keeps : keeps.

Lemma event_keeps ctx : keeps_store (Shared.ToASTVisitor.event ctx).
Proof.
  induction ctx as [v sub w l IH] using EventNode_nested_ind.
  cbn [Shared.ToASTVisitor.event].
  apply keeps_bind; [apply keeps_lift|]. intros values_.
  apply keeps_bind.
  - destruct sub as [[events sl]|]; [|apply keeps_ret].
    apply keeps_bind; [|intros s; apply keeps_ret].
    cbn [Shared.ToASTVisitor.subevents].
    apply keeps_bind; [|intros s; apply keeps_ret].
    apply keeps_mapM. intros node N.
    apply keeps_bind; [|intros e; apply keeps_ret].
    rewrite Forall_forall in IH. exact (IH node N).
  - intros subevents_. keeps_tac.
Qed.

Lemma item_keeps ctx : keeps_store (Shared.ToASTVisitor.item ctx).
Proof.
  unfold Shared.ToASTVisitor.item. apply keeps_bind; [apply event_keeps|].
  intros e. keeps_tac.
Qed.

Lemma items_keeps ctx : keeps_store (Shared.ToASTVisitor.items ctx).
Proof.
  unfold Shared.ToASTVisitor.items. apply keeps_bind; [|intros; apply keeps_ret].
  apply keeps_mapM. intros node _. apply item_keeps.
Qed.

Lemma aff_keeps ctx : keeps_store (Shared.ToASTVisitor.aff ctx).
Proof.
  unfold Shared.ToASTVisitor.aff. apply keeps_bind; [apply keeps_lift|].
  intros m. apply keeps_bind; [apply items_keeps|]. intros i. apply keeps_ret.
Qed.

(** ** Runs in the declared store are the runs of the first model *)

Lemma agrees_ret {A} (a : A) : agrees (Shared.ret a) (ret a).
Proof. intros errors. reflexivity. Qed.

Lemma agrees_lift {A} (v : Visitor A) : agrees (Shared.lift v) v.
Proof. intros errors. reflexivity. Qed.

Lemma agrees_bind {A B} (m : Shared.Run A) (k : A -> Shared.Run B)
    (v : Visitor A) (j : A -> Visitor B) :
  agrees m v -> (forall a, agrees (k a) (j a)) -> agrees (Shared.bind m k) (bind v j).
Proof.
  intros Hm Hk errors. unfold Shared.bind, bind. rewrite (Hm errors).
  destruct (v errors) as [a errors'|reason]; [apply Hk|reflexivity].
Qed.

Lemma agrees_mapM {A B} (f : A -> Shared.Run B) (g : A -> Visitor B) (l : list A) :
  (forall a, In a l -> agrees (f a) (g a)) -> agrees (Shared.mapM f l) (mapM g l).
Proof.
  induction l as [|a rest IH]; intros Hf; cbn [Shared.mapM mapM].
  - apply agrees_ret.
  - apply agrees_bind; [apply Hf; left; reflexivity|]. intros b.
    apply agrees_bind; [apply IH; intros; apply Hf; right; assumption|].
    intros bs. apply agrees_ret.
Qed.

Create HintDb agrees.

Ltac agrees_tac :=
  repeat first
    [ solve [auto with agrees]
    | apply agrees_ret
    | apply agrees_lift
    | apply agrees_bind; [|intros ?]
    | match goal with
      | |- agrees (if ?b then _ else _) _ => destruct b
      | |- agrees (match ?x with _ => _ end) _ => destruct x
      end ].

Lemma trackId_agrees eventKind fieldname int :
  agrees (Shared.parseValue.trackId eventKind fieldname int)
         (parseValue.trackId eventKind fieldname int).
Proof.
  intros errors. unfold Shared.parseValue.trackId, parseValue.trackId.
  destruct int as [i|]; [|reflexivity]. cbv zeta.
  destruct (negb (Number_isInteger (int_value (data i)))); [reflexivity|].
  destruct (Number_lt (int_value (data i)) (Integer 1)
            || Number_gt (int_value (data i)) (Integer 4)); reflexivity.
Qed.

Lemma colorId_agrees eventKind fieldname int :
  agrees (Shared.parseValue.colorId eventKind fieldname int)
         (parseValue.colorId eventKind fieldname int).
Proof.
  intros errors. unfold Shared.parseValue.colorId, parseValue.colorId.
  destruct int as [i|]; [|reflexivity]. cbv zeta.
  destruct (negb (Number_isInteger (int_value (data i)))); [reflexivity|].
  destruct (Number_lt (int_value (data i)) (Integer 0)
            || Number_gt (int_value (data i)) (Integer 2)); reflexivity.
Qed.

Lemma arcKind_agrees eventKind fieldname word :
  agrees (Shared.parseValue.arcKind eventKind fieldname word)
         (parseValue.arcKind eventKind fieldname word).
Proof.
  intros errors. unfold Shared.parseValue.arcKind, parseValue.arcKind.
  destruct word as [w|]; [|reflexivity].
  cbv [Shared.bind Shared.read Shared.lift Shared.ret declared Shared.affArcKinds].
  destruct (Set_has affArcKinds (word_value (data w))); reflexivity.
Qed.

Lemma effect_agrees eventKind fieldname word :
  agrees (Shared.parseValue.effect eventKind fieldname word)
         (parseValue.effect eventKind fieldname word).
Proof.
  intros errors. unfold Shared.parseValue.effect, parseValue.effect.
  destruct word as [w|]; [|reflexivity].
  cbv [Shared.bind Shared.read Shared.lift Shared.ret declared Shared.affEffects].
  destruct (Set_has affEffects (word_value (data w))); reflexivity.
Qed.

Lemma bool_agrees eventKind fieldname word :
  agrees (Shared.parseValue.bool eventKind fieldname word)
         (parseValue.bool eventKind fieldname word).
Proof.
  intros errors. unfold Shared.parseValue.bool, parseValue.bool.
  destruct word as [w|]; [|reflexivity].
  cbv [Shared.bind Shared.read Shared.lift Shared.ret declared Shared.affBools].
  destruct (Set_has affBools (word_value (data w))); reflexivity.
Qed.

#[local] Hint Resolve trackId_agrees colorId_agrees arcKind_agrees effect_agrees
  bool_agrees : agrees.

Lemma tap_agrees values l subevents :
  agrees (Shared.eventTransformer.tap values l subevents)
         (eventTransformer.tap values l subevents).
Proof. unfold Shared.eventTransformer.tap, eventTransformer.tap. agrees_tac. Qed.

Lemma hold_agrees values l subevents tag :
  agrees (Shared.eventTransformer.hold values l subevents tag)
         (eventTransformer.hold values l subevents tag).
Proof. unfold Shared.eventTransformer.hold, eventTransformer.hold. agrees_tac. Qed.

Lemma arctap_agrees values l subevents tag :
  agrees (Shared.eventTransformer.arctap values l subevents tag)
         (eventTransformer.arctap values l subevents tag).
Proof. unfold Shared.eventTransformer.arctap, eventTransformer.arctap. agrees_tac. Qed.

Lemma timing_agrees values l subevents tag :
  agrees (Shared.eventTransformer.timing values l subevents tag)
         (eventTransformer.timing values l subevents tag).
Proof. unfold Shared.eventTransformer.timing, eventTransformer.timing. agrees_tac. Qed.

Lemma arc_agrees values l subevents tag :
  agrees (Shared.eventTransformer.arc values l subevents tag)
         (eventTransformer.arc values l subevents tag).
Proof. unfold Shared.eventTransformer.arc, eventTransformer.arc. agrees_tac. Qed.

#[local] Hint Resolve tap_agrees hold_agrees arctap_agrees timing_agrees arc_agrees
  : agrees.

Lemma event_agrees ctx : agrees (Shared.ToASTVisitor.event ctx) (ToASTVisitor.event ctx).
Proof.
  induction ctx as [v sub w l IH] using EventNode_nested_ind.
  cbn [Shared.ToASTVisitor.event ToASTVisitor.event].
  apply agrees_bind; [apply agrees_lift|]. intros values_.
  apply agrees_bind.
  - destruct sub as [[events sl]|]; [|apply agrees_ret].
    apply agrees_bind; [|intros s; apply agrees_ret].
    cbn [Shared.ToASTVisitor.subevents ToASTVisitor.subevents].
    apply agrees_bind; [|intros s; apply agrees_ret].
    apply agrees_mapM. intros node N.
    apply agrees_bind; [|intros e; apply agrees_ret].
    rewrite Forall_forall in IH. exact (IH node N).
  - intros subevents_. agrees_tac.
Qed.

Lemma item_agrees ctx : agrees (Shared.ToASTVisitor.item ctx) (ToASTVisitor.item ctx).
Proof.
  unfold Shared.ToASTVisitor.item, ToASTVisitor.item.
  apply agrees_bind; [apply event_agrees|]. intros e. agrees_tac.
Qed.

Lemma items_agrees ctx : agrees (Shared.ToASTVisitor.items ctx) (ToASTVisitor.items ctx).
Proof.
  unfold Shared.ToASTVisitor.items, ToASTVisitor.items.
  apply agrees_bind; [|intros; apply agrees_ret].
  apply agrees_mapM. intros node _. apply item_agrees.
Qed.

Lemma aff_agrees ctx : agrees (Shared.ToASTVisitor.aff ctx) (ToASTVisitor.aff ctx).
Proof.
  unfold Shared.ToASTVisitor.aff, ToASTVisitor.aff.
  apply agrees_bind; [apply agrees_lift|].
  intros m. apply agrees_bind; [apply items_agrees|]. intros i. apply agrees_ret.
Qed.

(** Run in the store as the module of the types builds it, [affToAST] returns
    what the first model of it returns, and leaves the store as it is. *)
Lemma affToAST_declared aff : Shared.affToAST aff declared = (affToAST aff, declared).
Proof. exact (aff_agrees aff []). Qed.

(** ** The checkers in a store *)

Lemma floatDigitChecker_leaves_state Hidden :
  Shared.leaves_state (@Shared.floatDigitChecker Hidden).
Proof. intros file store hidden errors. repeat split. Qed.

Lemma stateless_leaves_state Hidden checker :
  Shared.leaves_state (@stateless Hidden checker).
Proof. intros file store hidden errors. repeat split. Qed.

Lemma for_checkers_leaves_state Hidden (l : list (Shared.AFFChecker Hidden)) :
  Forall Shared.leaves_state l ->
  forall file store hidden errors,
    Shared.file_after (Shared.for_checkers l file store hidden errors) = file
    /\ Shared.store_after (Shared.for_checkers l file store hidden errors) = store
    /\ Shared.hidden_after (Shared.for_checkers l file store hidden errors) = hidden.
Proof.
  induction 1 as [|checker rest L _ IH]; intros file store hidden errors;
    cbn [Shared.for_checkers].
  - repeat split.
  - destruct (L file store hidden errors) as (F & S & H). cbv zeta.
    destruct (Shared.completion (checker file store hidden errors)) as [[] errors'|reason].
    + rewrite F, S, H. apply IH.
    + repeat split; assumption.
Qed.

Lemma processCheckers_leaves_state Hidden
    (metadataChecker valueRangeChecker timingChecker : Shared.AFFChecker Hidden) :
  Shared.leaves_state metadataChecker -> Shared.leaves_state valueRangeChecker ->
  Shared.leaves_state timingChecker ->
  forall file store hidden,
    Shared.file_after (Shared.processCheckers metadataChecker valueRangeChecker
                         timingChecker file store hidden) = file
    /\ Shared.store_after (Shared.processCheckers metadataChecker valueRangeChecker
                             timingChecker file store hidden) = store
    /\ Shared.hidden_after (Shared.processCheckers metadataChecker valueRangeChecker
                              timingChecker file store hidden) = hidden.
Proof.
  intros M V T file store hidden. unfold Shared.processCheckers, Shared.checkers.
  apply for_checkers_leaves_state.
  apply Forall_cons; [exact M|]. apply Forall_cons; [exact V|].
  apply Forall_cons; [apply floatDigitChecker_leaves_state|].
  apply Forall_cons; [exact T|]. apply Forall_nil.
Qed.

(** With checkers of the first model in the three places, the driver in a
    store completes as the driver of the first model. *)
Lemma processCheckers_stateless Hidden
    (metadataChecker valueRangeChecker timingChecker : AFFChecker) file store
    (hidden : Hidden) :
  Shared.completion
    (Shared.processCheckers (stateless metadataChecker) (stateless valueRangeChecker)
       (stateless timingChecker) file store hidden) =
    processCheckers metadataChecker valueRangeChecker timingChecker file.
Proof.
  unfold Shared.processCheckers, Shared.checkers, processCheckers, checkers.
  cbn [Shared.for_checkers for_of]. unfold bind, stateless, Shared.floatDigitChecker.
  cbn [Shared.completion Shared.file_after Shared.store_after Shared.hidden_after].
  destruct (metadataChecker file []) as [[] e1|r1]; [|reflexivity].
  destruct (valueRangeChecker file e1) as [[] e2|r2]; [|reflexivity].
  destruct (floatDigitChecker file e2) as [[] e3|r3]; [|reflexivity].
  destruct (timingChecker file e3) as [[] e4|r4]; reflexivity.
Qed.

(** C9. Two runs in a row of [affToAST] on the same parse tree complete
    alike: they return the same file and the same list of diagnostics, or
    throw the same exception.  The pass leaves the sets that all runs share as
    it found them, whatever they hold, so that the second run starts in the
    store of the first.  Two runs in a row of [processCheckers] on the same
    file object complete alike, with the same list of diagnostics, when each
    of the three checkers whose modules are absent leaves the file, the store
    and its own objects as it found them, as the float-digit checker does.
    Under the same condition, the pass and the driver run one after the other
    twice complete alike both times. *)
Theorem C9_runs_identical :
  (forall aff store,
      let run1 := Shared.affToAST aff store in
      let run2 := Shared.affToAST aff (snd run1) in
      fst run2 = fst run1 /\ snd run1 = store)
  /\ (forall Hidden
             (metadataChecker valueRangeChecker timingChecker : Shared.AFFChecker Hidden),
        Shared.leaves_state metadataChecker ->
        Shared.leaves_state valueRangeChecker ->
        Shared.leaves_state timingChecker ->
        (forall file store hidden,
            let run1 := Shared.processCheckers metadataChecker valueRangeChecker
                          timingChecker file store hidden in
            let run2 := Shared.processCheckers metadataChecker valueRangeChecker
                          timingChecker (Shared.file_after run1) (Shared.store_after run1)
                          (Shared.hidden_after run1) in
            Shared.completion run2 = Shared.completion run1)
        /\ (forall aff store hidden file errors,
              let lower1 := Shared.affToAST aff store in
              fst lower1 = Normal file errors ->
              let check1 := Shared.processCheckers metadataChecker valueRangeChecker
                              timingChecker file (snd lower1) hidden in
              let lower2 := Shared.affToAST aff (Shared.store_after check1) in
              let check2 := Shared.processCheckers metadataChecker valueRangeChecker
                              timingChecker file (snd lower2)
                              (Shared.hidden_after check1) in
              fst lower2 = Normal file errors
              /\ Shared.completion check2 = Shared.completion check1)).
Proof.
  split.
  - intros aff store. cbv zeta. unfold Shared.affToAST.
    rewrite (aff_keeps aff store []). split; reflexivity.
  - intros Hidden mc vc tc M V T. split.
    + intros file store hidden. cbv zeta.
      destruct (processCheckers_leaves_state Hidden mc vc tc M V T file store hidden)
        as (F & S & H).
      rewrite F, S, H. reflexivity.
    + intros aff store hidden file errors. cbv zeta. intros L.
      unfold Shared.affToAST in *. rewrite (aff_keeps aff store []).
      destruct (processCheckers_leaves_state Hidden mc vc tc M V T file store hidden)
        as (_ & S & H).
      rewrite S, H, (aff_keeps aff store []). split; [exact L|reflexivity].
Qed.

Lemma C9_witness :
  (exists file errors,
      fst (Shared.affToAST SampleCst.aff_node declared) = Normal file errors
      /\ fst (Shared.affToAST SampleCst.aff_node
                (snd (Shared.affToAST SampleCst.aff_node declared)))
         = Normal file errors
      /\ List.length errors = 4%nat)
  /\ Shared.completion
       (Shared.processCheckers (stateless sample_checker) (stateless sample_checker)
          (stateless sample_checker) empty_file declared tt)
     = Normal tt [error_at "The file has no item." (Sample.loc 0 1);
                  error_at "The file has no item." (Sample.loc 0 1);
                  error_at "The file has no item." (Sample.loc 0 1)]
  /\ Shared.completion
       (Shared.processCheckers (stateless sample_checker) (stateless sample_checker)
          (stateless sample_checker)
          (Shared.file_after
             (Shared.processCheckers (stateless sample_checker) (stateless sample_checker)
                (stateless sample_checker) empty_file declared tt))
          (Shared.store_after
             (Shared.processCheckers (stateless sample_checker) (stateless sample_checker)
                (stateless sample_checker) empty_file declared tt))
          (Shared.hidden_after
             (Shared.processCheckers (stateless sample_checker) (stateless sample_checker)
                (stateless sample_checker) empty_file declared tt)))
     = Normal tt [error_at "The file has no item." (Sample.loc 0 1);
                  error_at "The file has no item." (Sample.loc 0 1);
                  error_at "The file has no item." (Sample.loc 0 1)].
Proof.
  split; [|split].
  - destruct (fst (Shared.affToAST SampleCst.aff_node declared))
      as [file errors|reason] eqn:E.
    + exists file, errors. split; [reflexivity|]. split.
      * rewrite <- E. exact (proj1 (proj1 C9_runs_identical SampleCst.aff_node declared)).
      * vm_compute in E. injection E as _ <-. reflexivity.
    + vm_compute in E. discriminate E.
  - vm_compute. reflexivity.
  - refine (eq_trans
              (proj1 (proj2 C9_runs_identical unit (stateless sample_checker)
                        (stateless sample_checker) (stateless sample_checker) _ _ _)
                 empty_file declared tt) _).
    + apply stateless_leaves_state.
    + apply stateless_leaves_state.
    + apply stateless_leaves_state.
    + vm_compute. reflexivity.
Defined.

(** The store is read and the contract is needed.  A checker that adds a
    member to the set of the booleans changes what the pass returns for an arc
    with that member as its last value: an Error before the call, the arc
    after it.  A checker that counts its calls makes the second of two runs of
    the driver report what the first did not. *)
Example widened_set_changes_the_pass :
  forall file,
    fst (Shared.affToAST maybe_arc_aff declared)
    <> fst (Shared.affToAST maybe_arc_aff
              (Shared.store_after (widening_checker file declared tt [])))
    /\ ~ Shared.leaves_state widening_checker.
Proof.
  intros file. split.
  - vm_compute. discriminate.
  - intros L. destruct (L file declared tt []) as (_ & S & _).
    vm_compute in S. discriminate S.
Qed.

Example counting_checker_runs_differ :
  forall run1 run2,
    run1 = Shared.processCheckers (stateless sample_checker) (stateless sample_checker)
             counting_checker empty_file declared 0%nat ->
    run2 = Shared.processCheckers (stateless sample_checker) (stateless sample_checker)
             counting_checker (Shared.file_after run1) (Shared.store_after run1)
             (Shared.hidden_after run1) ->
    Shared.completion run2 <> Shared.completion run1
    /\ ~ Shared.leaves_state counting_checker.
Proof.
  intros run1 run2 -> ->. split.
  - vm_compute. discriminate.
  - intros L. destruct (L empty_file declared 0%nat []) as (_ & _ & H).
    vm_compute in H. discriminate H.
Qed.

(** * Further properties *)

(** ** The diagnostics of a transformer *)

Lemma checkValueType_run eventKind fieldname T values id v errors :
  nth_error values id = Some v ->
  checkValueType eventKind fieldname T values id errors =
    Normal (located T v) (errors ++ type_diagnostics eventKind fieldname T v).
Proof.
  intros H. unfold checkValueType, located, type_diagnostics. rewrite H.
  destruct (narrow T (data v)); simpl.
  - unfold ret. rewrite app_nil_r. reflexivity.
  - reflexivity.
Qed.

Lemma number_eqb_eq a b : number_eqb a b = true <-> a = b.
Proof.
  destruct a, b; simpl; split; try discriminate; try reflexivity.
  - intros H. apply Z.eqb_eq in H. subst. reflexivity.
  - intros H. injection H as ->. apply Z.eqb_refl.
Qed.

Lemma existsb_number_In n set : existsb (number_eqb n) set = true <-> In n set.
Proof.
  rewrite existsb_exists. split.
  - intros (x & I & E). apply number_eqb_eq in E. subst. exact I.
  - intros I. exists n. split; [exact I|]. apply number_eqb_eq. reflexivity.
Qed.

Lemma trackId_run eventKind fieldname r errors :
  (forall i, r = Some i -> Number_isInteger (int_value (data i)) = true) ->
  parseValue.trackId eventKind fieldname r errors =
    Normal (trackId_of r)
      (errors ++ int_range_diagnostics eventKind fieldname affTrackIds r).
Proof.
  intros H. destruct r as [i|]; [|simpl; unfold ret; rewrite app_nil_r; reflexivity].
  specialize (H i eq_refl). unfold parseValue.trackId, trackId_of, int_range_diagnostics.
  rewrite H. cbv beta iota delta [negb].
  destruct (int_value (data i)) as [z| | |] eqn:E; try discriminate H.
  destruct (existsb (number_eqb (Integer z)) affTrackIds) eqn:S.
  - apply existsb_number_In, between_1_4 in S. rewrite S.
    unfold ret. rewrite app_nil_r. reflexivity.
  - destruct (_ || _) eqn:R; [reflexivity|].
    apply between_1_4, existsb_number_In in R. rewrite R in S. discriminate S.
Qed.

Lemma colorId_run eventKind fieldname r errors :
  (forall i, r = Some i -> Number_isInteger (int_value (data i)) = true) ->
  parseValue.colorId eventKind fieldname r errors =
    Normal (colorId_of r)
      (errors ++ int_range_diagnostics eventKind fieldname affColorIds r).
Proof.
  intros H. destruct r as [i|]; [|simpl; unfold ret; rewrite app_nil_r; reflexivity].
  specialize (H i eq_refl). unfold parseValue.colorId, colorId_of, int_range_diagnostics.
  rewrite H. cbv beta iota delta [negb].
  destruct (int_value (data i)) as [z| | |] eqn:E; try discriminate H.
  destruct (existsb (number_eqb (Integer z)) affColorIds) eqn:S.
  - apply existsb_number_In, between_0_2 in S. rewrite S.
    unfold ret. rewrite app_nil_r. reflexivity.
  - destruct (_ || _) eqn:R; [reflexivity|].
    apply between_0_2, existsb_number_In in R. rewrite R in S. discriminate S.
Qed.

Lemma arcKind_run eventKind fieldname r errors :
  parseValue.arcKind eventKind fieldname r errors =
    Normal (arcKind_of r)
      (errors ++ word_range_diagnostics eventKind fieldname affArcKinds r).
Proof.
  destruct r as [w|]; [|simpl; unfold ret; rewrite app_nil_r; reflexivity].
  unfold parseValue.arcKind, arcKind_of, word_range_diagnostics.
  destruct (Set_has affArcKinds (word_value (data w))); simpl; [|reflexivity].
  unfold ret. rewrite app_nil_r. reflexivity.
Qed.

Lemma effect_run eventKind fieldname r errors :
  parseValue.effect eventKind fieldname r errors =
    Normal (effect_of r)
      (errors ++ word_range_diagnostics eventKind fieldname affEffects r).
Proof.
  destruct r as [w|]; [|simpl; unfold ret; rewrite app_nil_r; reflexivity].
  unfold parseValue.effect, effect_of, word_range_diagnostics.
  destruct (Set_has affEffects (word_value (data w))); simpl; [|reflexivity].
  unfold ret. rewrite app_nil_r. reflexivity.
Qed.

Lemma bool_run eventKind fieldname r errors :
  parseValue.bool eventKind fieldname r errors =
    Normal (bool_of r)
      (errors ++ word_range_diagnostics eventKind fieldname affBools r).
Proof.
  destruct r as [w|]; [|simpl; unfold ret; rewrite app_nil_r; reflexivity].
  unfold parseValue.bool, bool_of, word_range_diagnostics.
  destruct (Set_has affBools (word_value (data w))); simpl; [|reflexivity].
  unfold ret. rewrite app_nil_r. reflexivity.
Qed.

(** A field that gives a value has no diagnostic; one that gives none has
    some. *)
Lemma int_field_Some v d :
  located kind_int v = Some d -> forall ek fn, field_diagnostics ek fn F_int v = [].
Proof.
  unfold located, field_diagnostics, type_diagnostics. cbn [field_kind].
  destruct (narrow kind_int (data v)); [reflexivity|discriminate].
Qed.

Lemma int_field_None v :
  located kind_int v = None -> forall ek fn, field_diagnostics ek fn F_int v <> [].
Proof.
  unfold located, field_diagnostics, type_diagnostics. cbn [field_kind].
  destruct (narrow kind_int (data v)); [discriminate|]. intros _ ek fn. discriminate.
Qed.

Lemma float_field_Some v d :
  located kind_float v = Some d -> forall ek fn, field_diagnostics ek fn F_float v = [].
Proof.
  unfold located, field_diagnostics, type_diagnostics. cbn [field_kind].
  destruct (narrow kind_float (data v)); [reflexivity|discriminate].
Qed.

Lemma float_field_None v :
  located kind_float v = None -> forall ek fn, field_diagnostics ek fn F_float v <> [].
Proof.
  unfold located, field_diagnostics, type_diagnostics. cbn [field_kind].
  destruct (narrow kind_float (data v)); [discriminate|]. intros _ ek fn. discriminate.
Qed.

Ltac range_field_Some :=
  unfold field_diagnostics, type_diagnostics,
    int_range_diagnostics, word_range_diagnostics,
    trackId_of, colorId_of, arcKind_of, effect_of, bool_of;
  unfold located;
  cbn [field_kind];
  match goal with
  | |- context [narrow ?T (data ?v)] => destruct (narrow T (data v)); cbn [option_map]
  end;
  [|discriminate];
  match goal with
  | |- context [if ?b then _ else _] => destruct b
  end;
  [reflexivity|discriminate].

Ltac range_field_None :=
  unfold field_diagnostics, type_diagnostics,
    int_range_diagnostics, word_range_diagnostics,
    trackId_of, colorId_of, arcKind_of, effect_of, bool_of;
  unfold located;
  cbn [field_kind];
  match goal with
  | |- context [narrow ?T (data ?v)] => destruct (narrow T (data v)); cbn [option_map]
  end;
  [|intros _ ek fn; discriminate];
  match goal with
  | |- context [if ?b then _ else _] => destruct b
  end;
  [discriminate|intros _ ek fn; discriminate].

Lemma trackId_field_Some v t :
  trackId_of (located kind_int v) = Some t ->
  forall ek fn, field_diagnostics ek fn F_trackId v = [].
Proof. range_field_Some. Qed.

Lemma trackId_field_None v :
  trackId_of (located kind_int v) = None ->
  forall ek fn, field_diagnostics ek fn F_trackId v <> [].
Proof. range_field_None. Qed.

Lemma colorId_field_Some v t :
  colorId_of (located kind_int v) = Some t ->
  forall ek fn, field_diagnostics ek fn F_colorId v = [].
Proof. range_field_Some. Qed.

Lemma colorId_field_None v :
  colorId_of (located kind_int v) = None ->
  forall ek fn, field_diagnostics ek fn F_colorId v <> [].
Proof. range_field_None. Qed.

Lemma arcKind_field_Some v t :
  arcKind_of (located kind_word v) = Some t ->
  forall ek fn, field_diagnostics ek fn F_arcKind v = [].
Proof. range_field_Some. Qed.

Lemma arcKind_field_None v :
  arcKind_of (located kind_word v) = None ->
  forall ek fn, field_diagnostics ek fn F_arcKind v <> [].
Proof. range_field_None. Qed.

Lemma effect_field_Some v t :
  effect_of (located kind_word v) = Some t ->
  forall ek fn, field_diagnostics ek fn F_effect v = [].
Proof. range_field_Some. Qed.

Lemma effect_field_None v :
  effect_of (located kind_word v) = None ->
  forall ek fn, field_diagnostics ek fn F_effect v <> [].
Proof. range_field_None. Qed.

Lemma bool_field_Some v t :
  bool_of (located kind_word v) = Some t ->
  forall ek fn, field_diagnostics ek fn F_bool v = [].
Proof. range_field_Some. Qed.

Lemma bool_field_None v :
  bool_of (located kind_word v) = None ->
  forall ek fn, field_diagnostics ek fn F_bool v <> [].
Proof. range_field_None. Qed.

Lemma integral_located f v :
  f = F_trackId \/ f = F_colorId -> integral f v ->
  forall i, located kind_int v = Some i -> Number_isInteger (int_value (data i)) = true.
Proof.
  unfold integral, located. intros F H i.
  destruct (data v) as [x|x|x]; cbn [narrow option_map]; try discriminate.
  intros E. injection E as <-. cbn [data]. destruct F as [-> | ->]; exact H.
Qed.

(** Runs the steps of a transformer on any literals. *)
Ltac run_steps :=
  repeat (erewrite bind_run;
          [|first [ apply rejectSubevent_Normal
                  | apply checkValuesCount_ok; reflexivity
                  | apply checkValueType_run; reflexivity
                  | apply trackId_run; apply (integral_located F_trackId);
                    [left; reflexivity|assumption]
                  | apply colorId_run; apply (integral_located F_colorId);
                    [right; reflexivity|assumption]
                  | apply arcKind_run
                  | apply effect_run
                  | apply bool_run ]];
          cbv beta iota delta [negb]).

(** Turns the equation of a field's value into what it says of the
    diagnostics of the field. *)
Ltac field_fact E :=
  first [ generalize (int_field_Some _ _ E) | generalize (int_field_None _ E)
        | generalize (float_field_Some _ _ E) | generalize (float_field_None _ E)
        | generalize (trackId_field_Some _ _ E) | generalize (trackId_field_None _ E)
        | generalize (colorId_field_Some _ _ E) | generalize (colorId_field_None _ E)
        | generalize (arcKind_field_Some _ _ E) | generalize (arcKind_field_None _ E)
        | generalize (effect_field_Some _ _ E) | generalize (effect_field_None _ E)
        | generalize (bool_field_Some _ _ E) | generalize (bool_field_None _ E) ];
  clear E; intro E.

Ltac same_diagnostics :=
  unfold ret; f_equal;
  try unfold arc_tail;
  cbn [fields_diagnostics field_names fields];
  unfold field_diagnostics; cbn [field_kind];
  rewrite <- ?app_assoc; cbn [app]; rewrite ?app_nil_r; rewrite <- ?app_assoc;
  reflexivity.

Ltac some_diagnostic :=
  cbn [fields_diagnostics field_names fields];
  let H := fresh "H" in
  intro H;
  repeat match type of H with
         | (_ ++ _ = []) =>
             let H1 := fresh "H" in
             apply app_eq_nil in H; destruct H as [H1 H]
         end;
  match goal with
  | N : forall ek fn, field_diagnostics ek fn ?f ?v <> [],
    H1 : field_diagnostics ?e ?n ?f ?v = [] |- _ => exact (N e n H1)
  end.

Ltac no_diagnostic :=
  cbn [fields_diagnostics field_names fields];
  repeat match goal with
         | S : forall ek fn, field_diagnostics ek fn _ _ = [] |- _ => rewrite S; clear S
         end;
  reflexivity.

(** Concludes when a field gave no value. *)
Ltac field_failed :=
  exists None; split;
  [same_diagnostics
  |split; [intros _; some_diagnostic|reflexivity]].

(** Case analysis on the value of the next field. *)
Ltac next_field :=
  match goal with
  | |- ex (fun e => ?lhs = @?rhs e /\ @?rest e) =>
      lazymatch lhs with
      | (match ?o with Some _ => _ | None => _ end) _ =>
          let E := fresh "E" in
          destruct o eqn:E; field_fact E; [|field_failed]
      end
  end.

Lemma tap_diagnostics values l subevents errors :
  List.length values = 2%nat ->
  Forall2 integral (fields KTap) values ->
  exists e,
    eventTransformer.tap values l subevents errors =
      Normal e (errors ++ subevents_rejection KTap subevents
                ++ fields_diagnostics "tap" (field_names KTap) (fields KTap) values)
    /\ (e = None <->
        fields_diagnostics "tap" (field_names KTap) (fields KTap) values <> []).
Proof.
  intros L I. destruct values as [|v0 [|v1 [|? ?]]]; try discriminate L.
  inversion I as [|? ? ? ? I0 I']; subst. inversion I' as [|? ? ? ? I1 _]; subst.
  unfold eventTransformer.tap. run_steps.
  repeat next_field.
  eexists. split; [same_diagnostics|].
  split; [discriminate|]. intros H. contradiction H. no_diagnostic.
Qed.

Lemma hold_diagnostics values l subevents tag errors :
  List.length values = 3%nat ->
  Forall2 integral (fields KHold) values ->
  exists e,
    eventTransformer.hold values l subevents tag errors =
      Normal e (errors ++ subevents_rejection KHold subevents
                ++ fields_diagnostics "hold" (field_names KHold) (fields KHold) values)
    /\ (e = None <->
        fields_diagnostics "hold" (field_names KHold) (fields KHold) values <> []).
Proof.
  intros L I. destruct values as [|v0 [|v1 [|v2 [|? ?]]]]; try discriminate L.
  repeat match goal with
         | I : Forall2 integral _ (_ :: _) |- _ => inversion I; subst; clear I
         end.
  unfold eventTransformer.hold. run_steps.
  repeat next_field.
  eexists. split; [same_diagnostics|].
  split; [discriminate|]. intros H. contradiction H. no_diagnostic.
Qed.

Lemma arctap_diagnostics values l subevents tag errors :
  List.length values = 1%nat ->
  exists e,
    eventTransformer.arctap values l subevents tag errors =
      Normal e (errors ++ subevents_rejection KArctap subevents
                ++ fields_diagnostics "arctap" (field_names KArctap) (fields KArctap) values)
    /\ (e = None <->
        fields_diagnostics "arctap" (field_names KArctap) (fields KArctap) values <> []).
Proof.
  intros L. destruct values as [|v0 [|? ?]]; try discriminate L.
  unfold eventTransformer.arctap. run_steps.
  repeat next_field.
  eexists. split; [same_diagnostics|].
  split; [discriminate|]. intros H. contradiction H. no_diagnostic.
Qed.

Lemma timing_diagnostics values l subevents tag errors :
  List.length values = 3%nat ->
  exists e,
    eventTransformer.timing values l subevents tag errors =
      Normal e (errors ++ subevents_rejection KTiming subevents
                ++ fields_diagnostics "timing" (field_names KTiming) (fields KTiming) values)
    /\ (e = None <->
        fields_diagnostics "timing" (field_names KTiming) (fields KTiming) values <> []).
Proof.
  intros L. destruct values as [|v0 [|v1 [|v2 [|? ?]]]]; try discriminate L.
  unfold eventTransformer.timing. run_steps.
  repeat next_field.
  eexists. split; [same_diagnostics|].
  split; [discriminate|]. intros H. contradiction H. no_diagnostic.
Qed.

Lemma arc_diagnostics values l subevents tag errors :
  List.length values = 10%nat ->
  Forall2 integral (fields KArc) values ->
  exists e,
    eventTransformer.arc values l subevents tag errors =
      Normal e (errors
                ++ fields_diagnostics "arc" (field_names KArc) (fields KArc) values
                ++ arc_tail e subevents)
    /\ (e = None <->
        fields_diagnostics "arc" (field_names KArc) (fields KArc) values <> []).
Proof.
  intros L I.
  destruct values as [|v0 [|v1 [|v2 [|v3 [|v4 [|v5 [|v6 [|v7 [|v8 [|v9 [|? ?]]]]]]]]]]];
    try discriminate L.
  repeat match goal with
         | I : Forall2 integral _ (_ :: _) |- _ => inversion I; subst; clear I
         end.
  unfold eventTransformer.arc. run_steps.
  repeat next_field.
  destruct subevents as [s|]; unfold bind.
  - rewrite transformArcSubevents_Normal.
    eexists. split; [same_diagnostics|].
    split; [discriminate|]. intros H. contradiction H. no_diagnostic.
  - eexists. split; [same_diagnostics|].
    split; [discriminate|]. intros H. contradiction H. no_diagnostic.
Qed.

Lemma field_diagnostics_case eventKind fieldname f v :
  field_case eventKind fieldname f v.
Proof.
  unfold field_case, field_diagnostics, type_diagnostics, field_ok,
    int_range_diagnostics, word_range_diagnostics.
  unfold located.
  destruct f, (data v) as [i|x|w]; cbn [field_kind narrow value_kind option_map app data location];
    try (left; split; [exact I|reflexivity]);
    try (right; left; split; [discriminate|reflexivity]).
  - destruct (existsb _ affTrackIds) eqn:E.
    + left. split; [exact (proj1 (existsb_number_In _ _) E)|reflexivity].
    + right. right. split; [reflexivity|]. split; [|reflexivity].
      intros H. apply existsb_number_In in H. rewrite H in E. discriminate E.
  - destruct (existsb _ affColorIds) eqn:E.
    + left. split; [exact (proj1 (existsb_number_In _ _) E)|reflexivity].
    + right. right. split; [reflexivity|]. split; [|reflexivity].
      intros H. apply existsb_number_In in H. rewrite H in E. discriminate E.
  - destruct (Set_has affArcKinds (word_value w)) eqn:E.
    + left. split; [exact (proj1 (Set_has_In _ _) E)|reflexivity].
    + right. right. split; [reflexivity|]. split; [|reflexivity].
      intros H. apply Set_has_In in H. rewrite H in E. discriminate E.
  - destruct (Set_has affEffects (word_value w)) eqn:E.
    + left. split; [exact (proj1 (Set_has_In _ _) E)|reflexivity].
    + right. right. split; [reflexivity|]. split; [|reflexivity].
      intros H. apply Set_has_In in H. rewrite H in E. discriminate E.
  - destruct (Set_has affBools (word_value w)) eqn:E.
    + left. split; [exact (proj1 (Set_has_In _ _) E)|reflexivity].
    + right. right. split; [reflexivity|]. split; [|reflexivity].
      intros H. apply Set_has_In in H. rewrite H in E. discriminate E.
Qed.

Lemma transformer_run k values l subevents tag errors :
  List.length values = value_count k ->
  Forall2 integral (fields k) values ->
  exists r,
    transformer k values l subevents tag errors =
      Normal r (errors ++ subevents_rejection k subevents
                ++ fields_diagnostics (kind_name k) (field_names k) (fields k) values
                ++ arc_subevents_diagnostics k subevents r)
    /\ (r = None <->
        fields_diagnostics (kind_name k) (field_names k) (fields k) values <> []).
Proof.
  intros L I.
  destruct k; unfold transformer; cbn [kind_name arc_subevents_diagnostics].
  - destruct (tap_diagnostics values l subevents errors L I) as (e & E & N).
    exists (option_map (fun e => Item (Tap e)) e).
    rewrite (bind_run _ _ _ _ _ E). unfold ret. rewrite !app_nil_r. split; [reflexivity|].
    rewrite <- N. destruct e; split; intros; try discriminate; reflexivity.
  - destruct (hold_diagnostics values l subevents tag errors L I) as (e & E & N).
    exists (option_map (fun e => Item (Hold e)) e).
    rewrite (bind_run _ _ _ _ _ E). unfold ret. rewrite !app_nil_r. split; [reflexivity|].
    rewrite <- N. destruct e; split; intros; try discriminate; reflexivity.
  - destruct (arctap_diagnostics values l subevents tag errors L) as (e & E & N).
    exists (option_map Arctap e).
    rewrite (bind_run _ _ _ _ _ E). unfold ret. rewrite !app_nil_r. split; [reflexivity|].
    rewrite <- N. destruct e; split; intros; try discriminate; reflexivity.
  - destruct (timing_diagnostics values l subevents tag errors L) as (e & E & N).
    exists (option_map (fun e => Item (Timing e)) e).
    rewrite (bind_run _ _ _ _ _ E). unfold ret. rewrite !app_nil_r. split; [reflexivity|].
    rewrite <- N. destruct e; split; intros; try discriminate; reflexivity.
  - destruct (arc_diagnostics values l subevents tag errors L I) as (e & E & N).
    exists (option_map (fun e => Item (Arc e)) e).
    rewrite (bind_run _ _ _ _ _ E). unfold ret. split; [destruct e; reflexivity|].
    rewrite <- N. destruct e; split; intros; try discriminate; reflexivity.
Qed.

(** X1. On the right number of values, and when the integers given to the
    parsers of track and color ids are integers, a transformer never stops at
    the first invalid field: it returns, after the diagnostics it was given and
    the rejection of a subevents clause, the diagnostics of all its fields in
    the order of the fields, then, for an arc that is built, those on the kinds
    of its sub-events.  It returns no event exactly when some field has a
    diagnostic.  A field has no diagnostic when it is valid, one type error
    (and no range error) when its literal is of the wrong kind, one range
    error when the literal is of the right kind and outside the set. *)
Theorem transformer_diagnostics
    (k : EventKind) (values : list (WithLocation AFFValue)) (l : CstNodeLocation)
    (subevents : Subevents) (tag : CstNodeLocation) (errors : list AFFError) :
  List.length values = value_count k ->
  Forall2 integral (fields k) values ->
  (exists r,
      transformer k values l subevents tag errors =
        Normal r (errors ++ subevents_rejection k subevents
                  ++ fields_diagnostics (kind_name k) (field_names k) (fields k) values
                  ++ arc_subevents_diagnostics k subevents r)
      /\ (r = None <->
          fields_diagnostics (kind_name k) (field_names k) (fields k) values <> []))
  /\ (forall fieldname f v, field_case (kind_name k) fieldname f v).
Proof.
  intros L I. split.
  - apply transformer_run; assumption.
  - intros. apply field_diagnostics_case.
Qed.

Lemma transformer_diagnostics_witness :
  transformer KTap bad_tap_values (Sample.loc 1 6) None (Sample.loc 0 0) [] =
    Normal None [type_error "tap" "time" kind_int (Sample.float "1.50" 1);
                 range_error "tap" "track-id" ["1"; "2"; "3"; "4"] (Sample.loc 6 6)].
Proof.
  destruct (proj1 (transformer_diagnostics KTap bad_tap_values (Sample.loc 1 6) None
                     (Sample.loc 0 0) [] eq_refl
                     ltac:(repeat constructor))) as (r & E & N).
  rewrite E. f_equal.
  destruct r as [e|]; [|reflexivity].
  assert (D : Some e = None) by (apply N; vm_compute; discriminate).
  discriminate D.
Defined.

(** X2. An arc that is not built says nothing of its sub-events: with a wrong
    number of values, or with a field that has a diagnostic, the transformer of
    arcs does with a subevents clause exactly what it does without. *)
Theorem arc_not_built_ignores_subevents
    (values : list (WithLocation AFFValue)) (l : CstNodeLocation)
    (s : WithLocation (list (WithLocation AFFEvent))) (tag : CstNodeLocation)
    (errors : list AFFError) :
  List.length values <> 10%nat
  \/ (Forall2 integral (fields KArc) values
      /\ fields_diagnostics "arc" (field_names KArc) (fields KArc) values <> []) ->
  eventTransformer.arc values l (Some s) tag errors =
    eventTransformer.arc values l None tag errors.
Proof.
  intros [L|[I D]].
  - unfold eventTransformer.arc.
    rewrite !(bind_run _ _ _ _ _ (checkValuesCount_mismatch _ _ _ _ _ L)). reflexivity.
  - assert (L : List.length values = 10%nat) by (apply Forall2_length in I; rewrite <- I; reflexivity).
    destruct (arc_diagnostics values l (Some s) tag errors L I) as (e & E & N).
    destruct (arc_diagnostics values l None tag errors L I) as (e' & E' & N').
    apply N in D as ->. rewrite E, E'.
    assert (e' = None) as -> by (apply N'; apply N; reflexivity). reflexivity.
Qed.

Lemma arc_not_built_ignores_subevents_witness :
  eventTransformer.arc bad_arc_values (Sample.loc 4 44) (Some Sample.subevents)
    (Sample.loc 0 2) [] =
  Normal None [type_error "arc" "arc-kind" kind_word (Sample.int 3 22);
               range_error "arc" "color-id" ["0"; "1"; "2"] (Sample.loc 34 34)].
Proof.
  rewrite (arc_not_built_ignores_subevents bad_arc_values (Sample.loc 4 44)
             Sample.subevents (Sample.loc 0 2) []).
  - vm_compute. reflexivity.
  - right. split; [repeat constructor|]. vm_compute. discriminate.
Defined.

(** ** When the pass returns and when it throws *)

Lemma mapM_total {A B} (f : A -> Visitor B) (l : list A) :
  Forall (fun a => forall errors, exists r errors', f a errors = Normal r errors') l ->
  forall errors, exists rs errors', mapM f l errors = Normal rs errors'.
Proof.
  induction 1 as [|a rest Ha _ IH]; intros errors; cbn [mapM].
  - eexists. eexists. reflexivity.
  - destruct (Ha errors) as (r & e1 & Hr). rewrite (bind_run _ _ _ _ _ Hr).
    destruct (IH e1) as (rs & e2 & Hrs). rewrite (bind_run _ _ _ _ _ Hrs).
    eexists. eexists. reflexivity.
Qed.

Lemma mapM_throws {A B} (f : A -> Visitor B) (l : list A) :
  Exists (fun a => forall errors, exists reason, f a errors = Throw reason) l ->
  forall errors, exists reason, mapM f l errors = Throw reason.
Proof.
  induction l as [|a rest IH]; intros E errors; [inversion E|].
  cbn [mapM]. unfold bind at 1. destruct (f a errors) as [r e1|reason] eqn:F.
  - inversion E as [? ? Ha|? ? Hrest]; subst.
    + destruct (Ha errors) as (reason & T). rewrite T in F. discriminate F.
    + unfold bind at 1. destruct (IH Hrest e1) as (reason & T). rewrite T.
      exists reason. reflexivity.
  - exists reason. reflexivity.
Qed.

Lemma values_total ctx errors :
  Forall token_lexed (ctx_value ctx) ->
  exists vs,
    ToASTVisitor.values ctx errors = Normal vs errors
    /\ Forall2 value_of_token (ctx_value ctx) vs
    /\ Forall int_integral vs.
Proof.
  unfold ToASTVisitor.values. intros L. revert errors.
  induction L as [|token rest T _ IH]; intros errors; cbn [mapM].
  - exists []. repeat split; constructor.
  - destruct (IH errors) as (vs & R & V & I).
    unfold token_lexed in T. unfold bind at 1. unfold bind at 1.
    destruct (tokenType token) eqn:K; try contradiction T; cbn [ret];
      unfold bind at 1; rewrite R; cbn [ret];
      eexists; (split; [reflexivity|]);
      (split; [constructor; [|exact V]|constructor; [|exact I]]);
      unfold value_of_token, int_integral; cbn [data location]; try rewrite K;
      try (split; reflexivity); try exact Logic.I; try exact T.
Qed.

Lemma values_throws ctx errors :
  Exists token_unknown (ctx_value ctx) ->
  ToASTVisitor.values ctx errors = Throw "unknown token type [object Object]".
Proof.
  unfold ToASTVisitor.values. intros E. revert errors.
  induction E as [token rest (name & K)|token rest _ IH]; intros errors; cbn [mapM].
  - unfold bind at 1. unfold bind at 1. rewrite K. reflexivity.
  - unfold bind at 1. unfold bind at 1.
    destruct (tokenType token); try reflexivity; cbn [ret];
      unfold bind at 1; rewrite IH; reflexivity.
Qed.

Lemma integral_fields fs :
  forall values,
    Forall int_integral values -> List.length values = List.length fs ->
    Forall2 integral fs values.
Proof.
  induction fs as [|f fs IH]; intros [|v values] I L; try discriminate L; constructor.
  - inversion I as [|? ? Iv _]; subst. unfold integral, int_integral in *.
    destruct f, (data v); try exact Logic.I; exact Iv.
  - inversion I; subst. apply IH; [assumption|]. injection L as L. exact L.
Qed.

Lemma transformer_total k values l subevents tag errors :
  Forall int_integral values ->
  exists r errors', transformer k values l subevents tag errors = Normal r errors'.
Proof.
  intros I. destruct (Nat.eq_dec (List.length values) (value_count k)) as [L|L].
  - assert (F : List.length values = List.length (fields k))
      by (rewrite L; destruct k; reflexivity).
    destruct (transformer_run k values l subevents tag errors L
                (integral_fields _ _ I F)) as (r & E & _).
    eexists. eexists. exact E.
  - eexists. eexists. apply transformer_mismatch. exact L.
Qed.

Lemma event_total ctx :
  Forall token_lexed (event_tokens ctx) ->
  forall errors, exists r errors', ToASTVisitor.event ctx errors = Normal r errors'.
Proof.
  induction ctx as [v sub w l IH] using EventNode_nested_ind.
  cbn [event_tokens]. intros T errors. apply Forall_app in T. destruct T as [Tv Ts].
  rewrite event_unfold.
  destruct (values_total v errors Tv) as (vs & V & _ & I).
  rewrite (bind_run _ _ _ _ _ V).
  assert (S : exists s errors1,
             match sub with
             | Some node =>
                 (s <- ToASTVisitor.subevents node ;;
                  ret (Some {| data := s;
                               location := match node with
                                           | mkSubeventsNode _ l => l
                                           end |}))%visitor
             | None => ret None
             end errors = Normal s errors1).
  { destruct sub as [[events sl]|]; [|eexists; eexists; reflexivity].
    cbn [ToASTVisitor.subevents].
    apply Forall_flat_map in Ts.
    assert (M : Forall (fun node => forall errors, exists r errors',
                          (e <- ToASTVisitor.event node ;;
                           ret {| data := e; location := event_location node |})%visitor
                            errors = Normal r errors') events).
    { rewrite Forall_forall in *. intros node N errors0.
      destruct (IH node N (Ts node N) errors0) as (r & e1 & R).
      rewrite (bind_run _ _ _ _ _ R). eexists. eexists. reflexivity. }
    destruct (mapM_total (fun node => (e <- ToASTVisitor.event node ;;
                                         ret {| data := e; location := event_location node |})%visitor)
                events M errors) as (rs & e1 & R).
    unfold bind at 1. unfold bind at 1. rewrite R. eexists. eexists. reflexivity. }
  destruct S as (s & errors1 & S). rewrite (bind_run _ _ _ _ _ S).
  destruct w as [tag|]; [|apply transformer_total; exact I].
  repeat match goal with
         | |- exists r errors', (if ?b then _ else _) _ = _ =>
             destruct b; [apply transformer_total; exact I|]
         end.
  eexists. eexists. reflexivity.
Qed.

Lemma event_throws ctx :
  Exists token_unknown (event_tokens ctx) ->
  forall errors, exists reason, ToASTVisitor.event ctx errors = Throw reason.
Proof.
  induction ctx as [v sub w l IH] using EventNode_nested_ind.
  cbn [event_tokens]. intros U errors. rewrite event_unfold.
  unfold bind at 1.
  destruct (ToASTVisitor.values v errors) as [vs e1|reason] eqn:V;
    [|exists reason; reflexivity].
  apply Exists_app in U. destruct U as [U|U].
  { rewrite (values_throws v errors U) in V. discriminate V. }
  destruct sub as [[events sl]|]; [|inversion U].
  apply Exists_flat_map in U.
  assert (M : Exists (fun node => forall errors, exists reason,
                        (e <- ToASTVisitor.event node ;;
                         ret {| data := e; location := event_location node |})%visitor
                          errors = Throw reason) events).
  { rewrite Exists_exists in *. destruct U as (node & N & Un).
    rewrite Forall_forall in IH. exists node. split; [exact N|]. intros errors0.
    destruct (IH node N Un errors0) as (reason & R).
    exists reason. unfold bind. rewrite R. reflexivity. }
  destruct (mapM_throws (fun node => (e <- ToASTVisitor.event node ;;
                                         ret {| data := e; location := event_location node |})%visitor)
              events M e1) as (reason & R).
  exists reason. cbn [ToASTVisitor.subevents].
  unfold bind at 1. unfold bind at 1. unfold bind at 1. rewrite R. reflexivity.
Qed.

Lemma item_total ctx :
  Forall token_lexed (event_tokens (ctx_item_event ctx)) ->
  forall errors, exists r errors', ToASTVisitor.item ctx errors = Normal r errors'.
Proof.
  intros T errors. unfold ToASTVisitor.item.
  destruct (event_total _ T errors) as (r & e1 & R). rewrite (bind_run _ _ _ _ _ R).
  destruct r as [[i|a]|]; eexists; eexists; reflexivity.
Qed.

Lemma item_throws ctx :
  Exists token_unknown (event_tokens (ctx_item_event ctx)) ->
  forall errors, exists reason, ToASTVisitor.item ctx errors = Throw reason.
Proof.
  intros U errors. destruct (event_throws _ U errors) as (reason & R).
  exists reason. unfold ToASTVisitor.item, bind. rewrite R. reflexivity.
Qed.

(** X3. On a parse tree whose value tokens are all words, integers or
    floats, and whose integer tokens are read by [parseInt] as integers, the
    pass returns a file and a list of diagnostics: whatever else is wrong
    with the tree (counts, kinds, values, tags, sub-events, duplicate keys),
    it does not throw. *)
Theorem lowering_returns (aff : AffNode) :
  Forall token_lexed (aff_tokens aff) ->
  exists file errors, affToAST aff = Normal file errors.
Proof.
  intros T. unfold affToAST, ToASTVisitor.aff.
  destruct (metadata_Normal (ctx_metadata aff) []) as (m & M & _).
  rewrite (bind_run _ _ _ _ _ M).
  unfold aff_tokens in T. apply Forall_flat_map in T.
  assert (I : Forall (fun node => forall errors, exists r errors',
                        ToASTVisitor.item node errors = Normal r errors')
                (ctx_item (ctx_items aff))).
  { revert T. apply Forall_impl. intros node. apply item_total. }
  destruct (mapM_total ToASTVisitor.item _ I ([] ++ errors_citing_first (ctx_metadataEntry (ctx_metadata aff))))
    as (rs & e1 & R).
  unfold ToASTVisitor.items. unfold bind at 1. unfold bind at 1. rewrite R.
  eexists. eexists. reflexivity.
Qed.

Lemma lowering_returns_witness :
  exists file errors, affToAST SampleCst.aff_node = Normal file errors.
Proof.
  apply (lowering_returns SampleCst.aff_node).
  repeat constructor.
Defined.

(** X4. A value token that is neither a word, nor an integer, nor a float,
    anywhere in the items of the tree, under sub-events as well, makes the pass
    throw: no file is returned and the diagnostics found so far are lost. *)
Theorem unknown_token_aborts (aff : AffNode) :
  Exists token_unknown (aff_tokens aff) ->
  exists reason, affToAST aff = Throw reason.
Proof.
  intros U. unfold affToAST, ToASTVisitor.aff.
  destruct (metadata_Normal (ctx_metadata aff) []) as (m & M & _).
  rewrite (bind_run _ _ _ _ _ M).
  unfold aff_tokens in U. apply Exists_flat_map in U.
  assert (I : Exists (fun node => forall errors, exists reason,
                        ToASTVisitor.item node errors = Throw reason)
                (ctx_item (ctx_items aff))).
  { revert U. apply Exists_impl. intros node. apply item_throws. }
  destruct (mapM_throws ToASTVisitor.item _ I ([] ++ errors_citing_first (ctx_metadataEntry (ctx_metadata aff))))
    as (reason & R).
  exists reason. unfold ToASTVisitor.items, bind. rewrite R. reflexivity.
Qed.

Lemma unknown_token_aborts_witness :
  exists reason, affToAST unknown_token_aff = Throw reason.
Proof.
  apply (unknown_token_aborts unknown_token_aff).
  do 3 apply Exists_cons_tl. apply Exists_cons_hd. exists "lparen". reflexivity.
Defined.

(** ** Items are lowered one by one *)

Lemma mapM_alone {A B} (f : A -> Visitor B) (l : list A) (rds : list (B * list AFFError)) :
  (forall a, appends (f a)) ->
  Forall2 (fun a rd => f a [] = Normal (fst rd) (snd rd)) l rds ->
  forall errors,
    mapM f l errors = Normal (map fst rds) (errors ++ List.concat (map snd rds)).
Proof.
  intros Hf H. induction H as [|a [r d] l rds Ha _ IH]; intros errors; cbn [mapM map List.concat].
  - unfold ret. rewrite app_nil_r. reflexivity.
  - cbn [fst snd] in *.
    rewrite (bind_run _ _ _ _ _ (appends_run _ errors _ _ (Hf a) Ha)).
    rewrite (bind_run _ _ _ _ _ (IH _)). unfold ret. rewrite app_assoc. reflexivity.
Qed.

(** X5. The items of a tree are lowered independently of each other and of the
    metadata: when each item node, lowered alone, returns an item or none and
    its diagnostics, the file has the items returned, in the order of the
    nodes, and the diagnostics of the whole tree are those of the metadata
    followed by those of each node, in the order of the nodes. *)
Theorem lowering_by_parts (aff : AffNode)
    (parts : list (option (WithLocation AFFItem) * list AFFError)) :
  Forall2 (fun node part => ToASTVisitor.item node [] = Normal (fst part) (snd part))
    (ctx_item (ctx_items aff)) parts ->
  exists m,
    ToASTVisitor.metadata (ctx_metadata aff) [] =
      Normal m (errors_citing_first (ctx_metadataEntry (ctx_metadata aff)))
    /\ affToAST aff =
         Normal {| file_metadata := {| data := m;
                                       location := metadata_location (ctx_metadata aff) |};
                   file_items := filter_not_null (map fst parts) |}
                (errors_citing_first (ctx_metadataEntry (ctx_metadata aff))
                 ++ List.concat (map snd parts)).
Proof.
  intros P. destruct (metadata_Normal (ctx_metadata aff) []) as (m & M & _).
  eexists. split; [exact M|].
  unfold affToAST, ToASTVisitor.aff. rewrite (bind_run _ _ _ _ _ M).
  unfold ToASTVisitor.items. unfold bind at 1. unfold bind at 1.
  rewrite (mapM_alone ToASTVisitor.item _ _ item_appends P). reflexivity.
Qed.

Lemma lowering_by_parts_witness :
  exists file,
    affToAST SampleCst.aff_node =
      Normal file
        (errors_citing_first (ctx_metadataEntry SampleCst.metadata_node)
         ++ [] ++ [] ++ [arctap_item_error (Sample.loc 0 5)]
         ++ [range_error "tap" "track-id" ["1"; "2"; "3"; "4"] (Sample.loc 5 5)]).
Proof.
  destruct (lowering_by_parts SampleCst.aff_node
              [ (match ToASTVisitor.item
                         {| ctx_item_event := SampleCst.timing_node;
                            item_location := Sample.loc 0 20 |} [] with
                 | Normal r _ => r
                 | Throw _ => None
                 end, []);
                (match ToASTVisitor.item
                         {| ctx_item_event := SampleCst.tap_node "2";
                            item_location := Sample.loc 0 7 |} [] with
                 | Normal r _ => r
                 | Throw _ => None
                 end, []);
                (None, [arctap_item_error (Sample.loc 0 5)]);
                (None, [range_error "tap" "track-id" ["1"; "2"; "3"; "4"] (Sample.loc 5 5)]) ])
    as (m & _ & E).
  - repeat constructor.
  - eexists. exact E.
Defined.

Lemma items_Subsequence nodes rs :
  Forall2 (fun node r => exists e1 e2, ToASTVisitor.item node e1 = Normal r e2) nodes rs ->
  exists kept,
    Subsequence kept nodes
    /\ Forall2 (fun node i =>
                  location i = event_location (ctx_item_event node)
                  /\ exists e1 e2,
                       ToASTVisitor.event (ctx_item_event node) e1
                       = Normal (Some (Item (data i))) e2)
         kept (filter_not_null rs).
Proof.
  induction 1 as [|node r nodes rs (e1 & e2 & R) _ (kept & S & F)].
  - exists []. split; constructor.
  - apply item_Normal in R. destruct R as (errors1 & R). destruct r as [i|].
    + destruct R as (E & L & _). exists (node :: kept). split; [constructor; exact S|].
      cbn [filter_not_null]. constructor; [|exact F].
      split; [exact L|]. exists e1, errors1. exact E.
    + exists kept. split; [constructor; exact S|exact F].
Qed.

(** X6. The items of a file that the pass returns are in the order of the
    item nodes they come from: they are the events of some of the item nodes,
    the others being left out, each at the location of the event node of its
    item node. *)
Theorem items_in_source_order (aff : AffNode) (file : AFFFile) (errors : list AFFError) :
  affToAST aff = Normal file errors ->
  exists kept,
    Subsequence kept (ctx_item (ctx_items aff))
    /\ map (fun i : WithLocation AFFItem => location i) (file_items file)
       = map (fun node => event_location (ctx_item_event node)) kept
    /\ Forall2 (fun node i =>
                  exists e1 e2,
                    ToASTVisitor.event (ctx_item_event node) e1
                    = Normal (Some (Item (data i))) e2)
         kept (file_items file).
Proof.
  intros H. destruct (aff_items _ _ _ H) as (errors0 & errors1 & I).
  unfold ToASTVisitor.items in I. inv_bind I. unfold ret in I. injection I as I _.
  apply mapM_Normal in H0. destruct (items_Subsequence _ _ H0) as (kept & S & F).
  exists kept. split; [exact S|]. rewrite <- I. clear - F.
  induction F as [|node i kept items [L E] _ [IHl IHe]]; [split; [reflexivity|constructor]|].
  split; [cbn [map]; rewrite L, IHl; reflexivity|constructor; assumption].
Qed.

Lemma items_in_source_order_witness :
  exists file errors kept,
    affToAST SampleCst.aff_node = Normal file errors
    /\ Subsequence kept (ctx_item (ctx_items SampleCst.aff_node))
    /\ map (fun i : WithLocation AFFItem => location i) (file_items file)
       = map (fun node => event_location (ctx_item_event node)) kept.
Proof.
  destruct (affToAST SampleCst.aff_node) as [file errors|reason] eqn:E.
  - destruct (items_in_source_order SampleCst.aff_node file errors E) as (kept & S & L & _).
    exists file, errors, kept. repeat split; assumption.
  - vm_compute in E. discriminate E.
Defined.

(** ** Nothing is left out without a diagnostic *)

Lemma appends_le {A} (m : Visitor A) errors r errors' :
  appends m -> m errors = Normal r errors' ->
  (List.length errors <= List.length errors')%nat.
Proof.
  intros Hm H. apply (appends_Normal _ _ _ _ Hm) in H. destruct H as (new & _ & ->).
  rewrite length_app. lia.
Qed.

Lemma checkValuesCount_len kind count values l errors ok errors' :
  checkValuesCount kind count values l errors = Normal ok errors' ->
  (List.length errors <= List.length errors')%nat
  /\ (ok = false -> (List.length errors < List.length errors')%nat).
Proof.
  rewrite checkValuesCount_Normal. destruct (Nat.eqb _ _); intros H; injection H as <- <-.
  - split; [lia|discriminate].
  - rewrite length_app. cbn [List.length]. split; [lia|intros _; lia].
Qed.

Lemma checkValueType_len eventKind fieldname T values id errors r errors' :
  checkValueType eventKind fieldname T values id errors = Normal r errors' ->
  (List.length errors <= List.length errors')%nat
  /\ (r = None -> (List.length errors < List.length errors')%nat).
Proof.
  unfold checkValueType. destruct (nth_error values id) as [v|]; [|discriminate].
  destruct (narrow T (data v)); cbn [bind push ret]; intros H; injection H as <- <-.
  - split; [lia|discriminate].
  - rewrite length_app. cbn [List.length]. split; [lia|intros _; lia].
Qed.

Ltac parser_len :=
  match goal with
  | |- ?p _ _ ?raw _ = _ -> _ => unfold p; destruct raw as [x|]
  end;
  [|intros H; inv_ret H; split; [lia|intros _; left; reflexivity]];
  repeat match goal with
         | |- (if ?b then _ else _) _ = _ -> _ => destruct b
         end;
  try discriminate;
  cbn [bind push ret]; intros H; injection H as <- <-;
  rewrite ?length_app; cbn [List.length];
  (split; [lia|intros ?; try discriminate; right; lia]).

Lemma trackId_len eventKind fieldname raw errors r errors' :
  parseValue.trackId eventKind fieldname raw errors = Normal r errors' ->
  (List.length errors <= List.length errors')%nat
  /\ (r = None -> raw = None \/ (List.length errors < List.length errors')%nat).
Proof. parser_len. Qed.

Lemma colorId_len eventKind fieldname raw errors r errors' :
  parseValue.colorId eventKind fieldname raw errors = Normal r errors' ->
  (List.length errors <= List.length errors')%nat
  /\ (r = None -> raw = None \/ (List.length errors < List.length errors')%nat).
Proof. parser_len. Qed.

Lemma arcKind_len eventKind fieldname raw errors r errors' :
  parseValue.arcKind eventKind fieldname raw errors = Normal r errors' ->
  (List.length errors <= List.length errors')%nat
  /\ (r = None -> raw = None \/ (List.length errors < List.length errors')%nat).
Proof. parser_len. Qed.

Lemma effect_len eventKind fieldname raw errors r errors' :
  parseValue.effect eventKind fieldname raw errors = Normal r errors' ->
  (List.length errors <= List.length errors')%nat
  /\ (r = None -> raw = None \/ (List.length errors < List.length errors')%nat).
Proof. parser_len. Qed.

Lemma bool_len eventKind fieldname raw errors r errors' :
  parseValue.bool eventKind fieldname raw errors = Normal r errors' ->
  (List.length errors <= List.length errors')%nat
  /\ (r = None -> raw = None \/ (List.length errors < List.length errors')%nat).
Proof. parser_len. Qed.

(** Replaces the steps read off a transformer by what they say of the number
    of diagnostics. *)
Ltac length_facts :=
  repeat match goal with
         | H : rejectSubevent _ _ _ = Normal _ _ |- _ =>
             apply (appends_le _ _ _ _ (rejectSubevent_appends _ _)) in H
         | H : checkValuesCount _ _ _ _ _ = Normal _ _ |- _ =>
             apply checkValuesCount_len in H
         | H : checkValueType _ _ ?T _ _ _ = Normal _ _ |- _ =>
             apply (@checkValueType_len _ _ T) in H
         | H : parseValue.trackId _ _ _ _ = Normal _ _ |- _ => apply trackId_len in H
         | H : parseValue.colorId _ _ _ _ = Normal _ _ |- _ => apply colorId_len in H
         | H : parseValue.arcKind _ _ _ _ = Normal _ _ |- _ => apply arcKind_len in H
         | H : parseValue.effect _ _ _ _ = Normal _ _ |- _ => apply effect_len in H
         | H : parseValue.bool _ _ _ _ = Normal _ _ |- _ => apply bool_len in H
         end;
  repeat match goal with
         | H : _ /\ _ |- _ => destruct H
         end.

Ltac use_none :=
  repeat match goal with
         | H : None = None -> _ |- _ => specialize (H eq_refl)
         | H : false = false -> _ |- _ => specialize (H eq_refl)
         | H : _ = None \/ _ |- _ => destruct H; subst
         end;
  lia.

Ltac none_ret H := unfold ret in H; injection H; intros; subst.

(** The final match of a transformer that returns no event. *)
Ltac none_fields H :=
  repeat match type of H with
         | (match ?o with Some _ => _ | None => _ end) _ = _ =>
             is_var o; destruct o; [|none_ret H; length_facts; use_none]
         end.

Ltac none_steps H :=
  repeat (inv_bind H);
  match type of H with
  | (if negb ?ok then _ else _) _ = _ =>
      destruct ok; cbv beta iota delta [negb] in H;
      [repeat (inv_bind H)|none_ret H; length_facts; use_none]
  end;
  none_fields H.

Lemma transformer_None k values l subevents tag errors errors' :
  transformer k values l subevents tag errors = Normal None errors' ->
  (List.length errors < List.length errors')%nat.
Proof.
  intros H. destruct k; unfold transformer in H; inv_bind H;
    (destruct a as [x|]; [inv_ret H|]);
    unfold ret in H; cbn [option_map] in H; injection H as E; subst;
    match goal with
    | T : _ = Normal None _ |- _ =>
        unfold eventTransformer.tap, eventTransformer.hold, eventTransformer.arctap,
          eventTransformer.timing, eventTransformer.arc in T;
        none_steps T; try solve [inv_ret T]
    end.
  inv_bind H0. inv_ret H0.
Qed.

Lemma subevents_appends ctx : appends (ToASTVisitor.subevents ctx).
Proof.
  destruct ctx as [events l]. cbn [ToASTVisitor.subevents].
  apply appends_bind; [|intros; apply appends_ret].
  apply appends_mapM. intros node _.
  apply appends_bind; [apply event_appends|intros; apply appends_ret].
Qed.

Lemma event_None ctx errors errors' :
  ToASTVisitor.event ctx errors = Normal None errors' ->
  (List.length errors < List.length errors')%nat.
Proof.
  destruct ctx as [v sub w l]. rewrite event_unfold. intros H.
  inv_bind H. apply (appends_le _ _ _ _ (values_appends v)) in H0.
  inv_bind H.
  assert (S : (List.length errors0 <= List.length errors1)%nat).
  { destruct sub as [node|]; [|inv_ret H1; lia].
    inv_bind H1. inv_ret H1.
    apply (appends_le _ _ _ _ (subevents_appends node)) in H2. exact H2. }
  clear H1.
  assert (T : forall k tag, transformer k a (values_location v) a0 tag errors1
                            = Normal None errors' ->
                            (List.length errors < List.length errors')%nat).
  { intros k tag E. apply transformer_None in E. lia. }
  destruct w as [tag|]; [|exact (T _ _ H)].
  repeat match type of H with
         | (if ?b then _ else _) _ = _ => destruct b; [exact (T _ _ H)|]
         end.
  inv_bind H. none_ret H. unfold push in H1. injection H1 as _ <-.
  rewrite length_app. cbn [List.length]. lia.
Qed.

Lemma item_None ctx errors errors' :
  ToASTVisitor.item ctx errors = Normal None errors' ->
  (List.length errors < List.length errors')%nat.
Proof.
  intros H. apply item_Normal in H. destruct H as (errors1 & [[E ->]|(a & E & ->)]).
  - exact (event_None _ _ _ E).
  - apply (appends_le _ _ _ _ (event_appends _)) in E.
    rewrite length_app. cbn [List.length]. lia.
Qed.

Lemma items_kept_or_reported nodes :
  forall errors rs errors',
    mapM ToASTVisitor.item nodes errors = Normal rs errors' ->
    List.length rs = List.length nodes
    /\ (List.length nodes + List.length errors
        <= List.length (filter_not_null rs) + List.length errors')%nat.
Proof.
  induction nodes as [|node nodes IH]; intros errors rs errors' H; cbn [mapM] in H.
  - none_ret H. split; [reflexivity|cbn; lia].
  - inv_bind H. inv_bind H. none_ret H.
    destruct (IH _ _ _ H1) as [L C]. cbn [List.length]. split; [lia|].
    destruct a as [i|]; cbn [filter_not_null List.length].
    + apply (appends_le _ _ _ _ (item_appends node)) in H0. lia.
    + apply item_None in H0. lia.
Qed.

Lemma filter_not_null_length {A} (l : list (option A)) :
  (List.length (filter_not_null l) <= List.length l)%nat.
Proof. induction l as [|[a|] l IH]; cbn [filter_not_null List.length]; lia. Qed.

(** X7. Nothing is left out of a file without a diagnostic: in a run that
    returns, the item nodes that gave no item and the metadata entries that are
    not in the map are at most as many as the diagnostics.  In particular a
    run without any diagnostic has kept every item node and every entry. *)
Theorem nothing_dropped_silently (aff : AffNode) (file : AFFFile) (errors : list AFFError) :
  affToAST aff = Normal file errors ->
  let nodes := List.length (ctx_item (ctx_items aff)) in
  let entries := List.length (ctx_metadataEntry (ctx_metadata aff)) in
  let items := List.length (file_items file) in
  let keys := List.length (metadata_data (data (file_metadata file))) in
  (items <= nodes)%nat /\ (keys <= entries)%nat
  /\ (nodes + entries <= items + keys + List.length errors)%nat
  /\ (errors = [] -> items = nodes /\ keys = entries).
Proof.
  intros H. cbv zeta. unfold affToAST, ToASTVisitor.aff in H. inv_bind H.
  destruct (metadata_Normal (ctx_metadata aff) []) as (m & M & _ & L).
  rewrite M in H0. injection H0 as <- <-.
  inv_bind H. unfold ToASTVisitor.items in H0. inv_bind H0. none_ret H0. none_ret H.
  cbn [file_items file_metadata data metadata_data].
  destruct (items_kept_or_reported _ _ _ _ H1) as [R C].
  pose proof (filter_not_null_length a0) as F.
  cbn [app] in C.
  assert (N : forall e : list AFFError, e = [] -> List.length e = 0%nat)
    by (intros e ->; reflexivity).
  repeat split; try lia;
    match goal with
    | E : errors = [] |- _ => apply N in E
    end; lia.
Qed.

Lemma nothing_dropped_silently_witness :
  exists file errors,
    affToAST SampleCst.aff_node = Normal file errors
    /\ (4 + 3 <= List.length (file_items file)
                 + List.length (metadata_data (data (file_metadata file)))
                 + List.length errors)%nat.
Proof.
  destruct (affToAST SampleCst.aff_node) as [file errors|reason] eqn:E.
  - exists file, errors. split; [reflexivity|].
    exact (proj1 (proj2 (proj2 (nothing_dropped_silently SampleCst.aff_node file errors E)))).
  - vm_compute in E. discriminate E.
Defined.

(** ** The order of the metadata *)

Lemma metadata_loop_order rest :
  forall seen m errors,
    metadata_invariant seen m ->
    for_of
      (fun (ne : MetadataEntryNode * AFFMetadataEntry)
           (metadata : Map (WithLocation AFFMetadataEntry)) =>
         let '(node, entry) := ne in
         let key_ := data (key entry) in
         if Map_has metadata key_ then
           match Map_get metadata key_ with
           | None => throw "TypeError: Cannot read properties of undefined (reading 'data')"
           | Some previous =>
               let location_ := location (key (data previous)) in
               push {| message := (dquote ++ key_ ++ dquote
                                   ++ " is defined twice in the metadata section.")%string;
                       error_location := location (key entry);
                       severity := DiagnosticSeverity.Error;
                       relatedInfo := Some [{| related_message := "Previous defination";
                                               related_location := location_ |}] |} ;;
               ret metadata
           end
         else
           ret (Map_set metadata key_
                  {| data := entry; location := metadataEntry_location node |}))
      (map (fun node => (node, entry_of node)) rest) m errors =
    Normal (m ++ map map_entry (first_entries seen rest))
           (errors ++ duplicate_errors first_occurrence seen rest).
Proof.
  induction rest as [|node rest IH]; intros seen m errors Inv.
  - cbn [map for_of first_entries duplicate_errors ret]. rewrite !app_nil_r. reflexivity.
  - destruct (metadata_loop [node] seen m errors Inv) as (m1 & R1 & Inv1 & _).
    cbn [map for_of] in R1 |- *. unfold bind at 1. unfold bind at 1 in R1.
    destruct Inv as [G N].
    change (data (key (entry_of node))) with (key_of node) in *.
    rewrite Map_has_get, (G (key_of node)) in *.
    cbn [duplicate_errors first_entries] in *.
    destruct (first_occurrence seen (key_of node)) as [first|] eqn:F;
      cbn [option_map] in *.
    + unfold bind at 1. unfold bind at 1 in R1. cbn [push ret] in *.
      injection R1 as <-.
      rewrite (IH (seen ++ [node]) m _ Inv1). cbn [app].
      rewrite <- app_assoc. reflexivity.
    + cbn [ret] in *. injection R1 as <-.
      assert (Fresh : Map_has m (key_of node) = false).
      { rewrite Map_has_get, (G (key_of node)), F. reflexivity. }
      rewrite (Map_set_fresh _ _ _ Fresh) in *.
      rewrite (IH (seen ++ [node]) _ _ Inv1). cbn [app].
      rewrite <- app_assoc. reflexivity.
Qed.

Lemma find_none {A} (p : A -> bool) (l : list A) :
  (forall x, In x l -> p x = false) -> find p l = None.
Proof.
  induction l as [|a l IH]; intros H; [reflexivity|]. cbn [find].
  rewrite (H a (or_introl eq_refl)). apply IH. intros x I. apply H. right. exact I.
Qed.

Lemma no_duplicate_keys rest :
  forall seen,
    NoDup (map key_of (seen ++ rest)) ->
    first_entries seen rest = rest
    /\ duplicate_errors first_occurrence seen rest = [].
Proof.
  induction rest as [|node rest IH]; intros seen N; [split; reflexivity|].
  cbn [first_entries duplicate_errors].
  assert (F : first_occurrence seen (key_of node) = None).
  { apply find_none. intros x I. unfold has_key. apply String.eqb_neq. intros E.
    rewrite map_app in N. cbn [map] in N. apply NoDup_remove_2 in N.
    apply N. apply in_or_app. left. rewrite <- E. apply in_map. exact I. }
  rewrite F. specialize (IH (seen ++ [node])). rewrite <- app_assoc in IH.
  destruct (IH N) as [-> ->]. split; reflexivity.
Qed.

(** X8. The map of a metadata section lists, in the order of the section, the
    entries whose key is the key of no earlier entry, each under its key and
    with the text and locations of its key and value.  A section in which no
    key occurs twice lowers to the map of all its entries, in order, without a
    diagnostic. *)
Theorem metadata_in_source_order (ctx : MetadataNode) (errors : list AFFError) :
  ToASTVisitor.metadata ctx errors =
    Normal {| metadata_data := map map_entry (first_entries [] (ctx_metadataEntry ctx));
              metaEndLocation := locationFromToken (ctx_metaEnd ctx) |}
           (errors ++ errors_citing_first (ctx_metadataEntry ctx))
  /\ (NoDup (map key_of (ctx_metadataEntry ctx)) ->
      ToASTVisitor.metadata ctx errors =
        Normal {| metadata_data := map map_entry (ctx_metadataEntry ctx);
                  metaEndLocation := locationFromToken (ctx_metaEnd ctx) |}
               errors).
Proof.
  assert (R : ToASTVisitor.metadata ctx errors =
              Normal {| metadata_data :=
                          map map_entry (first_entries [] (ctx_metadataEntry ctx));
                        metaEndLocation := locationFromToken (ctx_metaEnd ctx) |}
                     (errors ++ errors_citing_first (ctx_metadataEntry ctx))).
  { unfold ToASTVisitor.metadata.
    rewrite (bind_run _ _ _ _ _ (mapM_metadataEntry _ _)).
    rewrite (bind_run _ _ _ _ _ (metadata_loop_order (ctx_metadataEntry ctx) [] [] errors
                                   (conj (fun k => eq_refl) (NoDup_nil _)))).
    reflexivity. }
  split; [exact R|]. intros N. rewrite R.
  unfold errors_citing_first.
  destruct (no_duplicate_keys (ctx_metadataEntry ctx) [] N) as [-> ->].
  rewrite app_nil_r. reflexivity.
Qed.

Lemma metadata_in_source_order_witness :
  ToASTVisitor.metadata clean_metadata_node [] =
    Normal {| metadata_data := map map_entry (ctx_metadataEntry clean_metadata_node);
              metaEndLocation := Sample.loc 80 80 |} [].
Proof.
  apply (proj2 (metadata_in_source_order clean_metadata_node [])).
  repeat constructor; simpl; intuition discriminate.
Defined.

(** ** Tags *)

Lemma transformer_tagLocation k values l subevents tag errors e errors' :
  transformer k values l subevents tag errors = Normal (Some e) errors' ->
  event_tagLocation e = match k with KTap => None | _ => Some tag end.
Proof.
  intros H. destruct k; unfold transformer in H; inv_bind H;
    (destruct a as [x|]; [|inv_ret H]); inv_ret H; cbn [event_tagLocation].
  - reflexivity.
  - apply hold_Some in H0. destruct H0 as (? & ? & ? & _ & _ & _ & _ & T & _).
    rewrite T. reflexivity.
  - apply arctap_Some in H0. destruct H0 as (? & _ & _ & T & _). rewrite T. reflexivity.
  - apply timing_Some in H0. destruct H0 as (? & ? & ? & _ & _ & _ & _ & T & _).
    rewrite T. reflexivity.
  - apply arc_Some in H0.
    destruct H0 as (? & ? & ? & ? & ? & ? & ? & ? & ? & ? & _ & _ & _ & _ & _ & _ & _
                    & _ & _ & _ & _ & T & _).
    rewrite T. reflexivity.
Qed.

(** X9. The kind of an event that the visitor returns is the text of the tag
    of its node, and [tap] for a node without tag; its tag location is the
    location of the tag token.  A tag other than [timing], [hold], [arc] and
    [arctap] (such as [tap]) never gives an event: when the visitor returns on
    such a node, it returns none, and the last diagnostic is the Error
    "Unknown event type" at the tag. *)
Theorem event_kind_is_tag
    (v : ValuesNode) (sub : option SubeventsNode) (w : option IToken)
    (l : CstNodeLocation) (errors : list AFFError) :
  (forall e errors',
      ToASTVisitor.event (mkEventNode v sub w l) errors = Normal (Some e) errors' ->
      kind e = match w with Some tag => image tag | None => "tap" end
      /\ event_tagLocation e = option_map locationFromToken w)
  /\ (forall tag r errors',
        w = Some tag ->
        ~ In (image tag) ["timing"; "hold"; "arc"; "arctap"]%string ->
        ToASTVisitor.event (mkEventNode v sub w l) errors = Normal r errors' ->
        r = None /\ exists before, errors' = before ++ [unknown_tag_error tag]).
Proof.
  split.
  - intros e errors' H. rewrite event_unfold in H. inv_bind H. inv_bind H.
    assert (T : forall k tag,
               transformer k a (values_location v) a0 tag errors1 = Normal (Some e) errors' ->
               kind e = kind_name k
               /\ event_tagLocation e = match k with KTap => None | _ => Some tag end).
    { intros k tag E. split; [exact (proj1 (proj2 (transformer_Some _ _ _ _ _ _ _ _ E)))|].
      exact (transformer_tagLocation _ _ _ _ _ _ _ _ E). }
    destruct w as [tag|]; [|exact (T _ _ H)].
    destruct (String.eqb (image tag) "timing") eqn:E1.
    { apply String.eqb_eq in E1. rewrite E1. exact (T _ _ H). }
    destruct (String.eqb (image tag) "hold") eqn:E2.
    { apply String.eqb_eq in E2. rewrite E2. exact (T _ _ H). }
    destruct (String.eqb (image tag) "arc") eqn:E3.
    { apply String.eqb_eq in E3. rewrite E3. exact (T _ _ H). }
    destruct (String.eqb (image tag) "arctap") eqn:E4.
    { apply String.eqb_eq in E4. rewrite E4. exact (T _ _ H). }
    inv_bind H. inv_ret H.
  - intros tag r errors' -> U H. rewrite event_unfold in H. inv_bind H. inv_bind H.
    assert (N : forall t, In t ["timing"; "hold"; "arc"; "arctap"]%string ->
                          String.eqb (image tag) t = false).
    { intros t I. apply String.eqb_neq. intros E. apply U. rewrite E. exact I. }
    rewrite !N in H by (simpl; tauto).
    inv_bind H. none_ret H. unfold push in H2. injection H2 as _ <-.
    split; [reflexivity|]. exists errors1. reflexivity.
Qed.

Lemma event_kind_is_tag_witness :
  exists before,
    ToASTVisitor.event tagged_tap_node [] =
      Normal None (before ++ [unknown_tag_error (Sample.token tokenTypes.word "tap" 0)]).
Proof.
  destruct (ToASTVisitor.event tagged_tap_node []) as [r errors'|reason] eqn:E.
  - destruct (proj2 (event_kind_is_tag _ _ _ _ _)
                (Sample.token tokenTypes.word "tap" 0) r errors' eq_refl
                ltac:(simpl; intuition discriminate) E) as (-> & before & ->).
    exists before. reflexivity.
  - vm_compute in E. discriminate E.
Defined.

(** ** Bounds on the count of fractional digits *)

Lemma indexOf_dot_bounds text :
  -1 <= indexOf text "." < Z.of_nat (String.length text).
Proof.
  unfold indexOf. induction text as [|c text IH]; [cbn; lia|].
  cbn [String.index prefix String.length].
  destruct (ascii_dec "." c) as [_|_].
  - destruct text; cbn [prefix]; lia.
  - destruct (String.index 0 "." text) as [n|]; lia.
Qed.

Lemma fraction_digits_range text :
  0 <= fraction_digits text <= Z.of_nat (String.length text).
Proof. unfold fraction_digits. pose proof (indexOf_dot_bounds text). lia. Qed.

(** X10. The count of fractional digits recorded for a float literal is never
    negative and never more than the length of its text; it is the whole
    length exactly when the text has no point.  In a file that the pass
    returns, every float field that the float-digit checker reads has a count
    that is not negative. *)
Theorem fraction_digits_bounds :
  (forall text,
      0 <= fraction_digits text <= Z.of_nat (String.length text)
      /\ (fraction_digits text = Z.of_nat (String.length text) <-> indexOf text "." = -1))
  /\ (forall aff file errors,
        affToAST aff = Normal file errors ->
        Forall (fun f => 0 <= digit (data f))
          (flat_map (fun i => float_fields (data i)) (file_items file))).
Proof.
  split.
  - intros text. split; [apply fraction_digits_range|]. unfold fraction_digits. lia.
  - intros aff file errors H. apply Forall_flat_map.
    destruct (aff_items _ _ _ H) as (errors0 & errors1 & I).
    apply items_Normal in I. revert I. apply Forall_impl.
    intros i (node & e1 & e2 & _ & E). apply event_digits_recorded in E.
    destruct (data i) as [t|t|t|a]; cbn [float_fields digits_recorded] in *.
    + destruct E as (t0 & t1 & t2 & _ & B & S).
      repeat (apply Forall_cons;
              [cbv beta; first [rewrite B|rewrite S]; apply fraction_digits_range|]).
      apply Forall_nil.
    + constructor.
    + constructor.
    + destruct E as (t0 & t1 & t2 & t3 & t4 & t5 & t6 & t7 & t8 & t9 & _ & X2 & X3 & X5 & X6).
      repeat (apply Forall_cons;
              [cbv beta; first [rewrite X2|rewrite X3|rewrite X5|rewrite X6];
               apply fraction_digits_range|]).
      apply Forall_nil.
Qed.

Lemma fraction_digits_bounds_witness :
  exists file errors,
    affToAST SampleCst.aff_node = Normal file errors
    /\ Forall (fun f => 0 <= digit (data f))
         (flat_map (fun i => float_fields (data i)) (file_items file)).
Proof.
  destruct (affToAST SampleCst.aff_node) as [file errors|reason] eqn:E.
  - exists file, errors. split; [reflexivity|].
    exact (proj2 fraction_digits_bounds SampleCst.aff_node file errors E).
  - vm_compute in E. discriminate E.
Defined.

(** ** A checker that throws *)

(** X11. The driver does not isolate the checkers: it throws exactly when one
    of the three other checkers throws on the diagnostics gathered before it,
    with the same reason, and then no diagnostic of any checker is returned.
    The float-digit checker, third in the list, never throws; the checker
    after it receives its warnings. *)
Theorem processCheckers_throws
    (metadataChecker valueRangeChecker timingChecker : AFFChecker)
    (file : AFFFile) (reason : string) :
  processCheckers metadataChecker valueRangeChecker timingChecker file = Throw reason
  <-> metadataChecker file [] = Throw reason
      \/ (exists d1,
            metadataChecker file [] = Normal tt d1
            /\ valueRangeChecker file d1 = Throw reason)
      \/ (exists d1 d2,
            metadataChecker file [] = Normal tt d1
            /\ valueRangeChecker file d1 = Normal tt d2
            /\ timingChecker file
                 (d2 ++ flat_map float_warnings
                          (flat_map (fun i => float_fields (data i)) (file_items file)))
               = Throw reason).
Proof.
  unfold processCheckers, checkers. cbn [for_of]. unfold bind at 1.
  destruct (metadataChecker file []) as [[] d1|r1].
  - unfold bind at 1. destruct (valueRangeChecker file d1) as [[] d2|r2] eqn:V.
    + unfold bind at 1. rewrite floatDigitChecker_Normal. unfold bind at 1.
      destruct (timingChecker file _) as [[] d4|r4] eqn:T.
      * split; [discriminate|].
        intros [H|[(x & H & H')|(x & y & H1 & H2 & H3)]].
        -- discriminate H.
        -- injection H as <-. rewrite V in H'. discriminate H'.
        -- injection H1 as <-. rewrite V in H2. injection H2 as <-.
           rewrite T in H3. discriminate H3.
      * split.
        -- intros H. right. right. exists d1, d2. repeat split; [exact V|].
           rewrite T. exact H.
        -- intros [H|[(x & H & H')|(x & y & H1 & H2 & H3)]].
           ++ discriminate H.
           ++ injection H as <-. rewrite V in H'. discriminate H'.
           ++ injection H1 as <-. rewrite V in H2. injection H2 as <-.
              rewrite T in H3. exact H3.
    + split.
      * intros H. right. left. exists d1. split; [reflexivity|]. rewrite V. exact H.
      * intros [H|[(x & H & H')|(x & y & H1 & H2 & _)]].
        -- discriminate H.
        -- injection H as <-. rewrite V in H'. exact H'.
        -- injection H1 as <-. rewrite V in H2. discriminate H2.
  - split.
    + intros H. left. exact H.
    + intros [H|[(x & H & _)|(x & y & H & _)]]; try discriminate H. exact H.
Qed.

Lemma processCheckers_throws_witness :
  processCheckers sample_checker (fun _ => throw "value-range") sample_checker
    {| file_metadata := {| data := {| metadata_data := [];
                                     metaEndLocation := Sample.loc 0 0 |};
                           location := Sample.loc 0 0 |};
       file_items := [] |} = Throw "value-range".
Proof.
  apply (proj2 (processCheckers_throws sample_checker (fun _ => throw "value-range")
                  sample_checker _ "value-range")).
  right. left. eexists. split; reflexivity.
Defined.

(** ** Severities *)

Section Emits.

Variable P : AFFError -> Prop.

Lemma emits_ret {A} (a : A) : emits P (ret a).
Proof. intros errors r errors' H F. inv_ret H. exact F. Qed.

Lemma emits_throw {A} reason : emits P (@throw A reason).
Proof. intros errors r errors' H. discriminate H. Qed.

Lemma emits_push e : P e -> emits P (push e).
Proof.
  intros Pe errors r errors' H F. unfold push in H. injection H as _ <-.
  apply Forall_app. split; [exact F|repeat constructor; exact Pe].
Qed.

Lemma emits_bind {A B} (m : Visitor A) (k : A -> Visitor B) :
  emits P m -> (forall a, emits P (k a)) -> emits P (bind m k).
Proof.
  intros Hm Hk errors r errors' H F. inv_bind H.
  exact (Hk _ _ _ _ H (Hm _ _ _ H0 F)).
Qed.

Lemma emits_mapM {A B} (f : A -> Visitor B) (l : list A) :
  (forall a, In a l -> emits P (f a)) -> emits P (mapM f l).
Proof.
  induction l as [|a rest IH]; intros Hf; cbn [mapM].
  - apply emits_ret.
  - apply emits_bind; [apply Hf; left; reflexivity|]. intros b.
    apply emits_bind; [apply IH; intros; apply Hf; right; assumption|].
    intros bs. apply emits_ret.
Qed.

Lemma emits_for_of {A S} (body : A -> S -> Visitor S) (l : list A) :
  (forall a s, emits P (body a s)) -> forall s, emits P (for_of body l s).
Proof.
  intros Hb. induction l as [|a rest IH]; intros s; cbn [for_of].
  - apply emits_ret.
  - apply emits_bind; [apply Hb|]. intros s'. apply IH.
Qed.

End Emits.

(** Closes a goal [emits is_Error m] for an [m] built from the operations of
    the monad, conditionals and matches, whose pushes are Errors. *)
Ltac emits_tac :=
  repeat first
    [ apply emits_ret
    | apply emits_throw
    | apply emits_push; reflexivity
    | apply emits_bind; [|intros ?]
    | apply emits_for_of; intros ? ?
    | match goal with
      | |- emits _ (if ?b then _ else _) => destruct b
      | |- emits _ (match ?x with _ => _ end) => destruct x
      | |- emits _ (let '(_, _) := ?x in _) => destruct x
      end ].

Lemma transformer_emits_errors k values l subevents tag :
  emits is_Error (transformer k values l subevents tag).
Proof.
  destruct k; unfold transformer, eventTransformer.tap, eventTransformer.hold,
    eventTransformer.arctap, eventTransformer.timing, eventTransformer.arc,
    rejectSubevent, checkValuesCount, checkValueType, transformArcSubevents,
    parseValue.trackId, parseValue.colorId, parseValue.arcKind, parseValue.effect,
    parseValue.bool;
    emits_tac.
Qed.

Lemma event_emits_errors ctx : emits is_Error (ToASTVisitor.event ctx).
Proof.
  induction ctx as [v sub w l IH] using EventNode_nested_ind.
  rewrite event_unfold.
  apply emits_bind.
  { unfold ToASTVisitor.values. apply emits_mapM. intros token _. emits_tac. }
  intros values_. apply emits_bind.
  - destruct sub as [[events sl]|]; [|apply emits_ret].
    apply emits_bind; [|intros s; apply emits_ret].
    cbn [ToASTVisitor.subevents].
    apply emits_bind; [|intros s; apply emits_ret].
    apply emits_mapM. intros node N.
    apply emits_bind; [|intros e; apply emits_ret].
    rewrite Forall_forall in IH. exact (IH node N).
  - intros subevents_. destruct w as [tag|]; [|apply transformer_emits_errors].
    repeat match goal with
           | |- emits _ (if ?b then _ else _) => destruct b
           end;
      try apply transformer_emits_errors.
    emits_tac.
Qed.

Lemma aff_emits_errors ctx : emits is_Error (ToASTVisitor.aff ctx).
Proof.
  unfold ToASTVisitor.aff. apply emits_bind.
  - unfold ToASTVisitor.metadata. apply emits_bind.
    + apply emits_mapM. intros node _. unfold ToASTVisitor.metadataEntry. emits_tac.
    + intros entries. emits_tac.
  - intros m. apply emits_bind; [|intros; apply emits_ret].
    unfold ToASTVisitor.items. apply emits_bind; [|intros; apply emits_ret].
    apply emits_mapM. intros node _. unfold ToASTVisitor.item.
    apply emits_bind; [apply event_emits_errors|]. intros e. emits_tac.
Qed.

(** X12. Every diagnostic of the pass is an Error: the pass never adds a
    Warning, an Information or a Hint.  Every diagnostic that the float-digit
    checker adds is a Warning, without related info. *)
Theorem severities :
  (forall aff file errors,
      affToAST aff = Normal file errors -> Forall is_Error errors)
  /\ (forall file errors,
        exists new,
          floatDigitChecker file errors = Normal tt (errors ++ new)
          /\ Forall (fun e => is_Warning e /\ relatedInfo e = None) new).
Proof.
  split.
  - intros aff file errors H. exact (aff_emits_errors aff _ _ _ H (Forall_nil _)).
  - intros file errors. eexists. split; [apply floatDigitChecker_Normal|].
    apply Forall_flat_map. apply Forall_forall. intros f _.
    unfold float_warnings. destruct (digit (data f) =? 2); repeat constructor.
Qed.

Lemma severities_witness :
  exists file errors,
    affToAST SampleCst.aff_node = Normal file errors
    /\ List.length errors = 4%nat /\ Forall is_Error errors.
Proof.
  destruct (affToAST SampleCst.aff_node) as [file errors|reason] eqn:E.
  - exists file, errors. split; [reflexivity|]. split.
    + vm_compute in E. injection E as _ <-. reflexivity.
    + exact (proj1 severities SampleCst.aff_node file errors E).
  - vm_compute in E. discriminate E.
Defined.

(** ** Sub-events *)

(** An event node visited after [errors] returns what it returns alone, after
    [errors]. *)
Lemma event_alone_Normal node errors e errors' :
  ToASTVisitor.event node errors = Normal e errors' ->
  ToASTVisitor.event node [] = Normal (event_alone node) (diagnostics_alone node)
  /\ e = event_alone node
  /\ errors' = errors ++ diagnostics_alone node.
Proof.
  intros H. destruct (appends_Normal _ _ _ _ (event_appends node) H) as (new & E & ->).
  unfold event_alone, diagnostics_alone. rewrite E. repeat split.
Qed.

Lemma subevents_mapM events :
  forall errors l errors',
    mapM (fun node =>
            e <- ToASTVisitor.event node ;;
            ret {| data := e; location := event_location node |})%visitor
      events errors = Normal l errors' ->
    filter_data_not_null l = kept_subevents events
    /\ errors' = errors ++ flat_map diagnostics_alone events
    /\ Forall (fun node =>
                 ToASTVisitor.event node [] =
                   Normal (event_alone node) (diagnostics_alone node)) events.
Proof.
  induction events as [|node rest IH]; intros errors l errors' H; cbn [mapM] in H.
  - inv_ret H. cbn [flat_map filter_data_not_null kept_subevents].
    rewrite app_nil_r. repeat split. constructor.
  - inv_bind H. inv_bind H. inv_ret H. inv_bind H0. inv_ret H0.
    match goal with
    | E : ToASTVisitor.event _ _ = _ |- _ =>
        destruct (event_alone_Normal _ _ _ _ E) as (E' & -> & ->)
    end.
    match goal with
    | M : mapM _ _ _ = _ |- _ => destruct (IH _ _ _ M) as (K & -> & F)
    end.
    split; [|split].
    + unfold kept_subevents in *. cbn [flat_map filter_data_not_null data location].
      destruct (event_alone node); cbn [app]; rewrite K; reflexivity.
    + cbn [flat_map]. rewrite app_assoc. reflexivity.
    + constructor; assumption.
Qed.

Lemma subevents_mapM_returns events :
  Forall (fun node =>
            ToASTVisitor.event node [] =
              Normal (event_alone node) (diagnostics_alone node)) events ->
  forall errors,
    exists l,
      mapM (fun node =>
              e <- ToASTVisitor.event node ;;
              ret {| data := e; location := event_location node |})%visitor
        events errors = Normal l (errors ++ flat_map diagnostics_alone events)
      /\ filter_data_not_null l = kept_subevents events.
Proof.
  induction 1 as [|node rest E _ IH]; intros errors; cbn [mapM flat_map].
  - exists []. unfold ret. rewrite app_nil_r. split; reflexivity.
  - destruct (IH (errors ++ diagnostics_alone node)) as (l & M & K).
    eexists. split.
    + unfold bind at 1. unfold bind at 1.
      rewrite (appends_run _ errors _ _ (event_appends node) E). cbn [ret].
      rewrite (bind_run _ _ _ _ _ M). unfold ret. rewrite app_assoc. reflexivity.
    + unfold kept_subevents in *. cbn [flat_map filter_data_not_null data location].
      destruct (event_alone node); cbn [app]; rewrite K; reflexivity.
Qed.

(** X13. The visitor returns for a subevents clause exactly when each event
    node of the clause, visited alone, returns.  The sub-events that it
    returns are then, in the order of the nodes, the event of every node that
    gives one, at the location of that node, the nodes that give no event
    being the only ones left out; and its diagnostics are those of each node
    visited alone, in the order of the nodes, after the diagnostics before
    it. *)
Theorem subevents_in_source_order
    (events : list EventNode) (l : CstNodeLocation) (errors : list AFFError)
    (r : list (WithLocation AFFEvent)) (errors' : list AFFError) :
  ToASTVisitor.subevents (mkSubeventsNode events l) errors = Normal r errors'
  <-> (Forall (fun node =>
                 ToASTVisitor.event node [] =
                   Normal (event_alone node) (diagnostics_alone node)) events
       /\ r = kept_subevents events
       /\ errors' = errors ++ flat_map diagnostics_alone events).
Proof.
  cbn [ToASTVisitor.subevents]. split.
  - intros H. inv_bind H. unfold ret in H. injection H as <- <-.
    destruct (subevents_mapM _ _ _ _ H0) as (K & E & F).
    split; [exact F|]. split; [exact K|exact E].
  - intros (F & -> & ->).
    destruct (subevents_mapM_returns _ F errors) as (rs & M & K).
    rewrite (bind_run _ _ _ _ _ M). unfold ret. rewrite K. reflexivity.
Qed.

Lemma subevents_in_source_order_witness :
  ToASTVisitor.subevents sample_subevents_node [] =
    Normal [ {| data := Arctap Sample.arctap_event; location := Sample.loc 0 10 |};
             {| data := Arctap Sample.arctap_event; location := Sample.loc 0 10 |} ]
           [count_error "tap" 2 1 (Sample.loc 21 23)].
Proof.
  apply (proj2 (subevents_in_source_order _ (Sample.loc 10 40) [] _ _)).
  split; [|split].
  - repeat constructor.
  - vm_compute. reflexivity.
  - vm_compute. reflexivity.
Defined.

(** ** The sub-events of an arc, from the tree *)

Lemma values_pushes_nothing ctx errors vs errors' :
  ToASTVisitor.values ctx errors = Normal vs errors' -> errors' = errors.
Proof.
  unfold ToASTVisitor.values. revert errors vs.
  induction (ctx_value ctx) as [|token rest IH]; intros errors vs H; cbn [mapM] in H.
  - inv_ret H. reflexivity.
  - inv_bind H. inv_bind H. inv_ret H. inv_bind H0. inv_ret H0.
    match goal with
    | M : mapM _ _ _ = _ |- _ => apply IH in M; subst
    end.
    match goal with
    | T : match tokenType token with _ => _ end _ = _ |- _ =>
        destruct (tokenType token); inv_ret T; reflexivity
    end.
Qed.

(** X15. The arctaps of an arc that the visitor returns for an event node
    with a subevents clause are, in the order of the nodes of the clause, the
    events of the nodes that give an arctap, each at the location of its node,
    at the location of the clause: no node that gives an arctap is lost on the
    way to the arc.  The diagnostics of the arc are those of each node of the
    clause visited alone, then one "should be arctap" Error for each node that
    gives an event of another kind. *)
Theorem nested_arctaps_reach_the_arc
    (ctx_values : ValuesNode) (events : list EventNode) (sl : CstNodeLocation)
    (ctx_word : option IToken) (l : CstNodeLocation)
    (errors : list AFFError) (a : AFFArcEvent) (errors' : list AFFError) :
  ToASTVisitor.event
    (mkEventNode ctx_values (Some (mkSubeventsNode events sl)) ctx_word l) errors
  = Normal (Some (Item (Arc a))) errors' ->
  arctaps a = Some {| data := arctaps_of (kept_subevents events); location := sl |}
  /\ errors' = errors ++ flat_map diagnostics_alone events
               ++ map not_arctap_error (non_arctaps (kept_subevents events)).
Proof.
  intros H. cbn [ToASTVisitor.event] in H.
  inv_bind H. apply values_pushes_nothing in H0. subst.
  inv_bind H. inv_bind H0. inv_ret H0.
  apply (proj1 (subevents_in_source_order _ _ _ _ _)) in H1.
  destruct H1 as (_ & -> & ->).
  assert (A : eventTransformer.arc a0 (values_location ctx_values)
                (Some {| data := kept_subevents events; location := sl |})
                (match ctx_word with
                 | Some tag => locationFromToken tag
                 | None => l
                 end)
                (errors ++ flat_map diagnostics_alone events)
              = Normal (Some a) errors').
  { destruct ctx_word as [tag|].
    - destruct (String.eqb (image tag) "timing");
        [inv_bind H; destruct a1; inv_ret H|].
      destruct (String.eqb (image tag) "hold");
        [inv_bind H; destruct a1; inv_ret H|].
      destruct (String.eqb (image tag) "arc").
      + inv_bind H. destruct a1 as [x|]; inv_ret H. exact H0.
      + destruct (String.eqb (image tag) "arctap");
          [inv_bind H; destruct a1; inv_ret H|].
        inv_bind H. inv_ret H.
    - inv_bind H. destruct a1; inv_ret H. }
  apply arc_Some in A.
  destruct A as (v0 & v1 & v2 & v3 & v4 & v5 & v6 & v7 & v8 & v9 & _ & _ & _ & _ & _ & _
                 & _ & _ & _ & _ & _ & _ & T & E).
  cbn [option_map data location] in T, E.
  split; [exact T|]. rewrite E, <- app_assoc. reflexivity.
Qed.

Lemma nested_arctaps_reach_the_arc_witness :
  exists a errors',
    ToASTVisitor.event sample_arc_node [] = Normal (Some (Item (Arc a))) errors'
    /\ arctaps a =
         Some {| data := [ {| data := Sample.arctap_event; location := Sample.loc 0 10 |};
                           {| data := Sample.arctap_event; location := Sample.loc 0 10 |} ];
                 location := Sample.loc 50 90 |}
    /\ List.length errors' = 2%nat.
Proof.
  destruct (ToASTVisitor.event sample_arc_node []) as [[[i|t]|] errors'|reason] eqn:E;
    try (vm_compute in E; discriminate E).
  destruct i as [x|x|x|a]; try (vm_compute in E; discriminate E).
  exists a, errors'. split; [reflexivity|].
  destruct (nested_arctaps_reach_the_arc _ _ _ _ _ _ _ _ E) as (T & D).
  split.
  - rewrite T. vm_compute. reflexivity.
  - rewrite D. vm_compute. reflexivity.
Defined.

(** ** The value parsers that throw *)

(** X14. The parsers of arc kinds, effects and booleans always return.  The
    parsers of track ids and color ids return on no value and on an integer
    that is an integer, and throw "value in AFFInt(...) is not int" on a number
    that is not one, without looking at the range. *)
Theorem value_parsers_throw (eventKind fieldname : string) (errors : list AFFError) :
  (forall w,
      (exists r errors', parseValue.arcKind eventKind fieldname w errors = Normal r errors')
      /\ (exists r errors', parseValue.effect eventKind fieldname w errors = Normal r errors')
      /\ (exists r errors', parseValue.bool eventKind fieldname w errors = Normal r errors'))
  /\ (forall i,
        Number_isInteger (int_value (data i)) = false ->
        parseValue.trackId eventKind fieldname (Some i) errors =
          Throw ("value in AFFInt(" ++ Number_toString (int_value (data i))
                 ++ ") is not int")%string
        /\ parseValue.colorId eventKind fieldname (Some i) errors =
             Throw ("value in AFFInt(" ++ Number_toString (int_value (data i))
                    ++ ") is not int")%string)
  /\ (forall i,
        Number_isInteger (int_value (data i)) = true ->
        (exists r errors',
            parseValue.trackId eventKind fieldname (Some i) errors = Normal r errors')
        /\ (exists r errors',
              parseValue.colorId eventKind fieldname (Some i) errors = Normal r errors')).
Proof.
  split; [|split].
  - intros w. repeat split; eexists; eexists;
      [apply arcKind_run|apply effect_run|apply bool_run].
  - intros i H. split; [apply trackId_not_integer|apply colorId_not_integer]; exact H.
  - intros i H. split; eexists; eexists;
      [apply trackId_run|apply colorId_run]; intros j E; injection E as <-; exact H.
Qed.

Lemma value_parsers_throw_witness :
  parseValue.trackId "tap" "track-id"
    (Some {| data := {| int_value := parseInt SampleCst.overlong |};
             location := Sample.loc 5 314 |}) [] =
    Throw "value in AFFInt(Infinity) is not int".
Proof.
  refine (eq_trans
            (proj1 (proj1 (proj2 (value_parsers_throw "tap" "track-id" []))
                      {| data := {| int_value := parseInt SampleCst.overlong |};
                         location := Sample.loc 5 314 |} _)) _).
  - vm_compute. reflexivity.
  - vm_compute. reflexivity.
Defined.
